(** * docs-renderer: the documentation rendering block

    A shallow embedding of [blocks/docs-renderer/docs-renderer.js]:
    the language normalizer, the highlighter loader, heading slugs, the
    code-block and heading augmenters, the table-of-contents builder and
    the [decorate] entry point, with the properties the specification
    states about them.

    Modelling conventions.
    - A JavaScript string is a [string]: a sequence of code units below
      256, read as Latin-1.  [toLowerCase], [trim] and the regular
      expressions of the source are modelled exactly on that range.
    - The DOM is a store of nodes addressed by reference ([nat]), with
      parent and children links, so that mutation through an alias
      ([code.parentElement], a static [NodeList]) is visible to every
      holder of the reference.
    - Code that can throw runs in a state-and-exception monad over the
      page state; [try]/[catch] is a combinator of that monad.
    - The converter ([marked]), the highlighter ([Prism]), the HTML parser
      behind [innerHTML], the network and the script loader are external:
      the record [external] collects them and the pipeline takes it as a
      parameter.
    - What the page runs after [decorate] has returned (the click
      handlers, the timers, the callback of the intersection observer)
      is registered in the list of requests and not run by the
      pipeline; the click listeners are functions of their own
      ([Listeners]).

    The definitions come first; the properties follow, with the ones the
    specification states marked C1 to C10. *)

From Stdlib Require Import Ascii String NArith Lia DecimalString.
From stdpp Require Import gmap strings list.

Local Open Scope string_scope.

(** ** Strings *)

Module Str.

Definition code (c : ascii) : N := N_of_ascii c.

Definition in_range (lo hi : N) (c : ascii) : bool :=
  ((lo <=? code c) && (code c <=? hi))%N.

Definition is_digit (c : ascii) : bool := in_range 48 57 c.
Definition is_upper (c : ascii) : bool := in_range 65 90 c.
Definition is_lower (c : ascii) : bool := in_range 97 122 c.

(** [\w] without the unicode flag: [A-Za-z0-9_]. *)
Definition is_word (c : ascii) : bool :=
  is_digit c || is_upper c || is_lower c || Ascii.eqb c "_".

(** Upper-case letters of Latin-1 with a lower-case partner 32 code
    points above: A-Z, and U+00C0..U+00DE except the multiplication sign
    U+00D7. *)
Definition has_lower (c : ascii) : bool :=
  is_upper c || (in_range 192 222 c && negb (code c =? 215)%N).

Definition lower_char (c : ascii) : ascii :=
  if has_lower c then ascii_of_N (code c + 32) else c.

Definition upper_char (c : ascii) : ascii :=
  if is_lower c then ascii_of_N (code c - 32) else c.

Fixpoint map (f : ascii -> ascii) (s : string) : string :=
  match s with
  | EmptyString => EmptyString
  | String c r => String (f c) (map f r)
  end.

(** [String.prototype.toLowerCase]. *)
Definition toLowerCase (s : string) : string := map lower_char s.

(** Upper-casing as [Element.tagName] applies it to an ASCII local name. *)
Definition toUpperCase (s : string) : string := map upper_char s.

(** White space and line terminators of ECMAScript below 256:
    TAB, LF, VT, FF, CR, SP and NBSP. *)
Definition is_space (c : ascii) : bool :=
  in_range 9 13 c || (code c =? 32)%N || (code c =? 160)%N.

Fixpoint trimStart (s : string) : string :=
  match s with
  | EmptyString => EmptyString
  | String c r => if is_space c then trimStart r else s
  end.

Fixpoint trimEnd (s : string) : string :=
  match s with
  | EmptyString => EmptyString
  | String c r =>
      match trimEnd r with
      | EmptyString => if is_space c then EmptyString else String c EmptyString
      | r' => String c r'
      end
  end.

(** [String.prototype.trim]. *)
Definition trim (s : string) : string := trimEnd (trimStart s).

Definition is_empty (s : string) : bool :=
  match s with EmptyString => true | _ => false end.

(** [s.startsWith(p)]. *)
Definition startsWith (p s : string) : bool := String.prefix p s.

Fixpoint drop (n : nat) (s : string) : string :=
  match n, s with
  | O, _ => s
  | S n', String _ r => drop n' r
  | S _, EmptyString => EmptyString
  end.

(** [s.replace(pat, rep)] with a string pattern: the first occurrence. *)
Fixpoint replace_first (pat rep s : string) : string :=
  if String.prefix pat s then rep ++ drop (String.length pat) s
  else match s with
       | EmptyString => EmptyString
       | String c r => String c (replace_first pat rep r)
       end.

(** [s.replace(/[^\w]+/g, '-')]: every maximal run of non-word
    characters becomes one hyphen.  [in_run] tells that the previous
    character belongs to the run being matched. *)
Fixpoint collapse_nonword (in_run : bool) (s : string) : string :=
  match s with
  | EmptyString => EmptyString
  | String c r =>
      if is_word c then String c (collapse_nonword false r)
      else if in_run then collapse_nonword true r
      else String "-" (collapse_nonword true r)
  end.

(** [s.replace(/(^-|-$)/g, '')]: a hyphen is dropped when it stands at
    index 0 or is the last character. *)
Fixpoint strip_edge_hyphens (at_start : bool) (s : string) : string :=
  match s with
  | EmptyString => EmptyString
  | String c r =>
      if Ascii.eqb c "-" && (at_start || is_empty r)
      then strip_edge_hyphens false r
      else String c (strip_edge_hyphens false r)
  end.

(** [s.replace(/#$/, '')]. *)
Fixpoint strip_trailing_hash (s : string) : string :=
  match s with
  | EmptyString => EmptyString
  | String c r =>
      if Ascii.eqb c "#" && is_empty r then EmptyString
      else String c (strip_trailing_hash r)
  end.

(** Splitting on ASCII white space, as [classList] tokenizes
    [className]: TAB, LF, FF, CR and SP. *)
Definition is_ascii_ws (c : ascii) : bool :=
  (code c =? 9)%N || (code c =? 10)%N || (code c =? 12)%N
  || (code c =? 13)%N || (code c =? 32)%N.

Fixpoint tokens_aux (cur : string) (s : string) : list string :=
  match s with
  | EmptyString => if is_empty cur then [] else [cur]
  | String c r =>
      if is_ascii_ws c
      then (if is_empty cur then tokens_aux EmptyString r
            else cur :: tokens_aux EmptyString r)
      else tokens_aux (cur ++ String c EmptyString) r
  end.

Definition tokens (s : string) : list string := tokens_aux EmptyString s.

Fixpoint forallb (p : ascii -> bool) (s : string) : bool :=
  match s with
  | EmptyString => true
  | String c r => p c && forallb p r
  end.

Definition first (s : string) : option ascii :=
  match s with EmptyString => None | String c _ => Some c end.

Fixpoint last (s : string) : option ascii :=
  match s with
  | EmptyString => None
  | String c EmptyString => Some c
  | String _ r => last r
  end.

(** [s.includes(sub)]. *)
Fixpoint includes (sub s : string) : bool :=
  String.prefix sub s
  || match s with
     | EmptyString => false
     | String _ r => includes sub r
     end.

(** Number-to-string conversion of a non-negative integer. *)
Definition of_N (n : N) : string := NilEmpty.string_of_uint (N.to_uint n).

End Str.

(** ** Heading slugs *)

(** [slugify], lines 38-40. *)
Definition slugify (text : string) : string :=
  Str.strip_edge_hyphens true
    (Str.collapse_nonword false (Str.toLowerCase text)).


(** ** Language tags *)

(** The values a property read on [LANG_MAP] can produce: a string of
    the table, a built-in inherited from [Object.prototype], or
    [undefined]. *)
Inductive jsval : Type :=
  | VUndefined
  | VString (s : string)
  | VFunction (name : string)
  | VObjectPrototype.

(** ToBoolean. *)
Definition truthy (v : jsval) : bool :=
  match v with
  | VUndefined => false
  | VString s => negb (Str.is_empty s)
  | VFunction _ | VObjectPrototype => true
  end.

(** ToString, as a template literal and a property key apply it.  The
    text of a built-in function is the form engines print for native
    code. *)
Definition to_string (v : jsval) : string :=
  match v with
  | VUndefined => "undefined"
  | VString s => s
  | VFunction name => "function " ++ name ++ "() { [native code] }"
  | VObjectPrototype => "[object Object]"
  end.

(** [LANG_MAP], lines 3-11: the own properties of the object literal. *)
Definition LANG_MAP : gmap string string :=
  list_to_map
    [ ("js", "javascript"); ("ts", "typescript"); ("html", "markup");
      ("xml", "markup"); ("sh", "bash"); ("shell", "bash");
      ("yml", "yaml") ].

(** An object literal inherits from [Object.prototype]; these are the
    properties a read falls back to when the key is not an own one. *)
Definition Object_prototype : gmap string jsval :=
  list_to_map
    [ ("constructor", VFunction "Object");
      ("__proto__", VObjectPrototype);
      ("hasOwnProperty", VFunction "hasOwnProperty");
      ("isPrototypeOf", VFunction "isPrototypeOf");
      ("propertyIsEnumerable", VFunction "propertyIsEnumerable");
      ("toLocaleString", VFunction "toLocaleString");
      ("toString", VFunction "toString");
      ("valueOf", VFunction "valueOf");
      ("__defineGetter__", VFunction "__defineGetter__");
      ("__defineSetter__", VFunction "__defineSetter__");
      ("__lookupGetter__", VFunction "__lookupGetter__");
      ("__lookupSetter__", VFunction "__lookupSetter__") ].

(** The read [LANG_MAP[key]]. *)
Definition LANG_MAP_get (key : string) : jsval :=
  match LANG_MAP !! key with
  | Some canonical => VString canonical
  | None => default VUndefined (Object_prototype !! key)
  end.

(** [normalizeLang], lines 13-17.  The argument is a string or absent
    ([None] for [undefined] and [null]). *)
Definition normalizeLang (lang : option string) : jsval :=
  match lang with
  | None => VString "javascript"
  | Some s =>
      if Str.is_empty s then VString "javascript"
      else
        let l := Str.trim (Str.toLowerCase s) in
        if truthy (LANG_MAP_get l) then LANG_MAP_get l else VString l
  end.

(** What the specification says of tags outside the alias table, to be
    compared with [normalizeLang]: the lower-cased, trimmed tag. *)
Definition passthrough_spec (tag : string) : jsval :=
  VString (Str.trim (Str.toLowerCase tag)).

(** ** The DOM *)

(** A reference to a node, as a JavaScript variable holds it. *)
Definition ref : Type := nat.

Inductive kind : Type :=
  | KElement (tag : string)   (* the local name, in lower case *)
  | KText (data : string).

Record node : Type := Node {
  n_kind : kind;
  n_id : string;                      (* the [id] attribute *)
  n_class : string;                   (* the [class] attribute *)
  n_attrs : list (string * string);   (* the other attributes and styles *)
  n_parent : option ref;
  n_children : list ref;
}.

(** The store: the nodes allocated so far are those below [next]. *)
Record dom : Type := Dom {
  nodes : gmap ref node;
  next : ref;
}.

(** Markup as the HTML parser hands it to [innerHTML]. *)
#[warnings="-register-all"]
Inductive html : Type :=
  | HText (data : string)
  | HElem (tag id class : string) (attrs : list (string * string))
          (children : list html).

Module DOM.

Definition get (d : dom) (r : ref) : option node :=
  if (r <? next d)%nat then nodes d !! r else None.

Definition insert_node (n : node) (d : dom) : dom :=
  Dom (<[next d := n]> (nodes d)) (S (next d)).

(** Allocation: the new node gets the next reference. *)
Definition alloc (n : node) (d : dom) : ref * dom :=
  (next d, insert_node n d).

Definition update (r : ref) (f : node -> node) (d : dom) : dom :=
  Dom (alter f r (nodes d)) (next d).

Definition with_id (v : string) (n : node) : node :=
  Node (n_kind n) v (n_class n) (n_attrs n) (n_parent n) (n_children n).
Definition with_class (v : string) (n : node) : node :=
  Node (n_kind n) (n_id n) v (n_attrs n) (n_parent n) (n_children n).
Definition with_attr (k v : string) (n : node) : node :=
  Node (n_kind n) (n_id n) (n_class n)
       ((k, v)
        :: List.filter (fun kv => negb (String.eqb (fst kv) k)) (n_attrs n))
       (n_parent n) (n_children n).
Definition with_parent (p : option ref) (n : node) : node :=
  Node (n_kind n) (n_id n) (n_class n) (n_attrs n) p (n_children n).
Definition with_children (cs : list ref) (n : node) : node :=
  Node (n_kind n) (n_id n) (n_class n) (n_attrs n) (n_parent n) cs.
Definition add_child (c : ref) (n : node) : node :=
  with_children (n_children n ++ [c]) n.
Definition drop_child (c : ref) (n : node) : node :=
  with_children (List.filter (fun x => negb (x =? c)%nat) (n_children n)) n.

(** *** Reading *)

Definition id (d : dom) (r : ref) : string :=
  match get d r with Some n => n_id n | None => "" end.

Definition className (d : dom) (r : ref) : string :=
  match get d r with Some n => n_class n | None => "" end.

Definition children (d : dom) (r : ref) : list ref :=
  match get d r with Some n => n_children n | None => [] end.

(** [node.parentElement]; [None] is [null]. *)
Definition parentElement (d : dom) (r : ref) : option ref :=
  match get d r with Some n => n_parent n | None => None end.

Definition attr (d : dom) (r : ref) (k : string) : option string :=
  match get d r with
  | Some n => snd <$> List.find (fun kv => String.eqb (fst kv) k) (n_attrs n)
  | None => None
  end.

Definition tag (d : dom) (r : ref) : option string :=
  match get d r with
  | Some n => match n_kind n with KElement t => Some t | KText _ => None end
  | None => None
  end.

(** [element.tagName]: the local name in upper case. *)
Definition tagName (d : dom) (r : ref) : string :=
  match tag d r with Some t => Str.toUpperCase t | None => "" end.

Definition has_tag (d : dom) (tags : list string) (r : ref) : bool :=
  match tag d r with
  | Some t => existsb (String.eqb t) tags
  | None => false
  end.

(** [element.classList], as an array. *)
Definition classList (d : dom) (r : ref) : list string :=
  Str.tokens (className d r).

(** Walks of the tree are bounded by the number of allocated nodes: a
    path of distinct nodes is no longer than that. *)
Fixpoint text_go (fuel : nat) (d : dom) (r : ref) : string :=
  match fuel with
  | O => ""
  | S fuel' =>
      match get d r with
      | None => ""
      | Some n =>
          match n_kind n with
          | KText data => data
          | KElement _ =>
              List.fold_right String.append ""
                (List.map (text_go fuel' d) (n_children n))
          end
      end
  end.

(** [node.textContent]: the text of the descendants, in tree order. *)
Definition textContent (d : dom) (r : ref) : string :=
  text_go (next d) d r.

Fixpoint descendants_go (fuel : nat) (d : dom) (r : ref) : list ref :=
  match fuel with
  | O => []
  | S fuel' =>
      List.flat_map (fun c => c :: descendants_go fuel' d c) (children d r)
  end.

(** The descendants of a node, in document order. *)
Definition descendants (d : dom) (r : ref) : list ref :=
  descendants_go (next d) d r.

Fixpoint has_ancestor_go (fuel : nat) (d : dom) (tags : list string)
    (r : ref) : bool :=
  match fuel with
  | O => false
  | S fuel' =>
      match parentElement d r with
      | None => false
      | Some p => has_tag d tags p || has_ancestor_go fuel' d tags p
      end
  end.

Definition has_ancestor (d : dom) (tags : list string) (r : ref) : bool :=
  has_ancestor_go (next d) d tags r.

(** [root.querySelectorAll('t1, t2, ...')] with type selectors: the
    static list of the matching descendants, in document order. *)
Definition querySelectorAll (d : dom) (root : ref) (tags : list string)
    : list ref :=
  List.filter (has_tag d tags) (descendants d root).

(** [root.querySelectorAll('outer inner')]: the descendants of [root]
    of type [inner] that have an ancestor of type [outer], anywhere in
    the document. *)
Definition querySelectorAll_within (d : dom) (root : ref)
    (outer inner : string) : list ref :=
  List.filter (fun r => has_tag d [inner] r && has_ancestor d [outer] r)
    (descendants d root).

(** The anchor links among the children of a heading. *)
Definition anchors (d : dom) (h : ref) : list ref :=
  List.filter
    (fun c => has_tag d ["a"] c && String.eqb (className d c) "docs-anchor")
    (children d h).

(** The data of a text node. *)
Definition data (d : dom) (r : ref) : option string :=
  match get d r with
  | Some n => match n_kind n with KText s => Some s | KElement _ => None end
  | None => None
  end.

(** [document.getElementById(x)]. *)
Definition getElementById (d : dom) (document : ref) (x : string)
    : option ref :=
  if Str.is_empty x then None
  else List.find (fun r => match tag d r with
                           | Some _ => String.eqb (id d r) x
                           | None => false
                           end)
         (descendants d document).

(** *** Writing *)

Definition blank (k : kind) : node := Node k "" "" [] None [].

(** [document.createElement(tag)]. *)
Definition createElement (t : string) (d : dom) : ref * dom :=
  alloc (blank (KElement t)) d.

Definition set_id (r : ref) (v : string) (d : dom) : dom :=
  update r (with_id v) d.

Definition set_className (r : ref) (v : string) (d : dom) : dom :=
  update r (with_class v) d.

Definition setAttribute (r : ref) (k v : string) (d : dom) : dom :=
  update r (with_attr k v) d.

(** Removal of a node from its parent, if it has one. *)
Definition detach (c : ref) (d : dom) : dom :=
  match parentElement d c with
  | Some p => update c (with_parent None) (update p (drop_child c) d)
  | None => d
  end.

(** [parent.appendChild(child)]. *)
Definition appendChild (p c : ref) (d : dom) : dom :=
  update c (with_parent (Some p)) (update p (add_child c) (detach c d)).

(** All children leave the node; each of them loses its parent. *)
Definition remove_children (r : ref) (d : dom) : dom :=
  update r (with_children [])
    (List.fold_right (fun c => update c (with_parent None)) d
       (children d r)).

(** The setter of [node.textContent]. *)
Definition set_textContent (r : ref) (s : string) (d : dom) : dom :=
  let d1 := remove_children r d in
  if Str.is_empty s then d1
  else
    let '(t, d2) :=
      alloc (Node (KText s) "" "" [] (Some r) []) d1 in
    update r (with_children [t]) d2.

(** Allocation of parsed markup as the last child of [p]. *)
Fixpoint build (p : ref) (h : html) (d : dom) : dom :=
  match h with
  | HText data =>
      let '(t, d1) := alloc (Node (KText data) "" "" [] (Some p) []) d in
      update p (add_child t) d1
  | HElem t i c attrs kids =>
      let '(e, d1) := alloc (Node (KElement t) i c attrs (Some p) []) d in
      List.fold_left (fun acc k => build e k acc) kids
        (update p (add_child e) d1)
  end.

(** The setter of [element.innerHTML], given the parsed markup. *)
Definition set_innerHTML (r : ref) (frag : list html) (d : dom) : dom :=
  List.fold_left (fun acc k => build r k acc) frag (remove_children r d).

(** [root.querySelector('t')] with a type selector: the first matching
    descendant in document order, [None] for [null]. *)
Definition querySelector (d : dom) (root : ref) (tags : list string)
    : option ref :=
  List.head (querySelectorAll d root tags).

(** The token set of a [classList]: the tokens of the [class]
    attribute, each once, in the order of their first occurrence. *)
Fixpoint ordered_set (ts : list string) : list string :=
  match ts with
  | [] => []
  | t :: rest =>
      t :: List.filter (fun u => negb (String.eqb u t)) (ordered_set rest)
  end.

(** What a token set is written back as: the tokens, separated by one
    space. *)
Fixpoint serialize (ts : list string) : string :=
  match ts with
  | [] => ""
  | [t] => t
  | t :: rest => t ++ " " ++ serialize rest
  end.

(** [element.classList.add(token)], for a token that is not empty and
    has no white space. *)
Definition classList_add (r : ref) (token : string) (d : dom) : dom :=
  let set := ordered_set (classList d r) in
  set_className r
    (serialize (if List.existsb (String.eqb token) set then set
                else set ++ [token]))
    d.

(** [element.classList.remove(token)], for such a token. *)
Definition classList_remove (r : ref) (token : string) (d : dom) : dom :=
  set_className r
    (serialize
       (List.filter (fun u => negb (String.eqb u token))
          (ordered_set (classList d r))))
    d.

End DOM.

(** ** The page and its collaborators *)

(** A grammar object of the highlighter; the pipeline only passes it
    on, so a name stands for it. *)
Record grammar : Type := Grammar { grammar_name : string }.

(** The highlighter object [window.Prism]. *)
Record engine : Type := Engine {
  manual : bool;
  languages : gmap string grammar;
}.

(** A settled [fetch]: [body] is what [resp.text()] resolves to, [None]
    when it rejects. *)
Record response : Type := Response {
  ok : bool;
  status : N;
  body : option string;
}.

Inductive error : Type :=
  | TypeError (what : string)
  | ImportError (url : string)
  | NetworkError (url : string)
  | BodyError
  | ConvertError.

(** What the pipeline asks of its surroundings, in program order. *)
Inductive event : Type :=
  | EFetch (url : string)
  | EImport (url : string)
  | EListen (target : ref) (type : string)
  | EObserve (target : ref)
  | ETimeout (ms : nat) (scroll_to : ref)
  | EConsoleError (e : error).

(** The external collaborators.
    - [fetch url]: the response, [None] for a rejected request.
    - [import_script url p]: the value of [window.Prism] after the
      module at [url] has run with [window.Prism = p]; [None] when the
      import rejects.
    - [marked_parse md]: the converted markup, [None] when the
      converter throws.
    - [parse_html s]: the nodes the HTML parser makes of [s].
    - [prism_highlight text g lang]: the markup of [Prism.highlight]. *)
Record external : Type := External {
  fetch : string -> option response;
  import_script : string -> option engine -> option (option engine);
  marked_parse : string -> option string;
  parse_html : string -> list html;
  prism_highlight : string -> grammar -> string -> string;
}.

(** The state of the page: the DOM, the globals the block reads and
    writes, and the requests made so far (latest last). *)
Record world : Type := World {
  w_dom : dom;
  w_prism : option engine;       (* [window.Prism] *)
  w_hlx : option string;         (* [window.hlx.codeBasePath] *)
  w_hash : string;               (* [window.location.hash] *)
  w_document : ref;
  w_trace : list event;
}.

Inductive result (A : Type) : Type :=
  | Ok (a : A)
  | Throw (e : error).
Arguments Ok {A} a.
Arguments Throw {A} e.

(** Computations over the page that may throw. *)
Definition M (A : Type) : Type := world -> result A * world.

#[global] Instance M_ret : MRet M := fun A a w => (Ok a, w).

#[global] Instance M_bind : MBind M := fun A B f m w =>
  match m w with
  | (Ok a, w1) => f a w1
  | (Throw e, w1) => (Throw e, w1)
  end.

Module Page.

Definition throw {A} (e : error) : M A := fun w => (Throw e, w).

(** [try { body } catch (err) { handler }]. *)
Definition try_catch {A} (body : M A) (handler : error -> M A) : M A :=
  fun w =>
    match body w with
    | (Ok a, w1) => (Ok a, w1)
    | (Throw e, w1) => handler e w1
    end.

Definition read {A} (f : world -> A) : M A := fun w => (Ok (f w), w).

Definition with_dom (d : dom) (w : world) : world :=
  World d (w_prism w) (w_hlx w) (w_hash w) (w_document w) (w_trace w).

Definition with_prism (p : option engine) (w : world) : world :=
  World (w_dom w) p (w_hlx w) (w_hash w) (w_document w) (w_trace w).

Definition log (ev : event) (w : world) : world :=
  World (w_dom w) (w_prism w) (w_hlx w) (w_hash w) (w_document w)
        (w_trace w ++ [ev]).

Definition emit (ev : event) : M unit := fun w => (Ok tt, log ev w).

(** A DOM getter. *)
Definition dom_read {A} (f : dom -> A) : M A := read (fun w => f (w_dom w)).

(** A DOM setter. *)
Definition dom_write (f : dom -> dom) : M unit :=
  fun w => (Ok tt, with_dom (f (w_dom w)) w).

Definition createElement (t : string) : M ref := fun w =>
  let '(r, d) := DOM.createElement t (w_dom w) in (Ok r, with_dom d w).

(** [list.forEach(callback)]: a throwing callback ends the iteration. *)
Fixpoint forEach {A} (l : list A) (callback : A -> M unit) : M unit :=
  match l with
  | [] => mret tt
  | x :: rest => callback x;; forEach rest callback
  end.

(** The template part [${window.hlx.codeBasePath}]: a [TypeError] when
    [window.hlx] is missing. *)
Definition codeBasePath : M string := fun w =>
  match w_hlx w with
  | Some base => (Ok base, w)
  | None => (Throw (TypeError "window.hlx is undefined"), w)
  end.

End Page.

(** ** The pipeline *)

Section Pipeline.
Context (X : external).
Import Page.

(** A dynamic [import(url)]: the module runs against [window.Prism]. *)
Definition run_module (url : string) : M unit := fun w =>
  match import_script X url (w_prism w) with
  | Some p => (Ok tt, with_prism p w)
  | None => (Throw (ImportError url), w)
  end.

Definition import (url : string) : M unit :=
  emit (EImport url);; run_module url.

(** [await Promise.all(urls.map((u) => import(u)))]: every import is
    started, in the order of the list, and the modules are taken to
    complete in that order; the first rejection is the one thrown. *)
Fixpoint import_all (urls : list string) : M unit :=
  match urls with
  | [] => mret tt
  | u :: rest =>
      fun w =>
        match import u w with
        | (Ok _, w1) => import_all rest w1
        | (Throw e, w1) => (Throw e, snd (import_all rest w1))
        end
  end.

Definition grammars : list string :=
  [ "prism-markup.min.js"; "prism-css.min.js"; "prism-javascript.min.js";
    "prism-typescript.min.js"; "prism-bash.min.js"; "prism-json.min.js";
    "prism-yaml.min.js" ].

(** [window.Prism.manual = true]. *)
Definition set_manual : M unit := fun w =>
  match w_prism w with
  | Some e => (Ok tt, with_prism (Some (Engine true (languages e))) w)
  | None => (Throw (TypeError "window.Prism is undefined"), w)
  end.

(** [loadPrism], lines 19-36.  The result is [window.Prism] as read by
    the [return]; [None] is [undefined]. *)
Definition loadPrism : M (option engine) :=
  loaded ← read w_prism;
  match loaded with
  | Some e => mret (Some e)
  | None =>
      path ← codeBasePath;
      let base := path ++ "/scripts/lib" in
      import (base ++ "/prism.min.js");;
      set_manual;;
      import_all (List.map (fun g => base ++ "/" ++ g) grammars);;
      read w_prism
  end.

(** The language of a block, lines 44-45: the first class that starts
    with [language-], without that prefix, normalized. *)
Definition blockLang (d : dom) (code : ref) : jsval :=
  let cls := List.find (Str.startsWith "language-") (DOM.classList d code) in
  normalizeLang
    (Some match cls with
          | Some c => Str.replace_first "language-" "" c
          | None => ""
          end).

(** The callback of [highlightCodeBlocks], lines 44-51. *)
Definition highlightBlock (Prism : option engine) (code : ref) : M unit :=
  lang ← dom_read (fun d => blockLang d code);
  langs ← match Prism with
          | Some e => mret (languages e)
          | None => throw (TypeError "Prism is undefined")
          end;
  match langs !! to_string lang with
  | Some g =>
      text ← dom_read (fun d => DOM.textContent d code);
      dom_write
        (DOM.set_innerHTML code
           (parse_html X (prism_highlight X text g (to_string lang))))
  | None => mret tt
  end;;
  dom_write (DOM.set_className code ("language-" ++ to_string lang));;
  parent ← dom_read (fun d => DOM.parentElement d code);
  match parent with
  | Some p =>
      dom_write (DOM.set_className p ("language-" ++ to_string lang))
  | None => throw (TypeError "code.parentElement is null")
  end.

(** [highlightCodeBlocks], lines 42-53. *)
Definition highlightCodeBlocks (container : ref) (Prism : option engine)
    : M unit :=
  blocks ← dom_read
             (fun d => DOM.querySelectorAll_within d container "pre" "code");
  forEach blocks (highlightBlock Prism).

(** The callback of [addCopyButtons], lines 57-73.  The click
    listener is registered, not run. *)
Definition addCopyButton (pre : ref) : M unit :=
  btn ← createElement "button";
  dom_write (DOM.set_className btn "docs-copy-btn");;
  dom_write (DOM.set_textContent btn "Copy");;
  dom_write (DOM.setAttribute btn "aria-label" "Copy code to clipboard");;
  emit (EListen btn "click");;
  dom_write (DOM.setAttribute pre "style.position" "relative");;
  dom_write (DOM.appendChild pre btn).

(** [addCopyButtons], lines 55-75. *)
Definition addCopyButtons (container : ref) : M unit :=
  pres ← dom_read (fun d => DOM.querySelectorAll d container ["pre"]);
  forEach pres addCopyButton.

(** The callback of [addHeadingAnchors], lines 79-85. *)
Definition addHeadingAnchor (h : ref) : M unit :=
  current ← dom_read (fun d => DOM.id d h);
  (if Str.is_empty current
   then text ← dom_read (fun d => DOM.textContent d h);
        dom_write (DOM.set_id h (slugify text))
   else mret tt);;
  link ← createElement "a";
  dom_write (DOM.set_className link "docs-anchor");;
  target ← dom_read (fun d => DOM.id d h);
  dom_write (DOM.setAttribute link "href" ("#" ++ target));;
  dom_write (DOM.setAttribute link "aria-hidden" "true");;
  dom_write (DOM.set_textContent link "#");;
  dom_write (DOM.appendChild h link).

(** [addHeadingAnchors], lines 77-87. *)
Definition addHeadingAnchors (container : ref) : M unit :=
  hs ← dom_read
         (fun d =>
            DOM.querySelectorAll d container
              ["h1"; "h2"; "h3"; "h4"; "h5"; "h6"]);
  forEach hs addHeadingAnchor.

(** The callback that makes one entry of the list, lines 102-113. *)
Definition addTocEntry (list : ref) (h : ref) : M unit :=
  li ← createElement "li";
  name ← dom_read (fun d => DOM.tagName d h);
  dom_write
    (DOM.set_className li
       (if String.eqb name "H3" then "docs-toc-h3" else ""));;
  a ← createElement "a";
  target ← dom_read (fun d => DOM.id d h);
  dom_write (DOM.setAttribute a "href" ("#" ++ target));;
  text ← dom_read (fun d => DOM.textContent d h);
  dom_write
    (DOM.set_textContent a (Str.trim (Str.strip_trailing_hash text)));;
  emit (EListen a "click");;
  dom_write (DOM.appendChild li a);;
  dom_write (DOM.appendChild list li).

(** [buildTOC], lines 89-133; [None] is the [null] returned when
    there are fewer than three headings.  The observer is created
    and told which headings to watch; its callback runs later. *)
Definition buildTOC (container : ref) : M (option ref) :=
  headings ← dom_read
               (fun d => DOM.querySelectorAll d container ["h2"; "h3"]);
  if (length headings <? 3)%nat then mret None
  else
    toc ← createElement "nav";
    dom_write (DOM.set_className toc "docs-toc");;
    title ← createElement "div";
    dom_write (DOM.set_className title "docs-toc-title");;
    dom_write (DOM.set_textContent title "On this page");;
    dom_write (DOM.appendChild toc title);;
    list ← createElement "ul";
    forEach headings (addTocEntry list);;
    dom_write (DOM.appendChild toc list);;
    forEach headings (fun h => emit (EObserve h));;
    mret (Some toc).

(** [await Promise.all([fetch(url), loadPrism()])]: the request is
    issued, the loader runs, and both must have succeeded. *)
Definition fetch_and_load (slug : string)
    : M (response * option engine) :=
  path ← codeBasePath;
  let url := path ++ "/docs/" ++ slug ++ ".md" in
  emit (EFetch url);;
  Prism ← loadPrism;
  match fetch X url with
  | Some resp => mret (resp, Prism)
  | None => throw (NetworkError url)
  end.

(** The body of the [try], lines 155-182. *)
Definition render (slug : string) (wrapper content loading : ref)
    : M unit :=
  '(resp, Prism) ← fetch_and_load slug;
  if negb (ok resp) then
    dom_write
      (DOM.set_textContent loading
         ("Failed to load documentation (" ++ Str.of_N (status resp) ++ ")"))
  else
    md ← match body resp with
         | Some md => mret md
         | None => throw BodyError
         end;
    markup ← match marked_parse X md with
             | Some markup => mret markup
             | None => throw ConvertError
             end;
    dom_write (DOM.set_innerHTML content (parse_html X markup));;
    highlightCodeBlocks content Prism;;
    addCopyButtons content;;
    addHeadingAnchors content;;
    toc ← buildTOC content;
    match toc with
    | Some t => dom_write (DOM.appendChild wrapper t)
    | None => mret tt
    end;;
    hash ← read w_hash;
    if Str.is_empty hash then mret tt
    else
      target ← read (fun w =>
                       DOM.getElementById (w_dom w) (w_document w)
                         (Str.drop 1 hash));
      match target with
      | Some t => emit (ETimeout 100 t)
      | None => mret tt
      end.

(** The layout put in place of the slug, lines 139-152: a wrapper
    holding the content region, holding the loading notice. *)
Definition scaffold (block : ref) : M (ref * ref * ref) :=
  dom_write (DOM.set_textContent block "");;
  wrapper ← createElement "div";
  dom_write (DOM.set_className wrapper "docs-layout");;
  content ← createElement "article";
  dom_write (DOM.set_className content "docs-content");;
  loading ← createElement "div";
  dom_write (DOM.set_className loading "docs-loading");;
  dom_write (DOM.set_textContent loading "Loading documentation...");;
  dom_write (DOM.appendChild content loading);;
  dom_write (DOM.appendChild wrapper content);;
  dom_write (DOM.appendChild block wrapper);;
  mret (wrapper, content, loading).

(** The [catch] clause, lines 183-187. *)
Definition report_failure (loading : ref) (err : error) : M unit :=
  dom_write (DOM.set_textContent loading "Failed to load documentation");;
  emit (EConsoleError err).

(** [decorate], lines 135-188. *)
Definition decorate (block : ref) : M unit :=
  text ← dom_read (fun d => DOM.textContent d block);
  let slug := Str.trim text in
  if Str.is_empty slug then mret tt
  else
    '(wrapper, content, loading) ← scaffold block;
    try_catch (render slug wrapper content loading)
      (report_failure loading).

End Pipeline.

(** ** The listeners

    What the click listeners that [addCopyButtons] and [buildTOC]
    register do when the browser calls them, on the page as it is
    then. *)

Module Listeners.

(** What a listener asks of the browser. *)
Inductive action : Type :=
  | APreventDefault
  | AScrollIntoView (target : ref)
  | AReplaceState (url : string).

(** The listener of a copy button, lines 62-63: the text handed to
    [navigator.clipboard.writeText], the text of the first [code]
    element of the [pre]; a [TypeError] when there is none. *)
Definition copyText (pre : ref) (d : dom) : result string :=
  match DOM.querySelector d pre ["code"] with
  | Some code => Ok (DOM.textContent d code)
  | None => Throw (TypeError "code is null")
  end.

(** The same listener once the text is written, lines 64-65; the
    timer it then sets runs [resetButton] 2000 ms later. *)
Definition markCopied (btn : ref) (d : dom) : dom :=
  DOM.classList_add btn "copied" (DOM.set_textContent btn "Copied!" d).

(** The callback of that timer, lines 67-68. *)
Definition resetButton (btn : ref) (d : dom) : dom :=
  DOM.classList_remove btn "copied" (DOM.set_textContent btn "Copy" d).

(** The listener of the entry of heading [h] in the table of contents,
    lines 107-111.  The id of the heading is read when the entry is
    clicked. *)
Definition tocClick (h : ref) (w : world) : list action :=
  let target := DOM.id (w_dom w) h in
  APreventDefault
  :: match DOM.getElementById (w_dom w) (w_document w) target with
     | Some t => [AScrollIntoView t]
     | None => []
     end
  ++ [AReplaceState ("#" ++ target)].

End Listeners.

(** ** A sample page

    Concrete collaborators and documents on which the pipeline is run
    in the examples below. *)

Module Sample.

(** The modules of [scripts/lib], with the code base path [/app]: the
    engine module installs an engine without grammars, a grammar module
    registers its grammar with the engine that is there. *)
Definition grammar_modules : list (string * string) :=
  [ ("/app/scripts/lib/prism-markup.min.js", "markup");
    ("/app/scripts/lib/prism-css.min.js", "css");
    ("/app/scripts/lib/prism-javascript.min.js", "javascript");
    ("/app/scripts/lib/prism-typescript.min.js", "typescript");
    ("/app/scripts/lib/prism-bash.min.js", "bash");
    ("/app/scripts/lib/prism-json.min.js", "json");
    ("/app/scripts/lib/prism-yaml.min.js", "yaml") ].

Definition modules (url : string) (p : option engine)
    : option (option engine) :=
  if String.eqb url "/app/scripts/lib/prism.min.js"
  then Some (Some (Engine false ∅))
  else
    match List.find (fun m => String.eqb (fst m) url) grammar_modules, p with
    | Some (_, name), Some e =>
        Some (Some (Engine (manual e)
                      (<[name := Grammar name]> (languages e))))
    | _, _ => None
    end.

(** A site where the engine module cannot be loaded. *)
Definition no_modules (url : string) (p : option engine)
    : option (option engine) := None.

Definition pages (url : string) : option response :=
  if String.eqb url "/app/docs/guide.md"
  then Some (Response true 200 (Some "guide"))
  else if String.eqb url "/app/docs/setup.md"
  then Some (Response true 200 (Some "setup"))
  else if String.eqb url "/app/docs/nested.md"
  then Some (Response true 200 (Some "nested"))
  else Some (Response false 404 (Some "Not Found")).

Definition heading (level text : string) : html :=
  HElem level "" "" [] [HText text].

(** The converter is the identity on these documents; the parser knows
    their markup. *)
Definition parse (s : string) : list html :=
  if String.eqb s "guide" then
    [ heading "h1" "Guide";
      heading "h2" "Install";
      HElem "pre" "" "" []
        [HElem "code" "" "language-js" [] [HText "let x = 1;"]];
      heading "h2" "Usage";
      heading "h3" "Options" ]
  else if String.eqb s "setup" then
    [ heading "h2" "Setup"; heading "h2" "Setup" ]
  else if String.eqb s "nested" then
    [ HElem "pre" "" "" []
        [HElem "code" "" "language-js" []
           [HText "a "; HElem "code" "" "" [] [HText "b"]]];
      HElem "pre" "" "" []
        [HElem "code" "" "language-js" [] [HText "let y;"]] ]
  else if String.eqb s "<hl>let x = 1;" then
    [ HElem "span" "" "token keyword" [] [HText "let"]; HText " x = 1;" ]
  else [HText s].

Definition site : external :=
  External pages modules Some parse (fun text _ _ => "<hl>" ++ text).

Definition broken_site : external :=
  External pages no_modules Some parse (fun text _ _ => "<hl>" ++ text).

(** A document node 0 holding one block 1. *)
Definition page_dom (slug : string) : dom :=
  DOM.build 0 (HElem "div" "" "docs-renderer" [] [HText slug])
    (snd (DOM.createElement "html" (Dom ∅ 0))).

Definition block : ref := 1.

Definition page (slug : string) : world :=
  World (page_dom slug) None (Some "/app") "" 0 [].

(** The content region 1 of a document 0, holding the markup the
    converter made of [md], before any augmentation. *)
Definition content : ref := 1.

Definition rendered_dom (md : string) : dom :=
  DOM.set_innerHTML content (parse md)
    (DOM.build 0 (HElem "article" "" "docs-content" [] [])
       (snd (DOM.createElement "html" (Dom ∅ 0)))).

(** The engine once every module of [site] has run. *)
Definition loaded_engine : engine :=
  Engine true
    (list_to_map
       (List.map (fun m => (snd m, Grammar (snd m))) grammar_modules)).

Definition rendered (md : string) : world :=
  World (rendered_dom md) (Some loaded_engine) (Some "/app") "" 0 [].

End Sample.

(** ** Notions used in the proofs *)

Module Aux.
Import Str DOM.

(** Characters a slug is made of: lower-case word characters and the
    hyphen. *)
Definition slug_char (c : ascii) : bool :=
  is_digit c || is_lower c || Ascii.eqb c "_" || Ascii.eqb c "-".

(** No two hyphens in a row; with [prev_hyphen] set, no hyphen at the
    front either. *)
Fixpoint separated (prev_hyphen : bool) (s : string) : bool :=
  match s with
  | EmptyString => true
  | String c r =>
      if Ascii.eqb c "-" then negb prev_hyphen && separated true r
      else separated false r
  end.

(** Two states of the page with the same globals. *)
Definition same_globals (w1 w2 : world) : Prop :=
  w_prism w1 = w_prism w2 /\ w_hlx w1 = w_hlx w2.

(** A computation that depends on the globals only and leaves the DOM
    alone. *)
Definition globals_only {A} (m : M A) : Prop :=
  forall w1 w2, same_globals w1 w2 ->
    fst (m w1) = fst (m w2)
    /\ same_globals (snd (m w1)) (snd (m w2))
    /\ w_dom (snd (m w1)) = w_dom w1.

(** The DOM part of [scaffold], as a function of the store. *)
Definition scaffold_dom (block : ref) (d0 : dom) : ref * ref * ref * dom :=
  let d1 := DOM.set_textContent block "" d0 in
  let '(wrapper, d2) := DOM.createElement "div" d1 in
  let d3 := DOM.set_className wrapper "docs-layout" d2 in
  let '(content, d4) := DOM.createElement "article" d3 in
  let d5 := DOM.set_className content "docs-content" d4 in
  let '(loading, d6) := DOM.createElement "div" d5 in
  let d7 := DOM.set_className loading "docs-loading" d6 in
  let d8 := DOM.set_textContent loading "Loading documentation..." d7 in
  let d9 := DOM.appendChild content loading d8 in
  let d10 := DOM.appendChild wrapper content d9 in
  (wrapper, content, loading, DOM.appendChild block wrapper d10).

(** The class of the list item made for heading [h]. *)
Definition toc_class (d : dom) (h : ref) : string :=
  if String.eqb (tagName d h) "H3" then "docs-toc-h3" else "".

(** The DOM part of [addTocEntry], as a function of the store. *)
Definition toc_entry_dom (list h : ref) (d : dom) : dom :=
  let '(li, d1) := DOM.createElement "li" d in
  let d2 := set_className li (toc_class d1 h) d1 in
  let '(a, d3) := DOM.createElement "a" d2 in
  let d4 := setAttribute a "href" ("#" ++ DOM.id d3 h) d3 in
  let d5 :=
    set_textContent a
      (Str.trim (Str.strip_trailing_hash (textContent d4 h))) d4 in
  let d6 := appendChild li a d5 in
  appendChild list li d6.

(** The nodes of the entry made for heading [h]: an item [li] of the
    list, allocated at [lo] or later, holding a link to the id that [h]
    has in [d0]. *)
Definition entry_node (list lo : ref) (d0 d' : dom) (li h : ref) : Prop :=
  h < list /\ lo <= li
  /\ exists a kids,
      get d' li
      = Some (Node (KElement "li") "" (toc_class d0 h) [] (Some list) [a])
      /\ get d' a
         = Some (Node (KElement "a") "" "" [("href", "#" ++ DOM.id d0 h)]
                   (Some li) kids).

(** In [d'], [li] is the entry of heading [h] of [d0]: a list item,
    marked as sub-level exactly for an [h3], that holds one link to the
    id of [h]. *)
Definition toc_entry (d0 d' : dom) (li h : ref) : Prop :=
  DOM.tag d' li = Some "li"
  /\ DOM.className d' li = toc_class d0 h
  /\ exists a,
      DOM.children d' li = [a]
      /\ DOM.tag d' a = Some "a"
      /\ DOM.attr d' a "href" = Some ("#" ++ DOM.id d0 h).

(** The DOM part of [buildTOC] up to the creation of the list: the
    [nav], its title and the empty list. *)
Definition toc_frame_dom (d : dom) : ref * ref * ref * dom :=
  let '(toc, d1) := DOM.createElement "nav" d in
  let d2 := set_className toc "docs-toc" d1 in
  let '(title, d3) := DOM.createElement "div" d2 in
  let d4 := set_className title "docs-toc-title" d3 in
  let d5 := set_textContent title "On this page" d4 in
  let d6 := appendChild toc title d5 in
  let '(list, d7) := DOM.createElement "ul" d6 in
  (toc, title, list, d7).

(** The DOM part of [addHeadingAnchor], as a function of the store. *)
Definition heading_dom (h : ref) (d : dom) : dom :=
  let d1 :=
    if Str.is_empty (DOM.id d h)
    then set_id h (slugify (textContent d h)) d else d in
  let '(link, d2) := DOM.createElement "a" d1 in
  let d3 := set_className link "docs-anchor" d2 in
  let d4 := setAttribute link "href" ("#" ++ DOM.id d3 h) d3 in
  let d5 := setAttribute link "aria-hidden" "true" d4 in
  let d6 := set_textContent link "#" d5 in
  appendChild h link d6.

(** The id a heading has after a visit. *)
Definition anchor_id (d : dom) (h : ref) : string :=
  if Str.is_empty (DOM.id d h) then slugify (textContent d h) else DOM.id d h.

(** An anchor link of heading [h] pointing at [target]. *)
Definition anchor_of (d : dom) (h : ref) (target : string) (l : ref) : Prop :=
  exists t,
    get d l
    = Some (Node (KElement "a") "" "docs-anchor"
              [("aria-hidden", "true"); ("href", "#" ++ target)]
              (Some h) [t]).

(** References follow allocation: a child is allocated after its
    parent.  Every store the pipeline builds has this shape, since
    [createElement], [textContent] and [innerHTML] put new nodes under
    older ones. *)
Definition ordered (d : dom) : Prop :=
  forall r n, get d r = Some n ->
    Forall (fun c => r < c) (n_children n)
    /\ (forall p, n_parent n = Some p -> p < r).

(** The check of one node. *)
Definition node_ordered (r : ref) (n : node) : bool :=
  List.forallb (fun c => (r <? c)%nat) (n_children n)
  && match n_parent n with Some p => (p <? r)%nat | None => true end.

(** The same, as a check over the allocated references. *)
Definition orderedb (d : dom) : bool :=
  List.forallb
    (fun r => match get d r with
              | Some n => node_ordered r n
              | None => true
              end)
    (seq 0 (next d)).

(** What a node keeps when its children change. *)
Definition keeps_shell (o o' : option node) : Prop :=
  match o, o' with
  | Some n, Some n' =>
      n_kind n' = n_kind n /\ n_id n' = n_id n /\ n_class n' = n_class n
      /\ n_parent n' = n_parent n
  | None, None => True
  | _, _ => False
  end.

(** Allocating markup under [p] leaves the nodes that were there as
    they are, except for the children of [p]. *)
Definition build_old (h : html) : Prop :=
  forall p d r, r < next d ->
    next d <= next (build p h d)
    /\ (r <> p -> get (build p h d) r = get d r)
    /\ keeps_shell (get d r) (get (build p h d) r).

(** An allocated node stays allocated. *)
Definition build_alloc (h : html) : Prop :=
  forall p d r, is_Some (get d r) -> is_Some (get (build p h d) r).

(** The store a visit of [highlightBlock] leaves when the block has a
    parent. *)
Definition highlight_dom (X : external) (e : engine) (code p : ref)
    (d : dom) : dom :=
  let lang := to_string (blockLang d code) in
  let d1 :=
    match languages e !! lang with
    | Some g =>
        set_innerHTML code
          (parse_html X (prism_highlight X (textContent d code) g lang)) d
    | None => d
    end in
  set_className p ("language-" ++ lang)
    (set_className code ("language-" ++ lang) d1).

(** What [trimStart] leaves: no white space in front. *)
Definition starts_clean (s : string) : bool :=
  match s with EmptyString => true | String c _ => negb (is_space c) end.

(** A computation that, started in a state where [I] holds, ends in
    one where [I] holds and has added to the list of requests only
    requests that satisfy [P], whether it returns or throws. *)
Definition emits {A} (I : world -> Prop) (P : event -> Prop) (m : M A)
    : Prop :=
  forall w, I w ->
    I (snd (m w))
    /\ exists evs,
        w_trace (snd (m w)) = (w_trace w ++ evs)%list /\ Forall P evs.

(** A property of the globals that neither a change of the DOM nor a
    new request affects. *)
Definition steady (I : world -> Prop) : Prop :=
  forall w, I w ->
    (forall d, I (Page.with_dom d w)) /\ (forall ev, I (Page.log ev w)).

(** The DOM part of [addCopyButton], as a function of the store. *)
Definition button_dom (pre : ref) (d : dom) : dom :=
  let '(btn, d1) := DOM.createElement "button" d in
  let d2 := set_className btn "docs-copy-btn" d1 in
  let d3 := set_textContent btn "Copy" d2 in
  let d4 := setAttribute btn "aria-label" "Copy code to clipboard" d3 in
  let d5 := setAttribute pre "style.position" "relative" d4 in
  appendChild pre btn d5.

(** What a loop needs of its callback: on an allocated node it
    returns, allocates, and leaves the other nodes that were there as
    they are. *)
Definition local_visit (callback : ref -> M unit) : Prop :=
  forall h w, is_Some (get (w_dom w) h) ->
    exists w1,
      callback h w = (Ok tt, w1)
      /\ next (w_dom w) <= next (w_dom w1)
      /\ (forall r, r < next (w_dom w) -> r <> h ->
          get (w_dom w1) r = get (w_dom w) r)
      /\ is_Some (get (w_dom w1) h).

(** No dangling child: the children of an allocated node are
    allocated.  Like [ordered], this holds of every store the pipeline
    builds. *)
Definition closed (d : dom) : Prop :=
  forall r n, get d r = Some n -> Forall (fun c => c < next d) (n_children n).

(** The same, as a check over the allocated references. *)
Definition closedb (d : dom) : bool :=
  List.forallb
    (fun r => match get d r with
              | Some n =>
                  List.forallb (fun c => (c <? next d)%nat) (n_children n)
              | None => true
              end)
    (seq 0 (next d)).

(** In [d'], [li] is an entry of [list] whose link carries the text
    [label]: one text node, or none when the label is empty. *)
Definition labelled_entry (d' : dom) (list li : ref) (label : string)
    : Prop :=
  li <> list
  /\ exists a kids,
      a <> list
      /\ (exists cls, get d' li
            = Some (Node (KElement "li") "" cls [] (Some list) [a]))
      /\ (exists attrs, get d' a
            = Some (Node (KElement "a") "" "" attrs (Some li) kids))
      /\ match label with
         | EmptyString => kids = []
         | _ => exists t, kids = [t] /\ t <> list
                  /\ get d' t = Some (Node (KText label) "" "" [] (Some a) [])
         end.

(** The nodes at or above [lo] and the node [root] below it form a
    part of the store that is closed under the links: the children of
    [root] and of the nodes of the part are in the part, and the parent
    of a node of the part is in the part or is [root]. *)
Definition region (lo root : ref) (d : dom) : Prop :=
  root < lo /\ lo <= next d
  /\ (forall r c, lo <= r \/ r = root -> c ∈ children d r -> lo <= c)
  /\ (forall r p, lo <= r -> parentElement d r = Some p ->
      lo <= p \/ p = root).

(** With respect to a store [b]: the nodes below [lo] other than
    [root] are what they are in [b], and [root] has the tag and the
    parent it has in [b]. *)
Definition kept (lo root : ref) (b d : dom) : Prop :=
  (forall r, r < lo -> r <> root -> get d r = get b r)
  /\ tag d root = tag b root
  /\ parentElement d root = parentElement b root.

Definition confined (lo root : ref) (b d : dom) : Prop :=
  region lo root d /\ kept lo root b d.

(** A change of a node that leaves its kind alone, keeps its children
    in the part, and keeps its parent (for [root]) or has it in the
    part. *)
Definition tame (lo root r : ref) (f : node -> node) : Prop :=
  forall n,
    n_kind (f n) = n_kind n
    /\ (Forall (fun c => lo <= c) (n_children n) ->
        Forall (fun c => lo <= c) (n_children (f n)))
    /\ (r = root -> n_parent (f n) = n_parent n)
    /\ (forall p, n_parent (f n) = Some p ->
        n_parent n = Some p \/ lo <= p \/ p = root).

(** A computation that keeps the store confined, whether it returns or
    throws, and whose result satisfies [Q]. *)
Definition within (lo root : ref) (b : dom) {A} (Q : A -> Prop) (m : M A)
    : Prop :=
  forall w, confined lo root b (w_dom w) ->
    confined lo root b (w_dom (snd (m w)))
    /\ (forall a, fst (m w) = Ok a -> Q a).

(** Tokens as [classList] has them: not empty, without white space. *)
Definition is_token (t : string) : bool :=
  negb (is_empty t) && forallb (fun c => negb (is_ascii_ws c)) t.

(** The store [d'] is [d] with buttons added: the nodes of [d] keep
    their tag and their children, with new nodes after them; a new node
    is a button or a text, and its children are new. *)
Definition grown (d d' : dom) : Prop :=
  next d <= next d'
  /\ (forall r, r < next d ->
      tag d' r = tag d r
      /\ exists extra,
          children d' r = (children d r ++ extra)%list
          /\ Forall (fun c => next d <= c) extra)
  /\ (forall r, next d <= r ->
      (tag d' r = Some "button" \/ tag d' r = None)
      /\ Forall (fun c => next d <= c) (children d' r)).

(** The requests [out] has added to those of [w] hold no timer, or end
    with the timer of the scroll to the element that the fragment names
    in the page as [out] leaves it. *)
Definition scrolls_last (w : world) (out : result unit * world) : Prop :=
  (exists evs,
     w_trace (snd out) = (w_trace w ++ evs)%list
     /\ Forall (fun ev => forall ms t, ev <> ETimeout ms t) evs)
  \/ (exists evs t,
        fst out = Ok tt
        /\ w_trace (snd out) = (w_trace w ++ evs ++ [ETimeout 100 t])%list
        /\ Forall (fun ev => forall ms t, ev <> ETimeout ms t) evs
        /\ Str.is_empty (w_hash (snd out)) = false
        /\ DOM.getElementById (w_dom (snd out)) (w_document (snd out))
             (Str.drop 1 (w_hash (snd out))) = Some t).

(** The requests of [out] are those of [w] and more; and when [out] is
    a normal return and the fragment names an element of the page as
    [out] leaves it, the last of them is the timer of the scroll to that
    element. *)
Definition scrolls_if_found (w : world) (out : result unit * world)
    : Prop :=
  (exists evs, w_trace (snd out) = (w_trace w ++ evs)%list)
  /\ (fst out = Ok tt ->
      Str.is_empty (w_hash (snd out)) = false ->
      forall t,
        DOM.getElementById (w_dom (snd out)) (w_document (snd out))
          (Str.drop 1 (w_hash (snd out))) = Some t ->
        exists evs,
          w_trace (snd out) = (w_trace w ++ evs ++ [ETimeout 100 t])%list).

End Aux.

(* ================================================================== *)
(** * Properties *)

(** ** Facts about characters and strings *)

Module StrFacts.
Import Str Aux.

Ltac each_char c :=
  destruct c as [[] [] [] [] [] [] [] []]; vm_compute;
  try reflexivity; try discriminate; intros; try discriminate; auto.

Lemma word_not_hyphen c : is_word c = true -> Ascii.eqb c "-" = false.
Proof. each_char c. Qed.

Lemma lower_word_is_slug_char c :
  is_word (lower_char c) = true -> slug_char (lower_char c) = true.
Proof. each_char c. Qed.

Lemma slug_char_lower c : slug_char c = true -> lower_char c = c.
Proof. each_char c. Qed.

Lemma slug_char_word c :
  slug_char c = true -> is_word c = negb (Ascii.eqb c "-").
Proof. each_char c. Qed.

Lemma slug_char_allowed c :
  slug_char c = true -> is_word c || Ascii.eqb c "-" = true.
Proof. each_char c. Qed.

Lemma hyphen_slug_char : slug_char "-" = true.
Proof. reflexivity. Qed.

Lemma forallb_impl (p q : ascii -> bool) s :
  (forall c, p c = true -> q c = true) ->
  forallb p s = true -> forallb q s = true.
Proof.
  intros Hpq. induction s as [|c r IH]; simpl; [done|].
  intros [Hc Hr]%andb_prop. rewrite (Hpq _ Hc), (IH Hr). reflexivity.
Qed.

Lemma toLowerCase_fixed s :
  forallb slug_char s = true -> toLowerCase s = s.
Proof.
  induction s as [|c r IH]; simpl; [done|].
  intros [Hc Hr]%andb_prop.
  unfold toLowerCase in *. simpl. rewrite (slug_char_lower _ Hc), (IH Hr).
  reflexivity.
Qed.

Lemma separated_weaken s : separated true s = true -> separated false s = true.
Proof.
  destruct s as [|c r]; simpl; [done|].
  destruct (Ascii.eqb c "-"); simpl; [discriminate | done].
Qed.

Lemma separated_tail b c r :
  separated b (String c r) = true -> separated false r = true.
Proof.
  simpl. destruct (Ascii.eqb c "-"); [|done].
  intros [_ H]%andb_prop. by apply separated_weaken.
Qed.

(** *** The first replacement *)

Lemma collapse_separated b s :
  separated b (collapse_nonword b s) = true.
Proof.
  revert b. induction s as [|c r IH]; intros b; simpl; [done|].
  destruct (is_word c) eqn:Hw.
  - simpl. rewrite (word_not_hyphen _ Hw). apply IH.
  - destruct b; simpl; [apply IH|]. apply IH.
Qed.

Lemma collapse_slug_chars b s :
  forallb slug_char (collapse_nonword b (toLowerCase s)) = true.
Proof.
  revert b. induction s as [|c r IH]; intros b; [done|].
  unfold toLowerCase in *. simpl.
  destruct (is_word (lower_char c)) eqn:Hw.
  - simpl. rewrite (lower_word_is_slug_char _ Hw). apply IH.
  - destruct b; simpl; apply IH.
Qed.

Lemma collapse_fixed b s :
  forallb slug_char s = true -> separated b s = true ->
  collapse_nonword b s = s.
Proof.
  revert b. induction s as [|c r IH]; intros b; simpl; [done|].
  intros [Hc Hr]%andb_prop. rewrite (slug_char_word _ Hc).
  destruct (Ascii.eqb_spec c "-") as [->|Hne]; simpl.
  - intros [Hb Hs]%andb_prop. destruct b; [discriminate|].
    by rewrite (IH true Hr Hs).
  - intros Hs. by rewrite (IH false Hr Hs).
Qed.

(** *** The second replacement *)

Lemma strip_forallb p b s :
  forallb p s = true -> forallb p (strip_edge_hyphens b s) = true.
Proof.
  revert b. induction s as [|c r IH]; intros b; simpl; [done|].
  intros [Hc Hr]%andb_prop.
  destruct (Ascii.eqb c "-" && (b || is_empty r)); simpl.
  - by apply IH.
  - rewrite Hc. by apply IH.
Qed.

Lemma strip_false_empty s :
  strip_edge_hyphens false s = "" -> s = "" \/ s = "-".
Proof.
  destruct s as [|c r]; simpl; [by left|].
  destruct (Ascii.eqb_spec c "-") as [->|Hne]; simpl; [|discriminate].
  destruct r; simpl; [by right | discriminate].
Qed.

Lemma strip_false_separated p s :
  separated p s = true -> separated p (strip_edge_hyphens false s) = true.
Proof.
  revert p. induction s as [|c r IH]; intros p; simpl; [done|].
  destruct (Ascii.eqb_spec c "-") as [->|Hne]; simpl.
  - intros [Hp Hs]%andb_prop. destruct r as [|c' r']; [done|].
    cbn [is_empty separated]. rewrite Ascii.eqb_refl, Hp. simpl.
    by apply (IH true).
  - intros Hs. simpl. destruct (Ascii.eqb_spec c "-"); [done|].
    by apply (IH false).
Qed.

Lemma strip_true_separated s :
  separated false s = true ->
  separated true (strip_edge_hyphens true s) = true.
Proof.
  destruct s as [|c r]; [done|].
  cbn [strip_edge_hyphens separated orb].
  destruct (Ascii.eqb_spec c "-") as [->|Hne]; simpl.
  - intros Hs. by apply strip_false_separated.
  - intros Hs. destruct (Ascii.eqb_spec c "-"); [done|].
    by apply (strip_false_separated false).
Qed.

Lemma separated_true_first s :
  separated true s = true -> first s <> Some "-"%char.
Proof.
  destruct s as [|c r]; simpl; [done|].
  destruct (Ascii.eqb_spec c "-") as [->|Hne]; simpl; [done|].
  intros _ [=]. done.
Qed.

Lemma last_cons c r :
  last (String c r) = match r with EmptyString => Some c | _ => last r end.
Proof. by destruct r. Qed.

Lemma strip_last b s :
  separated false s = true ->
  last (strip_edge_hyphens b s) <> Some "-"%char.
Proof.
  revert b. induction s as [|c r IH]; intros b Hs; [done|].
  pose proof (separated_tail _ _ _ Hs) as Hr.
  cbn [strip_edge_hyphens].
  destruct (Ascii.eqb c "-" && (b || is_empty r)) eqn:Hdrop; [by apply IH|].
  rewrite last_cons.
  destruct (strip_edge_hyphens false r) eqn:Hk.
  - intros [= ->]. simpl in Hdrop.
    apply strip_false_empty in Hk as [-> | ->].
    + by destruct b.
    + simpl in Hs. done.
  - rewrite <- Hk. by apply IH.
Qed.

Lemma strip_fixed b s :
  (b = true -> first s <> Some "-"%char) ->
  last s <> Some "-"%char ->
  strip_edge_hyphens b s = s.
Proof.
  revert b. induction s as [|c r IH]; intros b Hf Hl; [done|].
  cbn [strip_edge_hyphens].
  destruct (Ascii.eqb_spec c "-") as [->|Hne]; simpl.
  - destruct b; [by destruct Hf|]. simpl.
    destruct r as [|c' r']; [by destruct Hl|]. cbn [is_empty].
    f_equal. apply IH; [done|]. by rewrite last_cons in Hl.
  - f_equal. apply IH; [done|]. rewrite last_cons in Hl.
    destruct r; [done | exact Hl].
Qed.

End StrFacts.

(** ** Slugs *)

Example slugify_getting_started :
  slugify "Getting Started!" = "getting-started".
Proof. reflexivity. Qed.

Example slugify_symbols_only : slugify "?!" = "".
Proof. reflexivity. Qed.

Example slugify_keeps_underscore : slugify "_a  B_" = "_a-b_".
Proof. reflexivity. Qed.

Section Slug.
Import Str Aux StrFacts.

Lemma slug_pre_separated text :
  separated false (collapse_nonword false (toLowerCase text)) = true.
Proof. apply collapse_separated. Qed.

Lemma slugify_slug_chars text : forallb slug_char (slugify text) = true.
Proof. apply strip_forallb, collapse_slug_chars. Qed.

Lemma slugify_separated text : separated true (slugify text) = true.
Proof. apply strip_true_separated, slug_pre_separated. Qed.

Lemma slugify_first text : first (slugify text) <> Some "-"%char.
Proof. apply separated_true_first, slugify_separated. Qed.

Lemma slugify_last text : last (slugify text) <> Some "-"%char.
Proof. apply strip_last, slug_pre_separated. Qed.

Lemma slugify_fixed s :
  forallb slug_char s = true -> separated true s = true ->
  last s <> Some "-"%char -> slugify s = s.
Proof.
  intros Hc Hs Hl. unfold slugify.
  rewrite (toLowerCase_fixed _ Hc).
  rewrite (collapse_fixed false _ Hc (separated_weaken _ Hs)).
  apply strip_fixed; [|done]. intros _. by apply separated_true_first.
Qed.

End Slug.

(** C4. Slugification is a function of its argument that is idempotent
    (slugifying a slug gives the slug back); a slug neither starts nor
    ends with a hyphen; and every character of a slug is a word
    character or a hyphen. *)
Theorem slugify_idempotent_clean (text : string) :
  slugify (slugify text) = slugify text
  /\ Str.first (slugify text) <> Some "-"%char
  /\ Str.last (slugify text) <> Some "-"%char
  /\ Str.forallb (fun c => Str.is_word c || Ascii.eqb c "-") (slugify text)
     = true.
Proof.
  split; [|split; [|split]].
  - apply slugify_fixed.
    + apply slugify_slug_chars.
    + apply slugify_separated.
    + apply slugify_last.
  - apply slugify_first.
  - apply slugify_last.
  - apply (StrFacts.forallb_impl Aux.slug_char); [|apply slugify_slug_chars].
    apply StrFacts.slug_char_allowed.
Qed.

(** ** The language normalizer *)

Example normalizeLang_js : normalizeLang (Some "js") = VString "javascript".
Proof. reflexivity. Qed.

Example normalizeLang_mixed_case :
  normalizeLang (Some "  HTML ") = VString "markup".
Proof. reflexivity. Qed.

Example normalizeLang_python : normalizeLang (Some "Python") = VString "python".
Proof. reflexivity. Qed.

Module LangFacts.
Import Str.

Lemma lower_char_space c : is_space (lower_char c) = is_space c.
Proof. StrFacts.each_char c. Qed.

Lemma toLowerCase_all_space s :
  forallb is_space (toLowerCase s) = forallb is_space s.
Proof.
  induction s as [|c r IH]; [done|].
  unfold toLowerCase in *. simpl. by rewrite lower_char_space, IH.
Qed.

Lemma trimStart_all_space s :
  forallb is_space (trimStart s) = forallb is_space s.
Proof.
  induction s as [|c r IH]; [done|]. simpl.
  destruct (is_space c) eqn:Hc; simpl; [done|]. by rewrite Hc.
Qed.

Lemma trimEnd_empty s : trimEnd s = "" -> forallb is_space s = true.
Proof.
  induction s as [|c r IH]; [done|]. simpl.
  destruct (trimEnd r); [|discriminate].
  destruct (is_space c); [|discriminate]. intros _. by apply IH.
Qed.

Lemma trim_empty s : trim s = "" -> forallb is_space s = true.
Proof.
  unfold trim. intros H%trimEnd_empty. by rewrite trimStart_all_space in H.
Qed.

(** A tag with a character that is not white space keeps one through
    lower-casing and trimming. *)
Lemma trimmed_tag_nonempty s :
  forallb is_space s = false -> trim (toLowerCase s) <> "".
Proof.
  intros Hs Ht%trim_empty. rewrite toLowerCase_all_space in Ht. congruence.
Qed.

Lemma truthy_to_string v : truthy v = true -> to_string v <> "".
Proof. destruct v as [|s|name|]; simpl; try done. by destruct s. Qed.

(** The aliases are in lower case and carry no white space: the
    normal form of an alias is the alias. *)
Lemma alias_normal_form tag canonical :
  LANG_MAP !! tag = Some canonical ->
  trim (toLowerCase tag) = tag /\ is_empty tag = false
  /\ is_empty canonical = false.
Proof.
  intros H. apply elem_of_list_to_map_2 in H.
  repeat (apply elem_of_cons in H as [[= -> ->]|H]; [by vm_compute|]).
  by apply elem_of_nil in H.
Qed.

End LangFacts.

(** Absent and empty tags resolve to the default grammar. *)
Lemma normalizeLang_default :
  normalizeLang None = VString "javascript"
  /\ normalizeLang (Some "") = VString "javascript".
Proof. by split. Qed.

(** A tag of the alias table resolves to its canonical name. *)
Lemma normalizeLang_alias tag canonical :
  LANG_MAP !! tag = Some canonical ->
  normalizeLang (Some tag) = VString canonical.
Proof.
  intros H. destruct (LangFacts.alias_normal_form _ _ H) as (Hn & He & Hc).
  unfold normalizeLang. rewrite He, Hn. unfold LANG_MAP_get. rewrite H.
  simpl. by rewrite Hc.
Qed.

(** A non-empty tag whose normal form is neither an alias nor a name
    found on [Object.prototype] passes through in normal form. *)
Lemma normalizeLang_passthrough tag :
  Str.is_empty tag = false ->
  LANG_MAP !! Str.trim (Str.toLowerCase tag) = None ->
  Object_prototype !! Str.trim (Str.toLowerCase tag) = None ->
  normalizeLang (Some tag) = passthrough_spec tag.
Proof.
  intros He Ha Hp. unfold normalizeLang, passthrough_spec, LANG_MAP_get.
  by rewrite He, Ha, Hp.
Qed.

(** C2, at the failing input.  The tag [constructor] is not in the
    alias table, yet the normalizer does not return the lower-cased,
    trimmed tag: the read [LANG_MAP[l]] finds the property inherited
    from [Object.prototype] and the function [Object] is returned. *)
Theorem normalizeLang_inherited_key :
  LANG_MAP !! "constructor" = None
  /\ normalizeLang (Some "constructor") = VFunction "Object"
  /\ normalizeLang (Some "constructor") <> passthrough_spec "constructor".
Proof. by repeat split. Qed.

(** The other inherited key that survives lower-casing. *)
Example normalizeLang_proto :
  normalizeLang (Some "__proto__") = VObjectPrototype.
Proof. reflexivity. Qed.

(** C3, as stated, fails: an unrecognized tag is not replaced by the
    fallback language. *)
Lemma normalizeLang_no_fallback_for_unrecognized :
  ~ (forall tag : option string,
        to_string (normalizeLang tag) <> ""
        /\ ((tag = None
             \/ exists s, tag = Some s
                  /\ LANG_MAP !! Str.trim (Str.toLowerCase s) = None) ->
            normalizeLang tag = VString "javascript")).
Proof.
  intros H. destruct (H (Some "python")) as [_ Hfb].
  assert (normalizeLang (Some "python") = VString "javascript") as Heq.
  { apply Hfb. right. by exists "python". }
  discriminate Heq.
Qed.

(** A tag made of white space only resolves to the empty string. *)
Example normalizeLang_blank : normalizeLang (Some "  ") = VString "".
Proof. reflexivity. Qed.

(** C3, amended.  For a tag that is absent, empty, or has a character
    that is not white space, the resolved tag is non-empty; the fallback
    ['javascript'] is what an absent or empty tag resolves to. *)
Theorem normalizeLang_nonempty_amended (tag : option string) :
  (forall s, tag = Some s ->
     s = "" \/ Str.forallb Str.is_space s = false) ->
  to_string (normalizeLang tag) <> ""
  /\ (tag = None \/ tag = Some "" ->
      normalizeLang tag = VString "javascript").
Proof.
  intros Htag. split.
  - destruct tag as [s|]; [|done].
    destruct (Htag s eq_refl) as [->|Hs]; [done|].
    unfold normalizeLang. destruct (Str.is_empty s); [done|].
    destruct (truthy _) eqn:Ht.
    + by apply LangFacts.truthy_to_string.
    + simpl. by apply LangFacts.trimmed_tag_nonempty.
  - intros [->| ->]; reflexivity.
Qed.

Lemma normalizeLang_nonempty_amended_witness :
  to_string (normalizeLang (Some "Python")) <> ""
  /\ (Some "Python" = None \/ Some "Python" = Some "" ->
      normalizeLang (Some "Python") = VString "javascript").
Proof.
  apply (normalizeLang_nonempty_amended (Some "Python")).
  intros s [= <-]. right. reflexivity.
Defined.

(** ** Facts about the store *)

Module DomFacts.
Import DOM.

Lemma get_lt d r n : get d r = Some n -> r < next d.
Proof.
  unfold get. destruct (Nat.ltb_spec r (next d)); [done | discriminate].
Qed.

Lemma get_ge d r : next d <= r -> get d r = None.
Proof.
  unfold get. intros H. destruct (Nat.ltb_spec r (next d)); [lia | done].
Qed.

Lemma next_update r f d : next (update r f d) = next d.
Proof. reflexivity. Qed.

Lemma get_update_eq r f d : get (update r f d) r = f <$> get d r.
Proof.
  unfold get, update. simpl. destruct (r <? next d)%nat; [|done].
  rewrite lookup_alter. by case_decide.
Qed.

Lemma get_update_ne r r' f d : r <> r' -> get (update r f d) r' = get d r'.
Proof.
  intros Hne. unfold get, update. simpl. destruct (r' <? next d)%nat; [|done].
  rewrite lookup_alter. by case_decide.
Qed.

Lemma next_insert_node n d : next (insert_node n d) = S (next d).
Proof. reflexivity. Qed.

Lemma get_insert_node_eq n d : get (insert_node n d) (next d) = Some n.
Proof.
  unfold get, insert_node. simpl.
  destruct (Nat.ltb_spec (next d) (S (next d))); [|lia].
  apply lookup_insert_eq.
Qed.

Lemma get_insert_node_ne n d r :
  r <> next d -> get (insert_node n d) r = get d r.
Proof.
  intros Hne. unfold get, insert_node. simpl.
  destruct (Nat.ltb_spec r (S (next d))), (Nat.ltb_spec r (next d));
    try lia; [|done].
  by rewrite lookup_insert_ne.
Qed.

Arguments DOM.get : simpl never.
Arguments DOM.update : simpl never.
Arguments DOM.insert_node : simpl never.

Lemma get_update r f d r' :
  get (update r f d) r' = if decide (r = r') then f <$> get d r' else get d r'.
Proof.
  case_decide as H; [subst; apply get_update_eq | by apply get_update_ne].
Qed.

Lemma get_insert_node n d r :
  get (insert_node n d) r = if decide (r = next d) then Some n else get d r.
Proof.
  case_decide as H;
    [subst; apply get_insert_node_eq | by apply get_insert_node_ne].
Qed.

Lemma next_foldr_update (f : ref -> node -> node) cs d :
  next (foldr (fun c => update c (f c)) d cs) = next d.
Proof. induction cs as [|c cs IH]; [done|]. exact IH. Qed.

Lemma next_remove_children r d : next (remove_children r d) = next d.
Proof.
  unfold remove_children. rewrite next_update.
  apply (next_foldr_update (fun _ => with_parent None)).
Qed.

Lemma get_foldr_detach cs d r :
  get (foldr (fun c => update c (with_parent None)) d cs) r
  = (if decide (r ∈ cs) then with_parent None else (fun n => n)) <$> get d r.
Proof.
  induction cs as [|c cs IH]; simpl.
  - by destruct (get d r).
  - rewrite get_update, IH. clear IH.
    destruct (decide (c = r)) as [->|Hne].
    + rewrite (decide_True (P := r ∈ r :: cs)) by (by left).
      destruct (decide (r ∈ cs)); by destruct (get d r).
    + destruct (decide (r ∈ cs)) as [Hin|Hin].
      * by rewrite (decide_True (P := r ∈ c :: cs)) by (by right).
      * rewrite (decide_False (P := r ∈ c :: cs)); [done|].
        intros [->|H]%elem_of_cons; done.
Qed.

Lemma children_remove_children r d : children (remove_children r d) r = [].
Proof.
  unfold children, remove_children. rewrite get_update_eq, get_foldr_detach.
  by destruct (get d r).
Qed.

Lemma get_remove_children_other r d r' :
  r' <> r -> r' ∉ children d r -> get (remove_children r d) r' = get d r'.
Proof.
  intros Hne Hnot. unfold remove_children.
  rewrite get_update_ne by done. rewrite get_foldr_detach.
  rewrite decide_False by done. by destruct (get d r').
Qed.

Lemma remove_children_leaf r d :
  children d r = [] -> remove_children r d = update r (with_children []) d.
Proof. unfold remove_children. by intros ->. Qed.

Lemma set_textContent_leaf r c s d :
  children d r = [] ->
  set_textContent r (String c s) d
  = update r (with_children [next d])
      (insert_node (Node (KText (String c s)) "" "" [] (Some r) [])
         (update r (with_children []) d)).
Proof.
  intros H. unfold set_textContent, alloc. cbn [Str.is_empty].
  by rewrite (remove_children_leaf _ _ H).
Qed.

Lemma set_textContent_one r t c s d :
  children d r = [t] ->
  set_textContent r (String c s) d
  = update r (with_children [next d])
      (insert_node (Node (KText (String c s)) "" "" [] (Some r) [])
         (update r (with_children [])
            (update t (with_parent None) d))).
Proof.
  intros H. unfold set_textContent, alloc, remove_children.
  cbn [Str.is_empty]. by rewrite H.
Qed.

Lemma appendChild_orphan p c d :
  parentElement d c = None ->
  appendChild p c d
  = update c (with_parent (Some p)) (update p (add_child c) d).
Proof. intros H. unfold appendChild, detach. by rewrite H. Qed.

Lemma get_remove_children_self r d n :
  get d r = Some n ->
  exists n', get (remove_children r d) r = Some n'
    /\ n_children n' = [] /\ n_kind n' = n_kind n.
Proof.
  intros H. unfold remove_children.
  rewrite get_update_eq, get_foldr_detach, H.
  case_decide; eexists; (split; [reflexivity|]); by split.
Qed.

(** Forward execution of a chain of store operations: the innermost
    operation on a store variable is named, what is known of the nodes
    before it is carried over, and the variable is forgotten. *)

Ltac refs_eq a b :=
  first [ constr_eq a b | assert_succeeds (assert (a = b) by lia) ].

Ltac carry_update d d' r f :=
  repeat match goal with
    | H : get d ?x = ?v |- _ =>
        first
          [ refs_eq r x;
            let H' := fresh "G" in
            assert (get d' x = f <$> v) as H'
              by (subst d'; replace x with r by lia;
                  rewrite get_update_eq, <- H; f_equal; f_equal; lia);
            simpl in H'; clear H
          | let H' := fresh "G" in
            assert (get d' x = v) as H'
              by (subst d'; rewrite get_update_ne by lia; exact H);
            clear H ]
    | H : next d = ?k |- _ =>
        let H' := fresh "N" in
        assert (next d' = k) as H' by (subst d'; exact H); clear H
    end.

Ltac carry_insert d d' n :=
  let N := fresh "N" in
  let G := fresh "G" in
  match goal with
  | H : next d = ?k |- _ =>
      assert (next d' = S k) as N
        by (subst d'; rewrite next_insert_node, H; reflexivity);
      assert (get d' k = Some n) as G
        by (subst d'; rewrite <- H; apply get_insert_node_eq);
      repeat match goal with
        | H0 : get d ?x = ?v |- _ =>
            let H' := fresh "G" in
            assert (get d' x = v) as H'
              by (subst d'; rewrite get_insert_node_ne by lia; exact H0);
            clear H0
        end;
      rewrite ?H in *; clear H
  end.

Ltac use_gets :=
  repeat match goal with
    | H : get ?d ?x = _ |- context [get ?d ?x] => rewrite H
    end.

Ltac dom_step :=
  match goal with
  | |- context [next ?d] =>
      is_var d; match goal with H : next d = _ |- _ => rewrite !H end
  | |- context [update ?r ?f ?d] =>
      is_var d; let d' := fresh "d" in
      set (d' := update r f d) in *; carry_update d d' r f;
      clearbody d'; try clear d
  | |- context [insert_node ?n ?d] =>
      is_var d; let d' := fresh "d" in
      set (d' := insert_node n d) in *; carry_insert d d' n;
      clearbody d'; try clear d
  | |- context [set_textContent ?r (String ?c ?s) ?d] =>
      is_var d;
      first
        [ rewrite (set_textContent_leaf r c s d)
            by (unfold children;
                match goal with H : get d r = _ |- _ => rewrite H end;
                reflexivity)
        | match goal with
          | H : get d r = Some ?nr |- _ =>
              let t := eval simpl in (n_children nr) in
              match t with
              | [?t0] =>
                  rewrite (set_textContent_one r t0 c s d)
                    by (unfold children; rewrite H; reflexivity)
              end
          end ]
  | |- context [appendChild ?p ?c ?d] =>
      is_var d;
      rewrite (appendChild_orphan p c d)
        by (unfold parentElement;
            match goal with H : get d c = _ |- _ => rewrite H end;
            reflexivity)
  end.

End DomFacts.

(** ** Walks of the tree

    The walks take [next d] as their bound.  In an ordered store a walk
    from [r] needs no more than [next d - r] levels downwards and [r]
    levels upwards, so the bound is never what ends it. *)

Module WalkFacts.
Import DOM DomFacts Aux.

Lemma orderedb_sound d : orderedb d = true -> ordered d.
Proof.
  intros H r n Hr. pose proof (get_lt _ _ _ Hr) as Hlt.
  unfold orderedb in H. rewrite forallb_forall in H.
  specialize (H r). rewrite Hr in H.
  assert (node_ordered r n = true) as Hn.
  { apply H. apply in_seq. lia. }
  apply andb_prop in Hn as [Hc Hp]. split.
  - apply Forall_forall. intros c Hin. rewrite forallb_forall in Hc.
    apply Nat.ltb_lt, Hc. by apply list_elem_of_In.
  - intros p Hpar. rewrite Hpar in Hp. by apply Nat.ltb_lt.
Qed.

Lemma map_ext_Forall {A B} (f g : A -> B) (P : A -> Prop) l :
  Forall P l -> (forall x, P x -> f x = g x) -> List.map f l = List.map g l.
Proof.
  induction 1 as [|x l Hx _ IH]; intros Hfg; [done|].
  simpl. by rewrite (Hfg x Hx), IH.
Qed.

Lemma flat_map_ext_Forall {A B} (f g : A -> list B) (P : A -> Prop) l :
  Forall P l -> (forall x, P x -> f x = g x) ->
  List.flat_map f l = List.flat_map g l.
Proof.
  induction 1 as [|x l Hx _ IH]; intros Hfg; [done|].
  simpl. by rewrite (Hfg x Hx), IH.
Qed.

Lemma text_go_enough d :
  ordered d ->
  forall f1 f2 r,
    next d - r <= f1 -> next d - r <= f2 ->
    text_go f1 d r = text_go f2 d r.
Proof.
  intros Hord. induction f1 as [|f1 IH]; intros f2 r H1 H2.
  - destruct f2; simpl; [done|]. by rewrite (get_ge d r) by lia.
  - destruct f2 as [|f2].
    + simpl. by rewrite (get_ge d r) by lia.
    + simpl. destruct (get d r) as [n|] eqn:Hr; [|done].
      destruct (n_kind n); [|done].
      destruct (Hord r n Hr) as [Hc _]. f_equal.
      apply (map_ext_Forall _ _ _ _ Hc). intros c Hrc. apply IH; lia.
Qed.

Lemma descendants_go_enough d :
  ordered d ->
  forall f1 f2 r,
    next d - r <= f1 -> next d - r <= f2 ->
    descendants_go f1 d r = descendants_go f2 d r.
Proof.
  intros Hord. induction f1 as [|f1 IH]; intros f2 r H1 H2.
  - destruct f2; simpl; [done|]. unfold children.
    by rewrite (get_ge d r) by lia.
  - destruct f2 as [|f2].
    + simpl. unfold children. by rewrite (get_ge d r) by lia.
    + simpl. unfold children. destruct (get d r) as [n|] eqn:Hr; [|done].
      destruct (Hord r n Hr) as [Hc _].
      apply (flat_map_ext_Forall _ _ _ _ Hc). intros c Hrc.
      f_equal. apply IH; lia.
Qed.

Lemma has_ancestor_go_enough d tags :
  ordered d ->
  forall f1 f2 r,
    r <= f1 -> r <= f2 ->
    has_ancestor_go f1 d tags r = has_ancestor_go f2 d tags r.
Proof.
  intros Hord.
  assert (forall r p, parentElement d r = Some p -> p < r) as Hup.
  { intros r p. unfold parentElement.
    destruct (get d r) as [n|] eqn:Hr; [|done].
    intros Hp. by apply (Hord r n Hr). }
  induction f1 as [|f1 IH]; intros f2 r H1 H2.
  - destruct f2; simpl; [done|].
    destruct (parentElement d r) as [p|] eqn:Hp; [|done].
    apply Hup in Hp. lia.
  - destruct f2 as [|f2]; simpl;
      destruct (parentElement d r) as [p|] eqn:Hp; try done.
    + apply Hup in Hp. lia.
    + apply Hup in Hp. f_equal. apply IH; lia.
Qed.

(** More fuel than [next d] changes nothing. *)
Lemma textContent_enough d r k :
  ordered d -> textContent d r = text_go (next d + k) d r.
Proof.
  intros H. unfold textContent. apply text_go_enough; [done | lia | lia].
Qed.

Lemma descendants_enough d r k :
  ordered d -> descendants d r = descendants_go (next d + k) d r.
Proof.
  intros H. unfold descendants. apply descendants_go_enough; [done | lia | lia].
Qed.

Lemma has_ancestor_enough d tags r k :
  ordered d -> r <= next d ->
  has_ancestor d tags r = has_ancestor_go (next d + k) d tags r.
Proof.
  intros H Hr. unfold has_ancestor.
  apply has_ancestor_go_enough; [done | lia | lia].
Qed.

(** The sample pages are ordered, before and after the pipeline ran. *)
Example rendered_guide_ordered : ordered (Sample.rendered_dom "guide").
Proof. apply orderedb_sound. by vm_compute. Qed.

Example decorated_guide_ordered :
  ordered
    (w_dom (snd (decorate Sample.site Sample.block (Sample.page "guide")))).
Proof. apply orderedb_sound. by vm_compute. Qed.

End WalkFacts.

(** ** The highlighter loader *)

Section Loader.
Context (X : external).
Import Page.

(** What a successful call returns is what [window.Prism] holds
    afterwards. *)
Lemma loadPrism_returns_global w w1 r :
  loadPrism X w = (Ok r, w1) -> w_prism w1 = r.
Proof.
  unfold loadPrism, mbind, M_bind, read.
  destruct (w_prism w) as [e|] eqn:Hp.
  - unfold mret, M_ret. intros [= <- <-]. exact Hp.
  - repeat case_match; try discriminate. by intros [= <- <-].
Qed.

Lemma loadPrism_loaded w e :
  w_prism w = Some e -> loadPrism X w = (Ok (Some e), w).
Proof.
  intros Hp. unfold loadPrism, mbind, M_bind, read. by rewrite Hp.
Qed.

End Loader.

(** C6. When a call of the loader has returned the engine, a second
    call right after it returns that same engine and leaves the page as
    it is: the list of requests is the same, so no engine or grammar
    module is imported again. *)
Theorem loadPrism_idempotent (X : external) (w w1 : world) (P : engine) :
  loadPrism X w = (Ok (Some P), w1) ->
  loadPrism X w1 = (Ok (Some P), w1).
Proof.
  intros H. apply loadPrism_loaded. by apply (loadPrism_returns_global X w).
Qed.

Example loadPrism_sample_first_call :
  exists w1,
    loadPrism Sample.site (Sample.page "guide")
    = (Ok (Some Sample.loaded_engine), w1)
    /\ length (w_trace w1) = 8.
Proof. eexists. split; [vm_compute; reflexivity | reflexivity]. Qed.

Lemma loadPrism_idempotent_witness :
  let w1 := snd (loadPrism Sample.site (Sample.page "guide")) in
  loadPrism Sample.site w1 = (Ok (Some Sample.loaded_engine), w1).
Proof.
  apply (loadPrism_idempotent Sample.site (Sample.page "guide")).
  vm_compute. reflexivity.
Defined.

(** ** Running the pipeline *)

Module Run.
Import DOM DomFacts Page Aux.

Lemma append_empty_r s : s ++ "" = s.
Proof.
  induction s as [|c r IH]; [done|].
  change (String c r ++ "") with (String c (r ++ "")). by rewrite IH.
Qed.

Lemma prefix_app x post : String.prefix x (x ++ post) = true.
Proof.
  induction x as [|c r IH]; simpl; [by destruct post|].
  by destruct (Ascii.ascii_dec c c).
Qed.

Lemma includes_prefix x s : String.prefix x s = true -> Str.includes x s = true.
Proof. intros H. destruct s; cbn [Str.includes]; by rewrite H. Qed.

Lemma includes_app pre x post : Str.includes x (pre ++ x ++ post) = true.
Proof.
  induction pre as [|c r IH].
  - change ("" ++ x ++ post) with (x ++ post).
    apply includes_prefix, prefix_app.
  - change (String c r ++ x ++ post) with (String c (r ++ x ++ post)).
    cbn [Str.includes]. rewrite IH. apply orb_true_r.
Qed.


(** Running the monad one step at a time *)

Arguments Page.with_dom : simpl never.
Arguments Page.log : simpl never.

Lemma w_dom_with_dom d w : w_dom (with_dom d w) = d.
Proof. reflexivity. Qed.
Lemma with_dom_with_dom d d' w : with_dom d (with_dom d' w) = with_dom d w.
Proof. reflexivity. Qed.
Lemma w_hlx_with_dom d w : w_hlx (with_dom d w) = w_hlx w.
Proof. reflexivity. Qed.
Lemma w_prism_with_dom d w : w_prism (with_dom d w) = w_prism w.
Proof. reflexivity. Qed.
Lemma w_dom_log ev w : w_dom (log ev w) = w_dom w.
Proof. reflexivity. Qed.
Lemma w_hlx_log ev w : w_hlx (log ev w) = w_hlx w.
Proof. reflexivity. Qed.
Lemma w_prism_log ev w : w_prism (log ev w) = w_prism w.
Proof. reflexivity. Qed.

Lemma run_ret {A B} (a : A) (k : A -> M B) w : (mret a ≫= k) w = k a w.
Proof. reflexivity. Qed.
Lemma run_write {B} f (k : unit -> M B) w :
  (dom_write f ≫= k) w = k tt (with_dom (f (w_dom w)) w).
Proof. reflexivity. Qed.
Lemma run_read {A B} (f : world -> A) (k : A -> M B) w :
  (read f ≫= k) w = k (f w) w.
Proof. reflexivity. Qed.
Lemma run_dom_read {A B} (f : dom -> A) (k : A -> M B) w :
  (dom_read f ≫= k) w = k (f (w_dom w)) w.
Proof. reflexivity. Qed.
Lemma run_create {B} t (k : ref -> M B) w :
  (createElement t ≫= k) w
  = k (next (w_dom w))
      (with_dom (insert_node (blank (KElement t)) (w_dom w)) w).
Proof. reflexivity. Qed.
Lemma run_emit {B} ev (k : unit -> M B) w :
  (emit ev ≫= k) w = k tt (log ev w).
Proof. reflexivity. Qed.
Lemma run_throw {A B} e (k : A -> M B) w : (throw e ≫= k) w = (Throw e, w).
Proof. reflexivity. Qed.
Lemma run_bind {A B} (m : M A) (k : A -> M B) w a w1 :
  m w = (Ok a, w1) -> (m ≫= k) w = k a w1.
Proof. unfold mbind, M_bind. by intros ->. Qed.
Lemma run_bind_throw {A B} (m : M A) (k : A -> M B) w e w1 :
  m w = (Throw e, w1) -> (m ≫= k) w = (Throw e, w1).
Proof. unfold mbind, M_bind. by intros ->. Qed.

Lemma end_write f w : dom_write f w = (Ok tt, with_dom (f (w_dom w)) w).
Proof. reflexivity. Qed.
Lemma end_ret {A} (a : A) w : (mret a : M A) w = (Ok a, w).
Proof. reflexivity. Qed.

End Run.

(** ** The loader reads and writes globals only *)

Module Frame.
Import Page Aux.

Lemma globals_only_ret {A} (a : A) : globals_only (mret a).
Proof. intros w1 w2 [Hp Hh]. by repeat split. Qed.

Lemma globals_only_bind {A B} (m : M A) (f : A -> M B) :
  globals_only m -> (forall a, globals_only (f a)) -> globals_only (m ≫= f).
Proof.
  intros Hm Hf w1 w2 H. unfold mbind, M_bind.
  destruct (Hm w1 w2 H) as (Hr & Hg & Hd).
  destruct (m w1) as [[a1|e1] w1'], (m w2) as [[a2|e2] w2'];
    simpl in *; try discriminate.
  - injection Hr as <-. destruct (Hf a1 w1' w2' Hg) as (? & ? & ?).
    split; [done|split; [done|congruence]].
  - by injection Hr as <-.
Qed.

Lemma globals_only_emit ev : globals_only (emit ev).
Proof. intros w1 w2 [Hp Hh]. by repeat split. Qed.

Lemma globals_only_codeBasePath : globals_only codeBasePath.
Proof.
  intros w1 w2 [Hp Hh]. unfold codeBasePath. rewrite Hh.
  destruct (w_hlx w2) eqn:E; repeat split; simpl; congruence.
Qed.

Lemma globals_only_read_prism : globals_only (read w_prism).
Proof. intros w1 w2 [Hp Hh]. unfold read. repeat split; simpl; congruence. Qed.

Section LoaderFrame.
Context (X : external).

Lemma globals_only_run_module url : globals_only (run_module X url).
Proof.
  intros w1 w2 [Hp Hh]. unfold run_module. rewrite Hp.
  destruct (import_script X url (w_prism w2)) eqn:E;
    repeat split; simpl; congruence.
Qed.

Lemma globals_only_import url : globals_only (import X url).
Proof.
  apply globals_only_bind; [apply globals_only_emit|].
  intros _. apply globals_only_run_module.
Qed.

Lemma globals_only_set_manual : globals_only set_manual.
Proof.
  intros w1 w2 [Hp Hh]. unfold set_manual. rewrite Hp.
  destruct (w_prism w2) eqn:E; repeat split; simpl; congruence.
Qed.

Lemma globals_only_import_all urls : globals_only (import_all X urls).
Proof.
  induction urls as [|u rest IH]; [apply globals_only_ret|].
  intros w1 w2 H. simpl.
  destruct (globals_only_import u w1 w2 H) as (Hr & Hg & Hd).
  destruct (import X u w1) as [[a1|e1] w1'], (import X u w2) as [[a2|e2] w2'];
    simpl in *; try discriminate.
  - destruct (IH w1' w2' Hg) as (? & ? & ?).
    split; [done|split; [done|congruence]].
  - destruct (IH w1' w2' Hg) as (? & ? & ?).
    split; [done|split; [done|congruence]].
Qed.

Lemma globals_only_loadPrism : globals_only (loadPrism X).
Proof.
  apply globals_only_bind; [apply globals_only_read_prism|].
  intros [e|]; [apply globals_only_ret|].
  apply globals_only_bind; [apply globals_only_codeBasePath|]. intros path.
  apply globals_only_bind; [apply globals_only_import|]. intros _.
  apply globals_only_bind; [apply globals_only_set_manual|]. intros _.
  apply globals_only_bind; [apply globals_only_import_all|]. intros _.
  apply globals_only_read_prism.
Qed.
End LoaderFrame.

End Frame.

(** ** The entry point *)

Lemma trim_all_space s :
  Str.forallb Str.is_space s = true -> Str.trim s = "".
Proof.
  unfold Str.trim. intros H.
  assert (Str.trimStart s = "") as ->; [|done].
  induction s as [|c r IH]; [done|]. simpl in *.
  apply andb_prop in H as [-> Hr]. by apply IH.
Qed.

(** C10. When the text of the block is empty or white space only,
    [decorate] returns at once and the page is what it was: the list of
    requests has no fetch and no import added, and the DOM, the content
    of the block included, is untouched. *)
Theorem decorate_blank_slug_noop (X : external) (w : world) (block : ref) :
  Str.forallb Str.is_space (DOM.textContent (w_dom w) block) = true ->
  decorate X block w = (Ok tt, w).
Proof.
  intros H. unfold decorate, mbind, M_bind, Page.dom_read, Page.read.
  by rewrite (trim_all_space _ H).
Qed.

Lemma decorate_blank_slug_noop_witness :
  decorate Sample.site Sample.block (Sample.page "  ")
  = (Ok tt, Sample.page "  ").
Proof.
  apply (decorate_blank_slug_noop Sample.site (Sample.page "  ")).
  vm_compute. reflexivity.
Defined.

(** *** A response that is not a success *)

Module EntryFacts.
Import DOM DomFacts Page Aux Run Frame.

Lemma scaffold_run block w :
  scaffold block w
  = (Ok (fst (scaffold_dom block (w_dom w))),
     with_dom (snd (scaffold_dom block (w_dom w))) w).
Proof. reflexivity. Qed.


Lemma scaffold_dom_spec block d0 nb :
  get d0 block = Some nb ->
  exists d,
    scaffold_dom block d0 = (next d0, S (next d0), S (S (next d0)), d)
    /\ next d = 4 + next d0
    /\ (exists nb', get d block = Some nb'
          /\ n_children nb' = [next d0] /\ n_kind nb' = n_kind nb)
    /\ get d (next d0)
       = Some (Node (KElement "div") "" "docs-layout" [] (Some block)
                 [S (next d0)])
    /\ get d (S (next d0))
       = Some (Node (KElement "article") "" "docs-content" []
                 (Some (next d0)) [S (S (next d0))])
    /\ get d (S (S (next d0)))
       = Some (Node (KElement "div") "" "docs-loading" []
                 (Some (S (next d0))) [3 + next d0])
    /\ get d (3 + next d0)
       = Some (Node (KText "Loading documentation...") "" "" []
                 (Some (S (S (next d0)))) []).
Proof.
  intros Hb. pose proof (get_lt _ _ _ Hb) as Hlt.
  unfold scaffold_dom, DOM.createElement, alloc.
  cbn [fst snd].
  assert (set_textContent block "" d0 = remove_children block d0) as -> by done.
  unfold set_className.
  repeat first [rewrite next_update | rewrite next_insert_node
               | rewrite next_remove_children].
  eexists. split; [reflexivity|].
  destruct (get_remove_children_self _ _ _ Hb) as (nb' & Hb' & Hc & Hk).
  pose proof (next_remove_children block d0) as Hn.
  set (n := next d0) in *.
  set (d1 := remove_children block d0) in *. clearbody d1.
  repeat dom_step.
  repeat split; try assumption.
  eexists. split; [eassumption|]. simpl. by rewrite Hc.
Qed.

Section Entry.
Context (X : external).

Lemma loadPrism_same_globals w w' P :
  same_globals w w' ->
  fst (loadPrism X w) = Ok P ->
  exists w'', loadPrism X w' = (Ok P, w'') /\ w_dom w'' = w_dom w'.
Proof.
  intros Hg Hok.
  destruct (globals_only_loadPrism X w' w) as (Hr & _ & Hd).
  { destruct Hg. by split. }
  destruct (loadPrism X w') as [r w''] eqn:E. cbn [fst snd] in *.
  exists w''. split; [|done]. congruence.
Qed.

Lemma decorate_run block w :
  Str.is_empty (Str.trim (DOM.textContent (w_dom w) block)) = false ->
  decorate X block w
  = let sc := scaffold_dom block (w_dom w) in
    try_catch
      (render X (Str.trim (DOM.textContent (w_dom w) block))
         sc.1.1.1 sc.1.1.2 sc.1.2)
      (report_failure sc.1.2) (with_dom sc.2 w).
Proof.
  intros Hs. unfold decorate, mbind, M_bind, dom_read, read. rewrite Hs.
  reflexivity.
Qed.

Lemma render_not_ok slug wrapper content loading w base resp P w2 :
  w_hlx w = Some base ->
  fetch X (base ++ "/docs/" ++ slug ++ ".md") = Some resp ->
  ok resp = false ->
  loadPrism X (log (EFetch (base ++ "/docs/" ++ slug ++ ".md")) w)
  = (Ok P, w2) ->
  render X slug wrapper content loading w
  = (Ok tt,
     with_dom
       (set_textContent loading
          ("Failed to load documentation (" ++ Str.of_N (status resp) ++ ")")
          (w_dom w2)) w2).
Proof.
  intros Hhlx Hfetch Hok Hload.
  unfold render, fetch_and_load, mbind, M_bind, codeBasePath, emit.
  rewrite Hhlx, Hload, Hfetch. unfold mret, M_ret. rewrite Hok.
  reflexivity.
Qed.

End Entry.

End EntryFacts.

Section FetchFailure.
Import DOM DomFacts Page Aux Run Frame EntryFacts.

(** C1, amended.  When the response to the fetch is not a success and
    the highlighter loader succeeds, [decorate] returns normally; the
    block then holds the wrapper, the content region and, in it, the
    notice alone, whose text is the failure message with the status
    code in it.  No document content is in the block: its whole text is
    that message. *)
Theorem decorate_fetch_failure (X : external) (w : world) (block : ref)
    (t base : string) (resp : response) (P : option engine) :
  let slug := Str.trim (DOM.textContent (w_dom w) block) in
  let message :=
    "Failed to load documentation (" ++ Str.of_N (status resp) ++ ")" in
  DOM.tag (w_dom w) block = Some t ->
  Str.is_empty slug = false ->
  w_hlx w = Some base ->
  fetch X (base ++ "/docs/" ++ slug ++ ".md") = Some resp ->
  ok resp = false ->
  fst (loadPrism X w) = Ok P ->
  exists w' wrapper content loading text,
    decorate X block w = (Ok tt, w')
    /\ DOM.children (w_dom w') block = [wrapper]
    /\ DOM.children (w_dom w') wrapper = [content]
    /\ DOM.className (w_dom w') content = "docs-content"
    /\ DOM.children (w_dom w') content = [loading]
    /\ DOM.children (w_dom w') loading = [text]
    /\ DOM.data (w_dom w') text = Some message
    /\ DOM.textContent (w_dom w') block = message
    /\ Str.includes (Str.of_N (status resp)) message = true.
Proof.
  intros slug message Htag Hslug Hhlx Hfetch Hok Hload.
  unfold tag in Htag.
  destruct (get (w_dom w) block) as [nb|] eqn:Hb; [|discriminate].
  destruct (n_kind nb) as [t'|] eqn:Hk; [|discriminate].
  pose proof (get_lt _ _ _ Hb) as Hlt.
  destruct (scaffold_dom_spec block (w_dom w) nb Hb)
    as (d & Hsc & N & (nb' & Gb & Hcb & Hkb) & Gw & Gc & Gl & Gt).
  set (n := next (w_dom w)) in *.
  set (url := base ++ "/docs/" ++ slug ++ ".md") in *.
  destruct (loadPrism_same_globals X w (log (EFetch url) (with_dom d w)) P)
    as (w2 & Hload2 & Hd2); [by split | done |].
  rewrite w_dom_log, w_dom_with_dom in Hd2.
  exists (with_dom (set_textContent (S (S n)) message d) w2),
    n, (S n), (S (S n)), (4 + n).
  split.
  { rewrite (decorate_run X block w Hslug). cbv zeta. rewrite Hsc.
    cbn [fst snd]. unfold try_catch. fold slug.
    rewrite (render_not_ok X slug n (S n) (S (S n)) (with_dom d w) base
               resp P w2 Hhlx Hfetch Hok Hload2).
    by rewrite Hd2. }
  rewrite w_dom_with_dom.
  assert (Str.includes (Str.of_N (status resp)) message = true) as Hinc.
  { apply (includes_app "Failed to load documentation ("). }
  unfold textContent.
  change message
    with (String "F" ("ailed to load documentation ("
                        ++ Str.of_N (status resp) ++ ")")) in *.
  cbn [Nat.add] in *.
  repeat dom_step.
  unfold children, className, data.
  use_gets. rewrite Hcb. cbn [n_children n_class n_kind with_children].
  repeat split; try done.
  cbn [text_go]. use_gets. rewrite Hkb, Hk, Hcb.
  repeat (cbn [text_go List.map foldr n_kind n_children with_children];
          use_gets).
  by rewrite !append_empty_r.
Qed.

End FetchFailure.

(** C1, as stated, fails: with a 404 response and an engine module that
    cannot be imported, the notice is the generic one and the status
    code is not in it. *)
Lemma decorate_status_lost_when_loader_fails :
  let w := Sample.page "missing" in
  let w' := snd (decorate Sample.broken_site Sample.block w) in
  fetch Sample.broken_site "/app/docs/missing.md"
  = Some (Response false 404 (Some "Not Found"))
  /\ fst (decorate Sample.broken_site Sample.block w) = Ok tt
  /\ DOM.textContent (w_dom w') Sample.block = "Failed to load documentation"
  /\ Str.includes (Str.of_N 404) (DOM.textContent (w_dom w') Sample.block)
     = false.
Proof. vm_compute. by repeat split. Qed.

Lemma decorate_fetch_failure_witness :
  exists w' wrapper content loading text,
    decorate Sample.site Sample.block (Sample.page "missing") = (Ok tt, w')
    /\ DOM.children (w_dom w') Sample.block = [wrapper]
    /\ DOM.children (w_dom w') wrapper = [content]
    /\ DOM.className (w_dom w') content = "docs-content"
    /\ DOM.children (w_dom w') content = [loading]
    /\ DOM.children (w_dom w') loading = [text]
    /\ DOM.data (w_dom w') text = Some "Failed to load documentation (404)"
    /\ DOM.textContent (w_dom w') Sample.block
       = "Failed to load documentation (404)"
    /\ Str.includes "404" "Failed to load documentation (404)" = true.
Proof.
  apply (decorate_fetch_failure Sample.site (Sample.page "missing")
           Sample.block "div" "/app"
           (Response false 404 (Some "Not Found"))
           (Some Sample.loaded_engine));
    vm_compute; reflexivity.
Defined.

(** ** The table of contents *)

Module TocFacts.
Import DOM DomFacts Page Aux Run Frame.

Lemma addTocEntry_run list h w :
  addTocEntry list h w
  = (Ok tt,
     log (EListen (S (next (w_dom w))) "click")
       (with_dom (toc_entry_dom list h (w_dom w)) w)).
Proof. reflexivity. Qed.

Lemma set_textContent_empty_leaf r d :
  children d r = [] ->
  set_textContent r "" d = update r (with_children []) d.
Proof.
  intros H. unfold set_textContent. cbn [Str.is_empty].
  by apply remove_children_leaf.
Qed.

Ltac dom_step' :=
  first
    [ dom_step
    | match goal with
      | |- context [set_textContent ?r "" ?d] =>
          is_var d;
          rewrite (set_textContent_empty_leaf r d)
            by (unfold children;
                match goal with H : get d r = _ |- _ => rewrite H end;
                reflexivity)
      end ].

Lemma read_frame d d' h :
  get d' h = get d h ->
  toc_class d' h = toc_class d h /\ DOM.id d' h = DOM.id d h.
Proof.
  intros H. unfold toc_class, tagName, tag, DOM.id. by rewrite H.
Qed.

Lemma toc_entry_dom_facts list h d nl r v :
  get d list = Some nl -> h < list ->
  get d r = v -> r < next d -> r <> list ->
  let li := next d in
  let a := S (next d) in
  let d' := toc_entry_dom list h d in
  exists kids,
    next d <= next d'
    /\ get d' list = Some (add_child li nl)
    /\ get d' li
       = Some (Node (KElement "li") "" (toc_class d h) [] (Some list) [a])
    /\ get d' a
       = Some (Node (KElement "a") "" "" [("href", "#" ++ DOM.id d h)]
                 (Some li) kids)
    /\ get d' r = v.
Proof.
  intros Hl Hh Hr Hrn Hrl li a. pose proof (get_lt _ _ _ Hl) as Hlt.
  unfold toc_entry_dom, DOM.createElement, alloc.
  cbn [fst snd].
  destruct (read_frame d (insert_node (blank (KElement "li")) d) h) as [E1 _].
  { apply get_insert_node_ne. lia. }
  rewrite E1.
  change (next (set_className (next d) (toc_class d h)
                  (insert_node (blank (KElement "li")) d))) with a.
  destruct (read_frame d
              (insert_node (blank (KElement "a"))
                 (set_className (next d) (toc_class d h)
                    (insert_node (blank (KElement "li")) d))) h) as [_ E2].
  { unfold set_className.
    rewrite get_insert_node_ne, get_update_ne, get_insert_node_ne
      by (simpl; lia). done. }
  rewrite E2.
  match goal with
  | |- context [set_textContent _ ?l _] => generalize l as label
  end.
  intros label.
  unfold set_className, setAttribute.
  assert (next d = next d) as N by done. revert N.
  generalize (next d) at 2 as n. intros n N. subst li a. rewrite N in *.
  generalize (toc_class d h) as cls; intros cls.
  generalize ("#" ++ DOM.id d h) as href; intros href.
  destruct label as [|c label].
  - repeat dom_step'. eexists. repeat split; try eassumption. lia.
  - repeat dom_step'. eexists. repeat split; try eassumption. lia.
Qed.

Lemma with_children_app_nil nl :
  with_children (n_children nl ++ []) nl = nl.
Proof. destruct nl. unfold with_children. simpl. by rewrite app_nil_r. Qed.

Lemma toc_loop list hs :
  forall w nl,
    get (w_dom w) list = Some nl ->
    Forall (fun h => h < list) hs ->
    exists w' entries,
      forEach hs (addTocEntry list) w = (Ok tt, w')
      /\ get (w_dom w') list
         = Some (with_children (n_children nl ++ entries) nl)
      /\ Forall2 (entry_node list (next (w_dom w)) (w_dom w) (w_dom w'))
           entries hs
      /\ next (w_dom w) <= next (w_dom w')
      /\ (forall r, r < next (w_dom w) -> r <> list ->
          get (w_dom w') r = get (w_dom w) r).
Proof.
  induction hs as [|h hs IH]; intros w nl Hl Hhs.
  - exists w, []. split; [done|].
    split; [by rewrite with_children_app_nil|].
    split; [constructor|]. by split.
  - apply Forall_cons in Hhs as [Hh Hhs].
    pose proof (get_lt _ _ _ Hl) as Hlt.
    set (d := w_dom w) in *.
    set (d1 := toc_entry_dom list h d).
    set (w1 := log (EListen (S (next d)) "click") (with_dom d1 w)).
    assert (forall r, r < next d -> r <> list -> get d1 r = get d r) as Hframe.
    { intros r Hr Hrl.
      destruct (toc_entry_dom_facts list h d nl r (get d r) Hl Hh eq_refl
                  Hr Hrl)
        as (? & _ & _ & _ & _ & Hg). exact Hg. }
    destruct (toc_entry_dom_facts list h d nl h (get d h) Hl Hh eq_refl)
      as (kids & Hnext & Hl1 & Hli & Ha & _); [lia | lia |].
    fold d1 in Hnext, Hl1, Hli, Ha.
    destruct (IH w1 (add_child (next d) nl))
      as (w' & entries & Hrun & Hl' & Hent & Hn' & Hfr');
      [exact Hl1 | exact Hhs |].
    change (w_dom w1) with d1 in *.
    exists w', (next d :: entries). split; [|split; [|split; [|split]]].
    + cbn [forEach]. rewrite (run_bind _ _ w tt w1); [exact Hrun|].
      apply addTocEntry_run.
    + rewrite Hl'. unfold add_child, with_children. simpl.
      by rewrite <- app_assoc.
    + constructor.
      * split; [done|]. split; [lia|]. exists (S (next d)), kids.
        rewrite !Hfr'; try (eapply get_lt; eassumption); try lia.
        by split.
      * eapply Forall2_impl; [exact Hent|].
        intros li' h' (Hh' & Hlo & a' & kids' & G1 & G2).
        destruct (read_frame d d1 h') as [Ec Ei]; [apply Hframe; lia|].
        rewrite Ec, Ei in *.
        split; [done|]. split; [lia|]. by exists a', kids'.
    + lia.
    + intros r Hr Hrl. rewrite Hfr' by lia. by apply Hframe.
Qed.

Lemma buildTOC_below container w :
  (length (querySelectorAll (w_dom w) container ["h2"; "h3"]) <? 3)%nat
  = true ->
  buildTOC container w = (Ok None, w).
Proof.
  intros H. unfold buildTOC, mbind, M_bind, dom_read, read. by rewrite H.
Qed.

Lemma buildTOC_run container w :
  let hs := querySelectorAll (w_dom w) container ["h2"; "h3"] in
  (length hs <? 3)%nat = false ->
  buildTOC container w
  = let f := toc_frame_dom (w_dom w) in
    (forEach hs (addTocEntry f.1.2);;
     dom_write (appendChild f.1.1.1 f.1.2);;
     forEach hs (fun h => emit (EObserve h));;
     mret (Some f.1.1.1)) (with_dom f.2 w).
Proof.
  intros hs H. unfold buildTOC, mbind, M_bind, dom_read, read. fold hs.
  rewrite H. reflexivity.
Qed.

Lemma toc_frame_dom_spec d r v :
  get d r = v -> r < next d ->
  let n := next d in
  let d7 := (toc_frame_dom d).2 in
  (toc_frame_dom d).1 = (n, S n, 3 + n)
  /\ next d7 = 4 + n
  /\ get d7 n = Some (Node (KElement "nav") "" "docs-toc" [] None [S n])
  /\ get d7 (3 + n) = Some (blank (KElement "ul"))
  /\ get d7 r = v.
Proof.
  intros Hr Hlt n.
  unfold toc_frame_dom, DOM.createElement, alloc, set_className.
  cbn [fst snd].
  assert (next d = n) as N by done. clearbody n.
  repeat rewrite ?next_update, ?next_insert_node, ?N.
  repeat dom_step'.
  repeat split; try assumption.
Qed.

Lemma forEach_emit {A} (f : A -> event) (l : list A) w :
  exists w', forEach l (fun x => emit (f x)) w = (Ok tt, w')
             /\ w_dom w' = w_dom w.
Proof.
  revert w. induction l as [|x l IH]; intros w.
  - by exists w.
  - destruct (IH (log (f x) w)) as (w' & Hrun & Hd).
    exists w'. split; [|done]. cbn [forEach]. by rewrite run_emit.
Qed.

Lemma querySelectorAll_allocated d root tags :
  Forall (fun h => h < next d) (querySelectorAll d root tags).
Proof.
  apply Forall_forall. intros h Hin.
  apply list_elem_of_In, filter_In in Hin as [_ Hin].
  unfold has_tag, tag in Hin.
  destruct (get d h) eqn:E; [|discriminate]. by eapply get_lt.
Qed.

Lemma Forall2_with_r {A B} (P : A -> B -> Prop) (Q : B -> Prop) l k :
  Forall2 P l k -> Forall Q k -> Forall2 (fun x y => P x y /\ Q y) l k.
Proof.
  induction 1 as [|x y l k Hxy Hlk IH]; intros HQ; [constructor|].
  apply Forall_cons in HQ as [Hy HQ]. constructor; [done | by apply IH].
Qed.

End TocFacts.

Section Toc.
Import DOM DomFacts Page Aux Run Frame TocFacts.

(** C5. With fewer than three level-2 and level-3 headings in the
    container, the builder returns [null] and changes nothing.  With
    three or more it returns a [nav] whose children are the title and a
    list, and the items of the list correspond one to one, in document
    order, to the headings: each item holds one link to the id of its
    heading and is marked as a sub-level item exactly for an [h3]. *)
Theorem buildTOC_threshold (w : world) (container : ref) :
  let hs := DOM.querySelectorAll (w_dom w) container ["h2"; "h3"] in
  (length hs < 3 -> buildTOC container w = (Ok None, w))
  /\ (3 <= length hs ->
      exists w' toc title list entries,
        buildTOC container w = (Ok (Some toc), w')
        /\ DOM.tag (w_dom w') toc = Some "nav"
        /\ DOM.children (w_dom w') toc = [title; list]
        /\ DOM.children (w_dom w') list = entries
        /\ Forall2 (toc_entry (w_dom w) (w_dom w')) entries hs).
Proof.
  intros hs. split.
  - intros H. apply buildTOC_below. fold hs. by apply Nat.ltb_lt.
  - intros H. set (d := w_dom w) in *.
    assert (Forall (fun h => h < next d) hs) as Hhs
      by apply querySelectorAll_allocated.
    assert ((length hs <? 3)%nat = false) as Hlen by (apply Nat.ltb_ge; lia).
    rewrite (buildTOC_run container w Hlen). fold d hs. cbv zeta.
    set (n := next d) in *.
    assert (forall r, r < n -> get (toc_frame_dom d).2 r = get d r) as Hfr7.
    { intros r Hr.
      by destruct (toc_frame_dom_spec d r (get d r) eq_refl Hr)
        as (_ & _ & _ & _ & ?). }
    assert (0 < n) as Hpos.
    { destruct hs as [|h ?]; [simpl in H; lia|].
      apply Forall_cons in Hhs as [? _]. lia. }
    destruct (toc_frame_dom_spec d 0 (get d 0) eq_refl Hpos)
      as (Hf & N7 & Gtoc & Glist & _).
    fold n in Hf, N7, Gtoc, Glist.
    set (d7 := (toc_frame_dom d).2) in *. rewrite Hf. cbn [fst snd].
    destruct (toc_loop (3 + n) hs (with_dom d7 w) _ Glist)
      as (w1 & entries & Hrun & Gl1 & Hent & Hn1 & Hfr1).
    { eapply Forall_impl; [exact Hhs|]. simpl. intros; lia. }
    rewrite w_dom_with_dom in *.
    destruct (forEach_emit EObserve hs
                (with_dom (appendChild n (3 + n) (w_dom w1)) w1))
      as (w2 & Hobs & Hd2).
    exists w2, n, (S n), (3 + n), entries.
    split.
    { rewrite (run_bind _ _ _ tt w1 Hrun). rewrite run_write.
      by rewrite (run_bind _ _ _ tt w2 Hobs). }
    rewrite Hd2, w_dom_with_dom.
    set (d1 := w_dom w1) in *.
    assert (get d1 n = get d7 n) as Gtoc1 by (apply Hfr1; lia).
    rewrite Gtoc in Gtoc1. cbn [blank n_children app] in Gl1.
    rewrite (appendChild_orphan n (3 + n) d1)
      by (unfold parentElement; by rewrite Gl1).
    set (D := update (3 + n) (with_parent (Some n))
                (update n (add_child (3 + n)) d1)).
    assert (get D n
            = Some (Node (KElement "nav") "" "docs-toc" [] None
                      [S n; 3 + n])) as GDn.
    { unfold D. rewrite get_update_ne by lia.
      by rewrite get_update_eq, Gtoc1. }
    assert (get D (3 + n)
            = Some (Node (KElement "ul") "" "" [] (Some n) entries)) as GDl.
    { unfold D. rewrite get_update_eq, get_update_ne by lia.
      by rewrite Gl1. }
    assert (forall r, r <> n -> r <> 3 + n -> get D r = get d1 r) as HD.
    { intros r ? ?. unfold D. by rewrite !get_update_ne by lia. }
    clearbody D.
    unfold tag, children. rewrite GDn, GDl.
    split; [done|]. split; [done|]. split; [done|].
    eapply Forall2_impl; [exact (Forall2_with_r _ _ _ _ Hent Hhs)|].
    intros li h ((_ & Hlo & a & kids & G1 & G2) & Hh).
    destruct (read_frame d d7 h) as [Ec Ei]; [by apply Hfr7|].
    rewrite Ec, Ei in *.
    assert (a <> n) as Han by (intros ->; rewrite Gtoc1 in G2; discriminate).
    assert (a <> 3 + n) as Hal by (intros ->; rewrite Gl1 in G2; discriminate).
    unfold toc_entry, tag, className, children, attr.
    rewrite (HD li), G1 by lia.
    split; [done|]. split; [done|]. exists a.
    rewrite (HD a), G2 by lia. by repeat split.
Qed.

End Toc.

Lemma buildTOC_threshold_witness :
  buildTOC Sample.content (Sample.rendered "setup")
  = (Ok None, Sample.rendered "setup")
  /\ exists w' toc title list entries,
      buildTOC Sample.content (Sample.rendered "guide") = (Ok (Some toc), w')
      /\ DOM.tag (w_dom w') toc = Some "nav"
      /\ DOM.children (w_dom w') toc = [title; list]
      /\ DOM.children (w_dom w') list = entries
      /\ Forall2 (Aux.toc_entry (Sample.rendered_dom "guide") (w_dom w'))
           entries [4; 9; 11].
Proof.
  split.
  - apply (proj1 (buildTOC_threshold (Sample.rendered "setup") Sample.content)).
    vm_compute. lia.
  - apply (proj2 (buildTOC_threshold (Sample.rendered "guide") Sample.content)).
    vm_compute. lia.
Defined.


(** ** Heading anchors *)

Module HeadingFacts.
Import DOM DomFacts Page Aux Run Frame.

Lemma addHeadingAnchor_run h w :
  addHeadingAnchor h w = (Ok tt, with_dom (heading_dom h (w_dom w)) w).
Proof.
  unfold addHeadingAnchor, heading_dom, mbind, M_bind, dom_read, read.
  destruct (Str.is_empty (DOM.id (w_dom w) h)); reflexivity.
Qed.

Lemma heading_dom_facts h d nh r v :
  get d h = Some nh ->
  get d r = v ->
  let link := next d in
  let d' := heading_dom h d in
  next d' = 2 + next d
  /\ get d' h
     = Some (Node (n_kind nh) (anchor_id d h) (n_class nh) (n_attrs nh)
               (n_parent nh) (n_children nh ++ [link]))
  /\ get d' link
     = Some (Node (KElement "a") "" "docs-anchor"
               [("aria-hidden", "true"); ("href", "#" ++ anchor_id d h)]
               (Some h) [S link])
  /\ (r < next d -> r <> h -> get d' r = v).
Proof.
  intros Hh Hr link. pose proof (get_lt _ _ _ Hh) as Hlt.
  unfold heading_dom, anchor_id, DOM.createElement, alloc.
  cbn [fst snd].
  set (d1 := if Str.is_empty (DOM.id d h) then _ else d).
  set (i := if Str.is_empty (DOM.id d h) then slugify _ else _).
  assert (next d1 = next d /\ (r <> h -> get d1 r = v)
          /\ get d1 h = Some (with_id i nh)) as (N & G1 & G2).
  { unfold d1, i, DOM.id. rewrite Hh.
    destruct (Str.is_empty (n_id nh)) eqn:E.
    - unfold set_id. rewrite get_update_eq, Hh.
      repeat split; try done. intros ?. by rewrite get_update_ne.
    - repeat split; try done. rewrite Hh. by destruct nh. }
  clearbody d1 i.
  assert (DOM.id (set_className (next d1) "docs-anchor"
                    (insert_node (blank (KElement "a")) d1)) h = i) as ->.
  { unfold DOM.id, set_className.
    rewrite get_update_ne, get_insert_node_ne, G2 by lia. done. }
  unfold set_className, setAttribute. subst link.
  rewrite N. set (n := next d) in *. clearbody n.
  generalize ("#" ++ i) as href. intros href.
  destruct (decide (r < n /\ r <> h)) as [[Hrn Hrh]|Hno].
  - specialize (G1 Hrh). repeat dom_step. repeat split; try assumption.
    by intros.
  - clear G1. repeat dom_step. repeat split; try assumption.
    intros ? ?. by destruct Hno.
Qed.

Lemma with_children_self nl : with_children (n_children nl ++ []) nl = nl.
Proof. destruct nl. unfold with_children. simpl. by rewrite app_nil_r. Qed.

Lemma anchor_id_kept d h nh :
  get d h = Some nh -> Str.is_empty (n_id nh) = false ->
  anchor_id d h = n_id nh.
Proof. intros H E. unfold anchor_id, DOM.id. by rewrite H, E. Qed.

(** A run over [hs] seen from a heading [h0] that has an id: the id
    stays, and one link is appended for each time [h0] is visited. *)
Lemma anchors_loop h0 hs :
  forall w nh,
    get (w_dom w) h0 = Some nh ->
    Str.is_empty (n_id nh) = false ->
    Forall (fun h => is_Some (get (w_dom w) h)) hs ->
    exists w' links,
      forEach hs addHeadingAnchor w = (Ok tt, w')
      /\ get (w_dom w') h0
         = Some (with_children (n_children nh ++ links) nh)
      /\ length links = count_occ Nat.eq_dec hs h0
      /\ Forall (fun l => next (w_dom w) <= l
                          /\ anchor_of (w_dom w') h0 (n_id nh) l) links
      /\ next (w_dom w) <= next (w_dom w')
      /\ (forall r, r < next (w_dom w) -> r ∉ hs ->
          get (w_dom w') r = get (w_dom w) r).
Proof.
  induction hs as [|h hs IH]; intros w nh Hh0 Hid Hhs.
  - exists w, []. split; [done|].
    split; [by rewrite with_children_self|].
    split; [done|]. split; [constructor|]. by split.
  - apply Forall_cons in Hhs as [[nv Hh] Hhs].
    pose proof (get_lt _ _ _ Hh) as Hlt.
    pose proof (get_lt _ _ _ Hh0) as Hlt0.
    set (d := w_dom w) in *.
    set (d1 := heading_dom h d).
    set (w1 := with_dom d1 w).
    assert (forall r, r < next d -> r <> h -> get d1 r = get d r) as Hframe.
    { intros r Hr Hrh.
      destruct (heading_dom_facts h d nv r (get d r) Hh eq_refl)
        as (_ & _ & _ & Hg). by apply Hg. }
    destruct (heading_dom_facts h d nv 0 (get d 0) Hh eq_refl)
      as (N1 & Gh & Gl & _).
    fold d1 in N1, Gh, Gl.
    assert (Forall (fun h' => is_Some (get d1 h')) hs) as Hhs1.
    { eapply Forall_impl; [exact Hhs|]. simpl. intros h' [nh' Hh'].
      destruct (decide (h' = h)) as [->|Hne]; [by rewrite Gh|].
      rewrite Hframe; [by rewrite Hh'| by eapply get_lt | done]. }
    assert (addHeadingAnchor h w = (Ok tt, w1)) as Hvisit
      by apply addHeadingAnchor_run.
    assert (w_dom w1 = d1) as Hw1 by done.
    clearbody w1. clearbody d1. subst d1.
    assert (Forall (fun h' => h' < next d) hs) as Hbelow.
    { eapply Forall_impl; [exact Hhs|]. simpl. intros h' [nh' Hh'].
      by eapply get_lt. }
    assert (next d ∉ hs) as Hfresh.
    { intros Hin. eapply Forall_forall in Hbelow; [|exact Hin]. lia. }
    destruct (decide (h = h0)) as [->|Hne].
    + (* the heading itself is visited *)
      assert (nv = nh) as -> by congruence.
      rewrite (anchor_id_kept d h0 nh Hh0 Hid) in Gh, Gl.
      destruct (IH w1 _ Gh Hid Hhs1)
        as (w' & links & Hrun & Gh' & Hlen & Hlinks & Hn' & Hfr').
      cbn [n_id n_children] in *.
      exists w', (next d :: links).
      split; [|split; [|split; [|split; [|split]]]].
      * cbn [forEach]. by rewrite (run_bind _ _ w tt w1 Hvisit).
      * rewrite Gh'. unfold with_children. simpl. by rewrite <- app_assoc.
      * simpl. destruct (Nat.eq_dec h0 h0); [|done]. by rewrite Hlen.
      * constructor.
        -- split; [done|]. exists (S (next d)).
           rewrite Hfr' by (done || lia). exact Gl.
        -- eapply Forall_impl; [exact Hlinks|]. simpl.
           intros l [Hl Ha]. split; [lia | done].
      * lia.
      * intros r Hr Hnot. apply not_elem_of_cons in Hnot as [Hr0 Hrs].
        rewrite Hfr' by (done || lia). by apply Hframe.
    + (* another heading is visited *)
      assert (get (w_dom w1) h0 = Some nh) as Gh0 by (rewrite Hframe; done).
      destruct (IH w1 _ Gh0 Hid Hhs1)
        as (w' & links & Hrun & Gh' & Hlen & Hlinks & Hn' & Hfr').
      exists w', links. split; [|split; [|split; [|split; [|split]]]].
      * cbn [forEach]. by rewrite (run_bind _ _ w tt w1 Hvisit).
      * exact Gh'.
      * simpl. destruct (Nat.eq_dec h h0); [done|]. exact Hlen.
      * eapply Forall_impl; [exact Hlinks|]. simpl.
        intros l [Hl Ha]. split; [lia | done].
      * lia.
      * intros r Hr Hnot. apply not_elem_of_cons in Hnot as [Hr0 Hrs].
        rewrite Hfr' by (done || lia). by apply Hframe.
Qed.

Lemma querySelectorAll_is_Some d root tags :
  Forall (fun h => is_Some (get d h)) (querySelectorAll d root tags).
Proof.
  apply Forall_forall. intros h Hin.
  apply list_elem_of_In, filter_In in Hin as [_ Hin].
  unfold has_tag, tag in Hin.
  by destruct (get d h) eqn:E.
Qed.

End HeadingFacts.

Section Headings.
Import DOM DomFacts Page Aux Run Frame HeadingFacts.

(** C8, amended.  A run of the augmenter over a container leaves the
    id of a heading that has one as it is, and appends one new anchor
    link to that heading: a link is added whether or not the heading
    already ends with one. *)
Theorem addHeadingAnchors_rerun (w : world) (container h0 : ref) :
  let d := w_dom w in
  let hs := DOM.querySelectorAll d container
              ["h1"; "h2"; "h3"; "h4"; "h5"; "h6"] in
  h0 ∈ hs -> NoDup hs -> DOM.id d h0 <> "" ->
  exists w' link,
    addHeadingAnchors container w = (Ok tt, w')
    /\ DOM.id (w_dom w') h0 = DOM.id d h0
    /\ DOM.children (w_dom w') h0 = (DOM.children d h0 ++ [link])%list
    /\ DOM.get d link = None
    /\ DOM.tag (w_dom w') link = Some "a"
    /\ DOM.className (w_dom w') link = "docs-anchor"
    /\ DOM.attr (w_dom w') link "href" = Some ("#" ++ DOM.id d h0)
    /\ DOM.parentElement (w_dom w') link = Some h0.
Proof.
  intros d hs Hin Hnd Hid.
  pose proof (querySelectorAll_is_Some d container
                ["h1"; "h2"; "h3"; "h4"; "h5"; "h6"]) as Hall.
  fold hs in Hall.
  destruct (proj1 (Forall_forall _ _) Hall h0 Hin) as [nh Hh0].
  assert (Str.is_empty (n_id nh) = false) as Hne.
  { unfold DOM.id in Hid. fold d in Hid. rewrite Hh0 in Hid.
    by destruct (n_id nh). }
  destruct (anchors_loop h0 hs w nh Hh0 Hne Hall)
    as (w' & links & Hrun & Gh & Hlen & Hlinks & _ & _).
  assert (count_occ Nat.eq_dec hs h0 = 1) as Hone.
  { apply (proj1 (NoDup_count_occ' Nat.eq_dec hs));
      [by apply NoDup_ListNoDup | by apply list_elem_of_In]. }
  rewrite Hone in Hlen.
  destruct links as [|link [|? ?]]; try discriminate.
  apply Forall_cons in Hlinks as [[Hfresh [t Hlink]] _].
  exists w', link.
  split.
  { unfold addHeadingAnchors. rewrite run_dom_read. exact Hrun. }
  unfold DOM.id, children, tag, className, attr, parentElement.
  fold d. rewrite Gh, Hh0, Hlink. cbn.
  repeat split; try done. by apply get_ge.
Qed.

(** C9, amended.  A heading without an id is given the slug of its
    text, whatever ids other headings have: two headings without an id
    whose text is the same when they are visited get the same id. *)
Theorem addHeadingAnchor_same_text_same_id (w1 w2 : world) (h1 h2 : ref) :
  is_Some (DOM.get (w_dom w1) h1) ->
  is_Some (DOM.get (w_dom w2) h2) ->
  DOM.id (w_dom w1) h1 = "" ->
  DOM.id (w_dom w2) h2 = "" ->
  DOM.textContent (w_dom w1) h1 = DOM.textContent (w_dom w2) h2 ->
  let w1' := snd (addHeadingAnchor h1 w1) in
  let w2' := snd (addHeadingAnchor h2 w2) in
  fst (addHeadingAnchor h1 w1) = Ok tt
  /\ fst (addHeadingAnchor h2 w2) = Ok tt
  /\ DOM.id (w_dom w1') h1 = slugify (DOM.textContent (w_dom w1) h1)
  /\ DOM.id (w_dom w2') h2 = DOM.id (w_dom w1') h1.
Proof.
  intros [n1 H1] [n2 H2] E1 E2 Htext w1' w2'. subst w1' w2'.
  rewrite !addHeadingAnchor_run. cbn [fst snd]. rewrite !w_dom_with_dom.
  destruct (heading_dom_facts h1 (w_dom w1) n1 0 _ H1 eq_refl)
    as (_ & G1 & _).
  destruct (heading_dom_facts h2 (w_dom w2) n2 0 _ H2 eq_refl)
    as (_ & G2 & _).
  unfold DOM.id at 1 2 3. rewrite G1, G2. cbn [n_id].
  unfold anchor_id. rewrite E1, E2, Htext. by cbn.
Qed.

End Headings.

(** C8, as stated, fails: after a first run the first heading has its
    id and one anchor link; a second run keeps the id and appends a
    second anchor link. *)
Lemma addHeadingAnchors_rerun_duplicates_anchor :
  let w1 := snd (addHeadingAnchors Sample.content (Sample.rendered "setup")) in
  let w2 := snd (addHeadingAnchors Sample.content w1) in
  DOM.id (w_dom w1) 2 = "setup"
  /\ DOM.anchors (w_dom w1) 2 = [6]
  /\ DOM.id (w_dom w2) 2 = "setup"
  /\ DOM.anchors (w_dom w2) 2 = [6; 10].
Proof. vm_compute. by repeat split. Qed.

Lemma addHeadingAnchors_rerun_witness :
  let w1 := snd (addHeadingAnchors Sample.content (Sample.rendered "setup")) in
  exists w' link,
    addHeadingAnchors Sample.content w1 = (Ok tt, w')
    /\ DOM.id (w_dom w') 2 = DOM.id (w_dom w1) 2
    /\ DOM.children (w_dom w') 2 = (DOM.children (w_dom w1) 2 ++ [link])%list
    /\ DOM.get (w_dom w1) link = None
    /\ DOM.tag (w_dom w') link = Some "a"
    /\ DOM.className (w_dom w') link = "docs-anchor"
    /\ DOM.attr (w_dom w') link "href" = Some ("#" ++ DOM.id (w_dom w1) 2)
    /\ DOM.parentElement (w_dom w') link = Some 2.
Proof.
  intros w1. apply (addHeadingAnchors_rerun w1 Sample.content 2).
  - vm_compute. by left.
  - vm_compute. apply NoDup_ListNoDup. repeat constructor; simpl; lia.
  - vm_compute. discriminate.
Defined.

(** C9, as stated, fails: the two headings of the document have the
    text [Setup], and the augmenter gives both the id [setup]. *)
Lemma addHeadingAnchors_duplicate_text_same_id :
  let w0 := Sample.rendered "setup" in
  let w1 := snd (addHeadingAnchors Sample.content w0) in
  DOM.querySelectorAll (w_dom w0) Sample.content
    ["h1"; "h2"; "h3"; "h4"; "h5"; "h6"] = [2; 4]
  /\ DOM.textContent (w_dom w0) 2 = "Setup"
  /\ DOM.textContent (w_dom w0) 4 = "Setup"
  /\ DOM.id (w_dom w1) 2 = "setup"
  /\ DOM.id (w_dom w1) 4 = "setup".
Proof. vm_compute. by repeat split. Qed.

Lemma addHeadingAnchor_same_text_same_id_witness :
  let w1 := Sample.rendered "setup" in
  let w2 := snd (addHeadingAnchor 2 w1) in
  fst (addHeadingAnchor 2 w1) = Ok tt
  /\ fst (addHeadingAnchor 4 w2) = Ok tt
  /\ DOM.id (w_dom (snd (addHeadingAnchor 2 w1))) 2
     = slugify (DOM.textContent (w_dom w1) 2)
  /\ DOM.id (w_dom (snd (addHeadingAnchor 4 w2))) 4
     = DOM.id (w_dom (snd (addHeadingAnchor 2 w1))) 2.
Proof.
  intros w1 w2.
  apply (addHeadingAnchor_same_text_same_id w1 w2 2 4);
    vm_compute; (reflexivity || by eexists).
Defined.

(** ** Code blocks *)

Module MarkupFacts.
Import DOM DomFacts Page Aux Run.

Lemma html_nested_ind (P : html -> Prop) :
  (forall s, P (HText s)) ->
  (forall t i c a kids, Forall P kids -> P (HElem t i c a kids)) ->
  forall h, P h.
Proof.
  intros Htext Helem. fix IH 1. intros [s|t i c a kids]; [apply Htext|].
  apply Helem. induction kids as [|k kids IHk]; constructor;
    [apply IH | exact IHk].
Qed.

Lemma keeps_shell_refl o : keeps_shell o o.
Proof. by destruct o. Qed.

Lemma keeps_shell_trans o1 o2 o3 :
  keeps_shell o1 o2 -> keeps_shell o2 o3 -> keeps_shell o1 o3.
Proof.
  destruct o1, o2, o3; simpl; try done.
  intros (-> & -> & -> & ->) (-> & -> & -> & ->). done.
Qed.

Lemma keeps_shell_children o f :
  (forall n, n_kind (f n) = n_kind n /\ n_id (f n) = n_id n
             /\ n_class (f n) = n_class n /\ n_parent (f n) = n_parent n) ->
  keeps_shell o (f <$> o).
Proof. intros H. destruct o; simpl; [apply H | done]. Qed.

Lemma build_fold_old e kids :
  Forall build_old kids ->
  forall acc r, r < next acc -> r <> e ->
    next acc <= next (fold_left (fun a k => build e k a) kids acc)
    /\ get (fold_left (fun a k => build e k a) kids acc) r = get acc r.
Proof.
  induction 1 as [|k kids Hk _ IH]; intros acc r Hr Hre; [done|].
  cbn [fold_left].
  destruct (Hk e acc r Hr) as (Hn & Hg & _).
  destruct (IH (build e k acc) r) as (Hn' & Hg'); [lia | done |].
  split; [lia|]. rewrite Hg'. by apply Hg.
Qed.

Lemma build_keeps_old h : build_old h.
Proof.
  induction h as [s|t i c a kids IH] using html_nested_ind;
    intros p d r Hr; cbn [build]; unfold alloc.
  - rewrite next_update, next_insert_node. split; [lia|].
    rewrite get_update, get_insert_node_ne by lia. split.
    + intros Hne. by rewrite decide_False.
    + case_decide; [|apply keeps_shell_refl].
      by apply keeps_shell_children.
  - set (d1 := update p (add_child (next d)) (insert_node _ d)).
    assert (next d1 = S (next d)) as N1 by done.
    destruct (build_fold_old (next d) kids IH d1 r) as (Hn & Hg); [lia | lia |].
    split; [lia|]. rewrite Hg. unfold d1.
    rewrite get_update, get_insert_node_ne by lia. split.
    + intros Hne. by rewrite decide_False.
    + case_decide; [|apply keeps_shell_refl].
      by apply keeps_shell_children.
Qed.

Lemma get_remove_children r0 d r :
  get (remove_children r0 d) r
  = (if decide (r0 = r) then with_children [] else (fun n => n))
      <$> ((if decide (r ∈ children d r0) then with_parent None
            else (fun n => n)) <$> get d r).
Proof.
  unfold remove_children. rewrite get_update, get_foldr_detach.
  case_decide; [subst|]; by destruct (get d r).
Qed.

(** The nodes that were there before [innerHTML] is set: other than
    the element and its former children they are untouched; the
    element keeps all but its children. *)
Lemma set_innerHTML_old r0 frag d r :
  r < next d -> r ∉ children d r0 ->
  (r <> r0 -> get (set_innerHTML r0 frag d) r = get d r)
  /\ keeps_shell (get d r) (get (set_innerHTML r0 frag d) r).
Proof.
  intros Hr Hnot. unfold set_innerHTML.
  assert (forall acc,
             next d <= next acc ->
             next d <= next (fold_left (fun a k => build r0 k a) frag acc)
             /\ (r <> r0 ->
                 get (fold_left (fun a k => build r0 k a) frag acc) r
                 = get acc r)
             /\ keeps_shell (get acc r)
                  (get (fold_left (fun a k => build r0 k a) frag acc) r))
    as Hfold.
  { induction frag as [|k frag IH]; intros acc Hacc; cbn [fold_left].
    - split; [done|]. split; [done | apply keeps_shell_refl].
    - destruct (build_keeps_old k r0 acc r) as (Hn & Hg & Hk); [lia|].
      destruct (IH (build r0 k acc)) as (Hn' & Hg' & Hk'); [lia|].
      split; [done|]. split.
      + intros Hne. rewrite Hg' by done. by apply Hg.
      + eapply keeps_shell_trans; eassumption. }
  destruct (Hfold (remove_children r0 d)) as (_ & Hg & Hk).
  { by rewrite next_remove_children. }
  assert (get (remove_children r0 d) r
          = (if decide (r0 = r) then with_children [] else (fun n => n))
              <$> get d r) as Hrem.
  { rewrite get_remove_children. rewrite (decide_False (P := r ∈ _)) by done.
    by destruct (get d r). }
  split.
  - intros Hne. rewrite Hg by done. rewrite Hrem.
    rewrite decide_False by done. by destruct (get d r).
  - eapply keeps_shell_trans; [|exact Hk]. rewrite Hrem.
    case_decide; [|destruct (get d r); simpl; done].
    by apply keeps_shell_children.
Qed.

Lemma is_Some_update r f d r' :
  is_Some (get d r') -> is_Some (get (update r f d) r').
Proof. intros [n H]. rewrite get_update, H. case_decide; by eexists. Qed.

Lemma is_Some_insert_node n d r :
  is_Some (get d r) -> is_Some (get (insert_node n d) r).
Proof.
  intros [n' H]. pose proof (get_lt _ _ _ H).
  rewrite get_insert_node_ne by lia. by eexists.
Qed.

Lemma build_keeps_alloc h : build_alloc h.
Proof.
  induction h as [s|t i c a kids IH] using html_nested_ind;
    intros p d r Hr; cbn [build]; unfold alloc.
  - by apply is_Some_update, is_Some_insert_node.
  - set (d1 := update p (add_child (next d)) (insert_node _ d)).
    assert (is_Some (get d1 r)) as H1
      by by apply is_Some_update, is_Some_insert_node.
    clearbody d1. generalize (next d) as e. intros e.
    revert d1 H1. induction IH as [|k kids Hk _ IHk]; intros d1 H1; [done|].
    cbn [fold_left]. apply IHk. by apply Hk.
Qed.

Lemma set_innerHTML_alloc r0 frag d r :
  is_Some (get d r) -> is_Some (get (set_innerHTML r0 frag d) r).
Proof.
  intros Hr. unfold set_innerHTML.
  assert (is_Some (get (remove_children r0 d) r)) as H1.
  { destruct Hr as [n Hn]. rewrite get_remove_children, Hn.
    repeat case_decide; by eexists. }
  revert H1. generalize (remove_children r0 d) as acc.
  induction frag as [|k frag IH]; intros acc H1; [done|].
  cbn [fold_left]. apply IH. by apply build_keeps_alloc.
Qed.

End MarkupFacts.

Section Highlight.
Context (X : external).
Import DOM DomFacts Page Aux Run MarkupFacts.

(** A visit of a block that has a parent element: the block and the
    parent get the marker of the normalized tag, and the content of the
    block is replaced by the parsed markup of the highlighter exactly
    when the engine has a grammar under that tag. *)
Lemma highlightBlock_spec e code p w :
  let d := w_dom w in
  let marker := "language-" ++ to_string (blockLang d code) in
  parentElement d code = Some p ->
  is_Some (get d p) ->
  code ∉ children d code ->
  highlightBlock X (Some e) code w
  = (Ok tt, with_dom (highlight_dom X e code p d) w)
  /\ className (highlight_dom X e code p d) code = marker
  /\ className (highlight_dom X e code p d) p = marker.
Proof.
  intros d marker Hp Hpa Hself.
  unfold parentElement in Hp. fold d in Hp.
  destruct (get d code) as [nc|] eqn:Hc; [|discriminate].
  pose proof (get_lt _ _ _ Hc) as Hlt.
  unfold highlight_dom. fold marker.
  set (lang := to_string (blockLang d code)) in *.
  set (d1 := match languages e !! lang with Some g => _ | None => d end).
  assert (is_Some (get d1 p) /\ keeps_shell (get d code) (get d1 code))
    as [Hp1 Hk1].
  { unfold d1. destruct (languages e !! lang) as [g|].
    - split; [by apply set_innerHTML_alloc|].
      by apply set_innerHTML_old.
    - split; [done | apply keeps_shell_refl]. }
  rewrite Hc in Hk1. destruct (get d1 code) as [nc1|] eqn:Hc1; [|done].
  destruct Hk1 as (_ & _ & _ & Hpar). rewrite Hp in Hpar.
  destruct Hp1 as [np1 Hp1].
  split; [|split].
  - unfold highlightBlock. rewrite run_dom_read. fold d lang.
    rewrite run_ret.
    assert (forall (m : M unit) w1,
               m w = (Ok tt, w1) ->
               w_dom w1 = d1 ->
               (forall x, with_dom x w1 = with_dom x w) ->
               (m;; dom_write (set_className code marker);;
                parent ← dom_read (fun d0 => parentElement d0 code);
                match parent with
                | Some p0 => dom_write (set_className p0 marker)
                | None => throw (TypeError "code.parentElement is null")
                end) w
               = (Ok tt,
                  with_dom (set_className p marker
                              (set_className code marker d1)) w)) as Hrest.
    { intros m w1 Hm Hd1 Hw1. rewrite (run_bind _ _ _ tt _ Hm).
      rewrite run_write, run_dom_read, !w_dom_with_dom, Hd1.
      unfold parentElement at 1, set_className at 1.
      rewrite get_update_eq, Hc1. cbn. rewrite Hpar.
      by rewrite end_write, w_dom_with_dom, with_dom_with_dom, Hw1. }
    unfold d1 in *.
    destruct (languages e !! lang) as [g|].
    + eapply Hrest; [by rewrite run_dom_read, end_write | done | done].
    + by eapply Hrest.
  - unfold className, set_className. rewrite get_update.
    case_decide; [subst; by rewrite get_update_eq, Hc1|].
    by rewrite get_update_eq, Hc1.
  - unfold className, set_className. rewrite get_update_eq, get_update.
    case_decide; [subst; by rewrite Hp1|]. by rewrite Hp1.
Qed.


(** A block whose class is [language-js] gets the marker
    [language-javascript]. *)
Lemma blockLang_js d code :
  List.find (Str.startsWith "language-") (classList d code)
  = Some "language-js" ->
  "language-" ++ to_string (blockLang d code) = "language-javascript".
Proof. unfold blockLang. by intros ->. Qed.

End Highlight.

Example highlightCodeBlocks_guide :
  let r := highlightCodeBlocks Sample.site Sample.content
             (Some Sample.loaded_engine) (Sample.rendered "guide") in
  fst r = Ok tt
  /\ DOM.className (w_dom (snd r)) 7 = "language-javascript"
  /\ DOM.className (w_dom (snd r)) 6 = "language-javascript"
  /\ DOM.textContent (w_dom (snd r)) 7 = "let x = 1;".
Proof. vm_compute. by repeat split. Qed.

(** C7, at the failing input.  The document holds a highlighted block
    3 with a [code] element 5 as a direct child, and a later block 8
    tagged [js].  Replacing the content of block 3 detaches element 5,
    which the static list of blocks still holds; when it is visited its
    [parentElement] is [null] and the callback throws.  The iteration
    ends there: block 8 keeps the class [language-js] and its enclosing
    element gets no marker. *)
Theorem highlightCodeBlocks_nested_block_throws :
  let w := Sample.rendered "nested" in
  let r := highlightCodeBlocks Sample.site Sample.content
             (Some Sample.loaded_engine) w in
  DOM.querySelectorAll_within (w_dom w) Sample.content "pre" "code"
  = [3; 5; 8]
  /\ fst r = Throw (TypeError "code.parentElement is null")
  /\ DOM.parentElement (w_dom (snd r)) 5 = None
  /\ DOM.className (w_dom (snd r)) 8 = "language-js"
  /\ DOM.className (w_dom (snd r)) 7 = "".
Proof. vm_compute. by repeat split. Qed.

(* ================================================================== *)
(** * Further properties

    What the code does beyond the statements of the specification:
    further properties, numbered from X1, read off the source. *)

(** ** More on slugs *)

Module SlugFacts.
Import Str Aux StrFacts.











Lemma collapse_true_first m : first (collapse_nonword true m) <> Some "-"%char.
Proof. apply separated_true_first, collapse_separated. Qed.



End SlugFacts.

(** X1. The slugs are the fixed points of [slugify]: a string is its
    own slug exactly when it is made of lower-case ASCII letters,
    digits, underscores and hyphens, has no hyphen first or last, and
    no two hyphens in a row. *)
Theorem slugify_fixed_points (s : string) :
  slugify s = s
  <-> Str.forallb Aux.slug_char s = true
      /\ Aux.separated true s = true
      /\ Str.last s <> Some "-"%char.
Proof.
  split.
  - intros <-. split; [apply slugify_slug_chars|].
    split; [apply slugify_separated | apply slugify_last].
  - intros (Hc & Hs & Hl). by apply slugify_fixed.
Qed.




(** ** More on the language normalizer *)

Module NormalFacts.
Import Str Aux StrFacts LangFacts.

Lemma lower_char_twice c : lower_char (lower_char c) = lower_char c.
Proof. each_char c. Qed.

Lemma toLowerCase_twice s : toLowerCase (toLowerCase s) = toLowerCase s.
Proof.
  induction s as [|c r IH]; [done|].
  unfold toLowerCase in *. simpl. by rewrite lower_char_twice, IH.
Qed.

Lemma toLowerCase_trimStart s :
  toLowerCase (trimStart s) = trimStart (toLowerCase s).
Proof.
  induction s as [|c r IH]; [done|].
  unfold toLowerCase in *. simpl. rewrite lower_char_space.
  by destruct (is_space c).
Qed.

Lemma toLowerCase_trimEnd s :
  toLowerCase (trimEnd s) = trimEnd (toLowerCase s).
Proof.
  induction s as [|c r IH]; [done|].
  unfold toLowerCase in *. simpl. rewrite lower_char_space, <- IH.
  destruct (trimEnd r); simpl; [by destruct (is_space c) | done].
Qed.

Lemma toLowerCase_trim s : toLowerCase (trim s) = trim (toLowerCase s).
Proof. unfold trim. by rewrite toLowerCase_trimEnd, toLowerCase_trimStart. Qed.

Lemma trimEnd_twice s : trimEnd (trimEnd s) = trimEnd s.
Proof.
  induction s as [|c r IH]; [done|]. simpl.
  destruct (trimEnd r) as [|c' r'] eqn:E.
  - destruct (is_space c) eqn:Hc; [done|]. simpl. by rewrite Hc.
  - remember (String c' r') as t eqn:Ht. simpl.
    rewrite IH. by subst t.
Qed.

Lemma trimStart_clean s : starts_clean (trimStart s) = true.
Proof.
  induction s as [|c r IH]; [done|]. simpl.
  destruct (is_space c) eqn:Hc; [done|]. simpl. by rewrite Hc.
Qed.

Lemma trimEnd_clean s : starts_clean s = true -> starts_clean (trimEnd s) = true.
Proof.
  destruct s as [|c r]; [done|]. simpl. intros Hc.
  destruct (trimEnd r); [|done].
  apply negb_true_iff in Hc. by rewrite Hc; simpl; rewrite Hc.
Qed.

Lemma trimStart_fixed s : starts_clean s = true -> trimStart s = s.
Proof.
  destruct s as [|c r]; [done|]. simpl. intros Hc.
  apply negb_true_iff in Hc. by rewrite Hc.
Qed.

Lemma trim_twice s : trim (trim s) = trim s.
Proof.
  unfold trim. rewrite (trimStart_fixed (trimEnd _)).
  - apply trimEnd_twice.
  - apply trimEnd_clean, trimStart_clean.
Qed.

(** Lower-casing and trimming a normal form gives it back. *)
Lemma normal_form_fixed s :
  trim (toLowerCase (trim (toLowerCase s))) = trim (toLowerCase s).
Proof. by rewrite toLowerCase_trim, toLowerCase_twice, trim_twice. Qed.

(** No canonical name is an alias, and none is changed by the
    normalizer. *)
Lemma canonical_fixed tag canonical :
  LANG_MAP !! tag = Some canonical ->
  normalizeLang (Some canonical) = VString canonical
  /\ LANG_MAP !! canonical = None.
Proof.
  intros H. apply elem_of_list_to_map_2 in H.
  repeat (apply elem_of_cons in H as [[= -> ->]|H]; [by vm_compute|]).
  by apply elem_of_nil in H.
Qed.

(** Every property of [Object.prototype] is truthy and none is a
    string. *)
Lemma inherited_truthy key v :
  Object_prototype !! key = Some v ->
  truthy v = true /\ forall s, v <> VString s.
Proof.
  intros H. apply elem_of_list_to_map_2 in H.
  repeat (apply elem_of_cons in H as [[= -> ->]|H]; [by split|]).
  by apply elem_of_nil in H.
Qed.

End NormalFacts.

(** X4. A non-empty string that the normalizer returns is in normal
    form: normalizing it again gives it back, and it is not one of the
    aliases of [LANG_MAP]. *)
Theorem normalizeLang_idempotent (tag : option string) (r : string) :
  normalizeLang tag = VString r -> r <> "" ->
  normalizeLang (Some r) = VString r /\ LANG_MAP !! r = None.
Proof.
  intros Hr Hne.
  assert (normalizeLang (Some "javascript") = VString "javascript"
          /\ LANG_MAP !! "javascript" = None) as Hjs by (by vm_compute).
  destruct tag as [s|]; [|by injection Hr as <-].
  unfold normalizeLang in Hr.
  destruct (Str.is_empty s); [by injection Hr as <-|].
  cbv zeta in Hr.
  pose proof (NormalFacts.normal_form_fixed s) as Hfix.
  set (l := Str.trim (Str.toLowerCase s)) in *.
  unfold LANG_MAP_get in Hr.
  destruct (LANG_MAP !! l) as [c|] eqn:Ha.
  - destruct (LangFacts.alias_normal_form _ _ Ha) as (_ & _ & Hc).
    simpl in Hr. rewrite Hc in Hr. injection Hr as <-.
    by apply (NormalFacts.canonical_fixed l).
  - destruct (Object_prototype !! l) as [v|] eqn:Hp; simpl in Hr.
    + destruct (NormalFacts.inherited_truthy _ _ Hp) as [Ht Hv].
      rewrite Ht in Hr. by destruct (Hv r).
    + injection Hr as <-. split; [|done].
      unfold normalizeLang, LANG_MAP_get.
      destruct (Str.is_empty l) eqn:He; [by destruct l|].
      by rewrite Hfix, Ha, Hp.
Qed.

Lemma normalizeLang_idempotent_witness :
  normalizeLang (Some "javascript") = VString "javascript"
  /\ LANG_MAP !! "javascript" = None.
Proof.
  apply (normalizeLang_idempotent (Some " JS ") "javascript");
    [reflexivity | discriminate].
Defined.

(** ** The requests of the loader *)

Module LoaderFacts.
Import Page Aux Run.

Section WithSite.
Context (X : external).

Lemma import_run url w :
  import X url w
  = match import_script X url (w_prism w) with
    | Some p => (Ok tt, with_prism p (log (EImport url) w))
    | None => (Throw (ImportError url), log (EImport url) w)
    end.
Proof. reflexivity. Qed.

Lemma w_trace_log ev w : w_trace (log ev w) = (w_trace w ++ [ev])%list.
Proof. reflexivity. Qed.
Lemma w_trace_with_prism p w : w_trace (with_prism p w) = w_trace w.
Proof. reflexivity. Qed.
Lemma w_dom_with_prism p w : w_dom (with_prism p w) = w_dom w.
Proof. reflexivity. Qed.

(** Every import of the list is requested, whatever becomes of the
    others. *)
Lemma import_all_requests urls w :
  w_trace (snd (import_all X urls w))
    = (w_trace w ++ List.map EImport urls)%list
  /\ w_dom (snd (import_all X urls w)) = w_dom w.
Proof.
  revert w. induction urls as [|u rest IH]; intros w.
  - simpl. by rewrite app_nil_r.
  - cbn [import_all List.map]. rewrite import_run.
    destruct (import_script X u (w_prism w)) as [p|].
    + destruct (IH (with_prism p (log (EImport u) w))) as [-> ->].
      split; [|done].
      by rewrite w_trace_with_prism, w_trace_log, <- app_assoc.
    + cbn [snd]. destruct (IH (log (EImport u) w)) as [-> ->].
      split; [|done]. by rewrite w_trace_log, <- app_assoc.
Qed.

Lemma loadPrism_run base w :
  w_prism w = None -> w_hlx w = Some base ->
  loadPrism X w
  = (import X ((base ++ "/scripts/lib") ++ "/prism.min.js");;
     set_manual;;
     import_all X
       (List.map (fun g => (base ++ "/scripts/lib") ++ "/" ++ g) grammars);;
     read w_prism) w.
Proof.
  intros Hp Hh. unfold loadPrism at 1.
  rewrite run_read, Hp. unfold mbind at 1, M_bind at 1, codeBasePath.
  rewrite Hh. reflexivity.
Qed.

End WithSite.

Section FirstRun.
Context (X : external).

Lemma snd_bind {A B} (m : M A) (k : A -> M B) w :
  snd ((m ≫= k) w)
  = match m w with
    | (Ok a, w1) => snd (k a w1)
    | (Throw _, w1) => w1
    end.
Proof. unfold mbind, M_bind. by destruct (m w) as [[a|e] w1]. Qed.

Lemma snd_then_read {A B} (m : M A) (f : world -> B) w :
  snd ((m;; read f) w) = snd (m w).
Proof. rewrite snd_bind. by destruct (m w) as [[a|e] w1]. Qed.

(** With modules that never remove the engine they find, the engine
    stays. *)
Lemma import_all_keeps_engine urls w :
  (forall url p, import_script X url (Some p) <> Some None) ->
  is_Some (w_prism w) ->
  is_Some (w_prism (snd (import_all X urls w))).
Proof.
  intros Hk. revert w. induction urls as [|u rest IH]; intros w Hw; [done|].
  cbn [import_all]. rewrite import_run.
  destruct Hw as [p Hp]. rewrite Hp.
  destruct (import_script X u (Some p)) as [[p'|]|] eqn:E.
  - apply IH. by eexists.
  - by destruct (Hk u p).
  - cbn [snd]. apply IH. by exists p.
Qed.

Lemma loadPrism_first_run base w :
  w_prism w = None -> w_hlx w = Some base ->
  let lib := base ++ "/scripts/lib" in
  let core := lib ++ "/prism.min.js" in
  loadPrism X w
  = match import_script X core None with
    | None => (Throw (ImportError core), log (EImport core) w)
    | Some None =>
        (Throw (TypeError "window.Prism is undefined"),
         with_prism None (log (EImport core) w))
    | Some (Some e0) =>
        (import_all X (List.map (fun g => lib ++ "/" ++ g) grammars);;
         read w_prism)
          (with_prism (Some (Engine true (languages e0)))
             (with_prism (Some e0) (log (EImport core) w)))
    end.
Proof.
  intros Hp Hh lib core. rewrite (loadPrism_run X base w Hp Hh).
  unfold mbind at 1, M_bind at 1. rewrite import_run, Hp. fold lib core.
  by destruct (import_script X core None) as [[e0|]|].
Qed.

End FirstRun.

End LoaderFacts.

Section LoaderRequests.
Import Page Aux Run LoaderFacts.

(** X5. The first call of the loader, with no engine loaded.  Without
    [window.hlx] it throws a [TypeError] and requests nothing.
    Otherwise it never touches the DOM and requests the engine module
    first; when that import rejects, or the module leaves [window.Prism]
    undefined, it throws and requests nothing else; when the module
    installed an engine, the seven grammar modules are requested in the
    order of the list, all of them, whether or not one of them fails. *)
Theorem loadPrism_requests (X : external) (w : world) :
  w_prism w = None ->
  let r := loadPrism X w in
  match w_hlx w with
  | None => r = (Throw (TypeError "window.hlx is undefined"), w)
  | Some base =>
      let lib := base ++ "/scripts/lib" in
      let core := lib ++ "/prism.min.js" in
      w_dom (snd r) = w_dom w
      /\ match import_script X core None with
         | None =>
             fst r = Throw (ImportError core)
             /\ w_trace (snd r) = (w_trace w ++ [EImport core])%list
         | Some None =>
             fst r = Throw (TypeError "window.Prism is undefined")
             /\ w_trace (snd r) = (w_trace w ++ [EImport core])%list
         | Some (Some _) =>
             w_trace (snd r)
             = (w_trace w
                ++ EImport core
                   :: List.map (fun g => EImport (lib ++ "/" ++ g)) grammars)%list
         end
  end.
Proof.
  intros Hp r. subst r. destruct (w_hlx w) as [base|] eqn:Hh.
  - cbv zeta. rewrite (loadPrism_first_run X base w Hp Hh). cbv zeta.
    set (lib := base ++ "/scripts/lib"). set (core := lib ++ "/prism.min.js").
    destruct (import_script X core None) as [[e0|]|]; try done.
    rewrite snd_then_read.
    match goal with
    | |- context [import_all X ?urls ?w0] =>
        destruct (import_all_requests X urls w0) as [-> ->]
    end.
    split; [done|].
    rewrite !w_trace_with_prism, w_trace_log, List.map_map.
    by rewrite <- app_assoc.
  - unfold loadPrism, mbind, M_bind, read, codeBasePath. by rewrite Hp, Hh.
Qed.

Lemma loadPrism_requests_witness :
  let r := loadPrism Sample.site (Sample.page "guide") in
  w_dom (snd r) = Sample.page_dom "guide"
  /\ w_trace (snd r)
     = EImport "/app/scripts/lib/prism.min.js"
       :: List.map (fun g => EImport ("/app/scripts/lib" ++ "/" ++ g)) grammars.
Proof.
  exact (loadPrism_requests Sample.site (Sample.page "guide") eq_refl).
Defined.

(** X6. A load is not retried.  When the engine module installed an
    engine and no module removes it, the engine is in place after the
    first call whether or not a grammar import failed, and the next call
    returns it at once without a request: a grammar that failed to load
    stays missing. *)
Theorem loadPrism_partial_load_sticks (X : external) (w : world)
    (base : string) (e0 : engine) :
  w_prism w = None -> w_hlx w = Some base ->
  import_script X ((base ++ "/scripts/lib") ++ "/prism.min.js") None
  = Some (Some e0) ->
  (forall url p, import_script X url (Some p) <> Some None) ->
  let w1 := snd (loadPrism X w) in
  exists P, w_prism w1 = Some P /\ loadPrism X w1 = (Ok (Some P), w1).
Proof.
  intros Hp Hh Hcore Hk w1.
  assert (is_Some (w_prism w1)) as [P HP].
  { subst w1. rewrite (loadPrism_first_run X base w Hp Hh). cbv zeta.
    rewrite Hcore, snd_then_read. apply import_all_keeps_engine; [exact Hk|].
    by eexists. }
  exists P. split; [done|]. by apply loadPrism_loaded.
Qed.

Lemma loadPrism_partial_load_sticks_witness :
  let w1 := snd (loadPrism Sample.site (Sample.page "guide")) in
  exists P, w_prism w1 = Some P /\ loadPrism Sample.site w1 = (Ok (Some P), w1).
Proof.
  apply (loadPrism_partial_load_sticks Sample.site (Sample.page "guide")
           "/app" (Engine false ∅)); try reflexivity.
  intros url p. unfold Sample.site, import_script, Sample.modules.
  destruct (String.eqb url _); [done|].
  destruct (List.find _ _) as [[? ?]|]; done.
Defined.

End LoaderRequests.

(** ** The requests of the entry point *)

Module TraceFacts.
Import Page Aux Run LoaderFacts.

Section Emits.
Context (I : world -> Prop) (P : event -> Prop) (HI : steady I).

Lemma emits_silent {A} (m : M A) :
  (forall w, I w -> I (snd (m w)) /\ w_trace (snd (m w)) = w_trace w) ->
  emits I P m.
Proof.
  intros H w Hw. destruct (H w Hw) as [Hi Ht]. split; [done|].
  exists []. by rewrite app_nil_r.
Qed.

Lemma emits_ret {A} (a : A) : emits I P (mret a).
Proof. by apply emits_silent. Qed.

Lemma emits_throw {A} e : emits I P (throw e : M A).
Proof. by apply emits_silent. Qed.

Lemma emits_read {A} (f : world -> A) : emits I P (read f).
Proof. by apply emits_silent. Qed.

Lemma emits_dom_read {A} (f : dom -> A) : emits I P (dom_read f).
Proof. by apply emits_silent. Qed.

Lemma emits_dom_write f : emits I P (dom_write f).
Proof.
  apply emits_silent. intros w Hw. split; [|done]. by apply (HI w Hw).
Qed.

Lemma emits_create t : emits I P (createElement t).
Proof.
  apply emits_silent. intros w Hw. split; [|done]. by apply (HI w Hw).
Qed.

Lemma emits_codeBasePath : emits I P codeBasePath.
Proof.
  apply emits_silent. intros w Hw. unfold codeBasePath.
  by destruct (w_hlx w).
Qed.

Lemma emits_emit ev : P ev -> emits I P (emit ev).
Proof.
  intros Hev w Hw. split; [by apply (HI w Hw)|].
  exists [ev]. split; [done|]. by constructor.
Qed.

Lemma emits_bind {A B} (m : M A) (k : A -> M B) :
  emits I P m -> (forall a, emits I P (k a)) -> emits I P (m ≫= k).
Proof.
  intros Hm Hk w Hw. rewrite snd_bind.
  destruct (Hm w Hw) as (Hi & evs & Ht & Hp).
  destruct (m w) as [[a|e] w1]; cbn [snd] in *.
  - destruct (Hk a w1 Hi) as (Hi2 & evs2 & Ht2 & Hp2). split; [done|].
    exists (evs ++ evs2)%list. rewrite Ht2, Ht, <- app_assoc.
    split; [done|]. by apply Forall_app.
  - split; [done|]. by exists evs.
Qed.

Lemma emits_forEach {A} (l : list A) (f : A -> M unit) :
  (forall x, emits I P (f x)) -> emits I P (forEach l f).
Proof.
  intros Hf. induction l as [|x l IH]; [apply emits_ret|].
  cbn [forEach]. apply emits_bind; [apply Hf | intros _; exact IH].
Qed.

Lemma emits_try_catch {A} (body : M A) (handler : error -> M A) :
  emits I P body -> (forall e, emits I P (handler e)) ->
  emits I P (try_catch body handler).
Proof.
  intros Hb Hh w Hw. unfold try_catch.
  destruct (Hb w Hw) as (Hi & evs & Ht & Hp).
  destruct (body w) as [[a|e] w1]; cbn [snd] in *.
  - split; [done|]. by exists evs.
  - destruct (Hh e w1 Hi) as (Hi2 & evs2 & Ht2 & Hp2). split; [done|].
    exists (evs ++ evs2)%list. rewrite Ht2, Ht, <- app_assoc.
    split; [done|]. by apply Forall_app.
Qed.

End Emits.

Ltac emits_step :=
  first
    [ apply emits_ret | apply emits_throw | apply emits_read
    | apply emits_dom_read | apply emits_dom_write; assumption
    | apply emits_create; assumption | apply emits_codeBasePath
    | apply emits_emit; [assumption | solve [auto] ]
    | apply emits_bind; [|intros ?]
    | apply emits_forEach; intros ?
    | match goal with
      | |- emits _ _ (match ?x with _ => _ end) => destruct x
      end ].

Section Augmenters.
Context (I : world -> Prop) (P : event -> Prop) (HI : steady I).

Lemma emits_highlightCodeBlocks X container Prism :
  emits I P (highlightCodeBlocks X container Prism).
Proof.
  unfold highlightCodeBlocks, highlightBlock. repeat emits_step.
Qed.

Lemma emits_addHeadingAnchors container :
  emits I P (addHeadingAnchors container).
Proof.
  unfold addHeadingAnchors, addHeadingAnchor. repeat emits_step.
Qed.

Lemma emits_addCopyButtons container :
  (forall r, P (EListen r "click")) ->
  emits I P (addCopyButtons container).
Proof.
  intros HP. unfold addCopyButtons, addCopyButton. repeat emits_step.
Qed.

Lemma emits_buildTOC container :
  (forall r, P (EListen r "click")) -> (forall r, P (EObserve r)) ->
  emits I P (buildTOC container).
Proof.
  intros HP1 HP2. unfold buildTOC, addTocEntry. repeat emits_step.
Qed.

End Augmenters.

Lemma bind_assoc {A B C} (m : M A) (f : A -> M B) (k : B -> M C) w :
  ((m ≫= f) ≫= k) w = (m ≫= (fun a => f a ≫= k)) w.
Proof. unfold mbind, M_bind. by destruct (m w) as [[a|e] w1]. Qed.

Section LoaderEmits.
Context (I : world -> Prop) (P : event -> Prop) (HI : steady I).

Lemma emits_read_bind {A B} (f : world -> A) (k : A -> M B) :
  (forall w0, I w0 -> emits I P (k (f w0))) -> emits I P (read f ≫= k).
Proof. intros H w Hw. rewrite run_read. by apply H. Qed.

Context (X : external).
Context (HIp : forall w p, I w -> I (with_prism p w)).
Context (HPi : forall url, P (EImport url)).

Lemma emits_import url : emits I P (import X url).
Proof.
  intros w Hw. rewrite import_run.
  destruct (import_script X url (w_prism w)) as [p|]; cbn [snd].
  - split; [by apply HIp, (HI w Hw)|]. exists [EImport url].
    split; [done|]. by constructor.
  - split; [by apply (HI w Hw)|]. exists [EImport url].
    split; [done|]. by constructor.
Qed.

Lemma emits_set_manual : emits I P set_manual.
Proof.
  apply emits_silent. intros w Hw. unfold set_manual.
  destruct (w_prism w); cbn [snd]; [|done]. split; [by apply HIp|done].
Qed.

Lemma emits_import_all urls : emits I P (import_all X urls).
Proof.
  induction urls as [|u rest IH]; [apply emits_ret|].
  intros w Hw. cbn [import_all].
  destruct (emits_import u w Hw) as (Hi & evs & Ht & Hp).
  assert (snd (match import X u w with
               | (Ok _, w1) => import_all X rest w1
               | (Throw e, w1) => (Throw e, snd (import_all X rest w1))
               end)
          = snd (import_all X rest (snd (import X u w)))) as ->.
  { by destruct (import X u w) as [[a|e] w1]. }
  destruct (IH _ Hi) as (Hi2 & evs2 & Ht2 & Hp2). split; [done|].
  exists (evs ++ evs2)%list. rewrite Ht2, Ht, <- app_assoc.
  split; [done|]. by apply Forall_app.
Qed.

Lemma emits_loadPrism : emits I P (loadPrism X).
Proof.
  unfold loadPrism.
  repeat first [ apply emits_import | apply emits_set_manual
               | apply emits_import_all | emits_step ].
Qed.

End LoaderEmits.

Ltac emits_more :=
  first
    [ apply emits_highlightCodeBlocks; assumption
    | apply emits_addCopyButtons; [assumption | solve [auto] ]
    | apply emits_addHeadingAnchors; assumption
    | apply emits_buildTOC; [assumption | solve [auto] | solve [auto] ]
    | assumption
    | match goal with
      | |- emits _ _ (if ?b then _ else _) => destruct b
      | |- emits _ _ (let '(_, _) := ?x in _) => destruct x
      end
    | emits_step ].

Section Render.
Context (I : world -> Prop) (P : event -> Prop) (HI : steady I).
Context (X : external).
Context (HL : emits I P (loadPrism X)).
Context (HPl : forall r, P (EListen r "click")).
Context (HPo : forall r, P (EObserve r)).
Context (HPt : forall w0 t,
            I w0 -> Str.is_empty (w_hash w0) = false -> P (ETimeout 100 t)).
Context (HPc : forall e, P (EConsoleError e)).

Lemma emits_scroll :
  emits I P
    (hash ← read w_hash;
     if Str.is_empty hash then mret tt
     else
       target ← read (fun w =>
                        DOM.getElementById (w_dom w) (w_document w)
                          (Str.drop 1 hash));
       match target with
       | Some t => emit (ETimeout 100 t)
       | None => mret tt
       end).
Proof.
  apply emits_read_bind. intros w0 Hw0.
  destruct (Str.is_empty (w_hash w0)) eqn:E; [apply emits_ret|].
  apply emits_bind; [apply emits_read|]. intros [t|]; [|apply emits_ret].
  apply emits_emit; [done|]. by apply (HPt w0).
Qed.

Lemma emits_report_failure loading e : emits I P (report_failure loading e).
Proof. unfold report_failure. repeat emits_more. Qed.

Lemma emits_scaffold block : emits I P (scaffold block).
Proof. unfold scaffold. repeat emits_more. Qed.

(** With the code base path known, [render] requests the document and
    goes on with a computation that requests no other document. *)
Lemma render_run slug wrapper content loading base w :
  w_hlx w = Some base ->
  exists rest : M unit,
    render X slug wrapper content loading w
    = rest (log (EFetch (base ++ "/docs/" ++ slug ++ ".md")) w)
    /\ emits I P rest.
Proof.
  intros Hh. unfold render, fetch_and_load. eexists. split.
  - rewrite bind_assoc.
    rewrite (run_bind codeBasePath _ w base w)
      by (unfold codeBasePath; by rewrite Hh).
    rewrite bind_assoc, run_emit. reflexivity.
  - apply emits_bind.
    + repeat emits_more.
    + intros [resp Prism].
      repeat first [ apply emits_scroll | emits_more ].
Qed.

Context (HPf : forall url, P (EFetch url)).

Lemma emits_render slug wrapper content loading :
  emits I P (render X slug wrapper content loading).
Proof.
  unfold render, fetch_and_load. apply emits_bind.
  - repeat emits_more.
  - intros [resp Prism]. repeat first [ apply emits_scroll | emits_more ].
Qed.

Lemma emits_decorate block : emits I P (decorate X block).
Proof.
  unfold decorate. apply emits_bind; [apply emits_dom_read|]. intros text.
  destruct (Str.is_empty _); [apply emits_ret|].
  apply emits_bind; [apply emits_scaffold|]. intros [[wrapper content] loading].
  apply emits_try_catch; [apply emits_render|].
  intros e. apply emits_report_failure.
Qed.

End Render.

End TraceFacts.

Section EntryRequests.
Import Page Aux Run LoaderFacts TraceFacts EntryFacts WalkFacts.

(** X7. [decorate] never throws: what is thrown while the document is
    fetched and rendered is caught, and neither the scaffold nor the
    [catch] clause can throw. *)
Theorem decorate_never_throws (X : external) (block : ref) (w : world) :
  fst (decorate X block w) = Ok tt.
Proof.
  destruct (Str.is_empty (Str.trim (DOM.textContent (w_dom w) block))) eqn:E.
  - unfold decorate. by rewrite run_dom_read, E.
  - rewrite (decorate_run X block w E). cbv zeta.
    destruct (scaffold_dom block (w_dom w)) as [[[wrapper content] loading] d].
    cbn [fst snd]. unfold try_catch.
    destruct (render X _ wrapper content loading _) as [[[]|e] w1]; done.
Qed.

(** X8. With a slug and a code base path, the first request of
    [decorate] is the fetch of [<base>/docs/<slug>.md], where the slug
    is the trimmed text of the block, and no other fetch follows. *)
Theorem decorate_requests_document (X : external) (w : world) (block : ref)
    (base : string) :
  let slug := Str.trim (DOM.textContent (w_dom w) block) in
  Str.is_empty slug = false -> w_hlx w = Some base ->
  exists rest,
    w_trace (snd (decorate X block w))
    = (w_trace w ++ EFetch (base ++ "/docs/" ++ slug ++ ".md") :: rest)%list
    /\ Forall (fun ev => forall url, ev <> EFetch url) rest.
Proof.
  intros slug Hslug Hh.
  set (P := fun ev => forall url, ev <> EFetch url).
  assert (steady (fun _ => True)) as HI by done.
  rewrite (decorate_run X block w Hslug). cbv zeta. fold slug.
  destruct (scaffold_dom block (w_dom w)) as [[[wrapper content] loading] d].
  cbn [fst snd].
  destruct (render_run (fun _ => True) P HI X) with
    (slug := slug) (wrapper := wrapper) (content := content)
    (loading := loading) (base := base) (w := with_dom d w)
    as (rest & Hrun & Hrest); try done.
  { apply emits_loadPrism; done. }
  unfold try_catch. rewrite Hrun.
  destruct (Hrest (log (EFetch (base ++ "/docs/" ++ slug ++ ".md"))
                     (with_dom d w)) Logic.I) as (_ & evs & Ht & Hp).
  destruct (rest _) as [[a|e] w1]; cbn [snd] in *.
  - exists evs. split; [|done]. rewrite Ht, w_trace_log.
    by rewrite <- app_assoc.
  - destruct (emits_report_failure (fun _ => True) P HI) with
      (loading := loading) (e := e) (w := w1) as (_ & evs2 & Ht2 & Hp2);
      try done.
    exists (evs ++ evs2)%list. split; [|by apply Forall_app].
    rewrite Ht2, Ht, w_trace_log. by rewrite <- !app_assoc.
Qed.

(** X9. With an empty [location.hash], [decorate] schedules no
    scroll. *)
Theorem decorate_no_scroll_without_hash (X : external) (w : world)
    (block : ref) :
  w_hash w = "" ->
  exists evs,
    w_trace (snd (decorate X block w)) = (w_trace w ++ evs)%list
    /\ Forall (fun ev => forall ms t, ev <> ETimeout ms t) evs.
Proof.
  intros Hhash.
  set (I := fun w0 : world => w_hash w0 = "").
  set (P := fun ev => forall ms t, ev <> ETimeout ms t).
  assert (steady I) as HI by done.
  destruct (emits_decorate I P HI X) with (block := block) (w := w)
    as (_ & evs & Ht & Hp); try done.
  - apply emits_loadPrism; done.
  - intros w0 t Hw0. unfold I in Hw0. by rewrite Hw0.
  - by exists evs.
Qed.

(** X10. With the engine already in [window.Prism], [decorate] imports
    no module. *)
Theorem decorate_no_import_when_loaded (X : external) (w : world)
    (block : ref) (e : engine) :
  w_prism w = Some e ->
  exists evs,
    w_trace (snd (decorate X block w)) = (w_trace w ++ evs)%list
    /\ Forall (fun ev => forall url, ev <> EImport url) evs.
Proof.
  intros Hp.
  set (I := fun w0 : world => w_prism w0 = Some e).
  set (P := fun ev => forall url, ev <> EImport url).
  assert (steady I) as HI by done.
  destruct (emits_decorate I P HI X) with (block := block) (w := w)
    as (_ & evs & Ht & HP); try done.
  - apply emits_silent. intros w0 Hw0.
    by rewrite (loadPrism_loaded X w0 e Hw0).
  - by exists evs.
Qed.

Lemma decorate_requests_document_witness :
  exists rest,
    w_trace (snd (decorate Sample.site Sample.block (Sample.page "guide")))
    = EFetch "/app/docs/guide.md" :: rest
    /\ Forall (fun ev => forall url, ev <> EFetch url) rest.
Proof.
  apply (decorate_requests_document Sample.site (Sample.page "guide")
           Sample.block "/app"); reflexivity.
Defined.

Lemma decorate_no_scroll_without_hash_witness :
  exists evs,
    w_trace (snd (decorate Sample.site Sample.block (Sample.page "guide")))
    = evs
    /\ Forall (fun ev => forall ms t, ev <> ETimeout ms t) evs.
Proof.
  apply (decorate_no_scroll_without_hash Sample.site (Sample.page "guide")
           Sample.block). reflexivity.
Defined.

Lemma decorate_no_import_when_loaded_witness :
  exists evs,
    w_trace (snd (decorate Sample.site Sample.content
                    (Sample.rendered "guide")))
    = evs
    /\ Forall (fun ev => forall url, ev <> EImport url) evs.
Proof.
  apply (decorate_no_import_when_loaded Sample.site (Sample.rendered "guide")
           Sample.content Sample.loaded_engine). reflexivity.
Defined.

End EntryRequests.

(** ** Failures before the content is replaced *)

Module NoticeFacts.
Import DOM DomFacts Page Aux Run Frame EntryFacts.
Import LoaderFacts TraceFacts.

Lemma globals_only_throw {A} e : globals_only (throw e : M A).
Proof. intros w1 w2 [Hp Hh]. by repeat split. Qed.

Lemma globals_only_fetch_and_load X slug :
  globals_only (fetch_and_load X slug).
Proof.
  unfold fetch_and_load.
  apply globals_only_bind; [apply globals_only_codeBasePath|]. intros path.
  apply globals_only_bind; [apply globals_only_emit|]. intros _.
  apply globals_only_bind; [apply globals_only_loadPrism|]. intros Prism.
  destruct (fetch X _); [apply globals_only_ret | apply globals_only_throw].
Qed.

Lemma emits_fetch_and_load X slug :
  emits (fun _ => True) (fun _ => True) (fetch_and_load X slug).
Proof.
  unfold fetch_and_load.
  assert (steady (fun _ : world => True)) as HI by done.
  repeat first [ apply emits_loadPrism; done | emits_more ].
Qed.


End NoticeFacts.

Section LoadFailure.
Import DOM DomFacts Page Aux Run Frame EntryFacts.
Import LoaderFacts TraceFacts NoticeFacts.



End LoadFailure.

(** ** Loops over a static list of nodes *)

Module LoopFacts.
Import DOM DomFacts Page Aux Run.

Section Loop.
Context (callback : ref -> M unit) (Hvisit : local_visit callback).

Lemma forEach_local hs :
  forall w,
    Forall (fun h => is_Some (get (w_dom w) h)) hs ->
    exists w',
      forEach hs callback w = (Ok tt, w')
      /\ next (w_dom w) <= next (w_dom w')
      /\ (forall r, r < next (w_dom w) -> r ∉ hs ->
          get (w_dom w') r = get (w_dom w) r).
Proof.
  induction hs as [|h hs IH]; intros w Hhs.
  - by exists w.
  - apply Forall_cons in Hhs as [Hh Hhs].
    destruct (Hvisit h w Hh) as (w1 & Hrun & Hn & Hfr & Hh1).
    destruct (IH w1) as (w' & Hrun' & Hn' & Hfr').
    { eapply Forall_impl; [exact Hhs|]. simpl. intros h' [nh' Hh'].
      destruct (decide (h' = h)) as [->|Hne]; [done|].
      rewrite Hfr; [by eexists | by eapply get_lt | done]. }
    exists w'. split; [|split].
    + cbn [forEach]. by rewrite (run_bind _ _ w tt w1 Hrun).
    + lia.
    + intros r Hr Hnot. apply not_elem_of_cons in Hnot as [Hr0 Hrs].
      rewrite Hfr' by (done || lia). by apply Hfr.
Qed.

(** A node that the list holds once is visited once: the loop runs up
    to a state [wa] where the node is as it was, the callback takes it
    to [wb], and what the node and the nodes allocated since the start
    are in [wb] is what they are at the end. *)
Lemma forEach_visit_once hs h0 w :
  Forall (fun h => is_Some (get (w_dom w) h)) hs ->
  NoDup hs -> h0 ∈ hs ->
  exists wa wb w',
    forEach hs callback w = (Ok tt, w')
    /\ callback h0 wa = (Ok tt, wb)
    /\ get (w_dom wa) h0 = get (w_dom w) h0
    /\ next (w_dom w) <= next (w_dom wa)
    /\ (forall r, r < next (w_dom w) -> r ∉ hs ->
        get (w_dom wa) r = get (w_dom w) r)
    /\ (forall r, r < next (w_dom wb) -> r = h0 \/ r ∉ hs ->
        get (w_dom w') r = get (w_dom wb) r).
Proof.
  revert w. induction hs as [|h hs IH]; intros w Hhs Hnd Hin.
  - by apply elem_of_nil in Hin.
  - apply Forall_cons in Hhs as [Hh Hhs].
    apply NoDup_cons in Hnd as [Hnot Hnd].
    destruct (Hvisit h w Hh) as (w1 & Hrun & Hn & Hfr & Hh1).
    assert (Forall (fun h' => is_Some (get (w_dom w1) h')) hs) as Hhs1.
    { eapply Forall_impl; [exact Hhs|]. simpl. intros h' [nh' Hh'].
      destruct (decide (h' = h)) as [->|Hne]; [done|].
      rewrite Hfr; [by eexists | by eapply get_lt | done]. }
    assert (Forall (fun h' => h' < next (w_dom w)) hs) as Hbelow.
    { eapply Forall_impl; [exact Hhs|]. simpl. intros h' [nh' Hh'].
      by eapply get_lt. }
    destruct (decide (h0 = h)) as [->|Hne].
    + destruct (forEach_local hs w1 Hhs1) as (w' & Hrun' & Hn' & Hfr').
      exists w, w1, w'. split; [|split; [|split; [|split; [|split]]]];
        try done.
      * cbn [forEach]. by rewrite (run_bind _ _ w tt w1 Hrun).
      * intros r Hr Hcase. apply Hfr'; [done|].
        destruct Hcase as [->|Hr']; [done|].
        by apply not_elem_of_cons in Hr' as [_ ?].
    + apply elem_of_cons in Hin as [?|Hin]; [done|].
      destruct (IH w1 Hhs1 Hnd Hin)
        as (wa & wb & w' & Hrun' & Hv & Hsame & Hna & Hfra & Hfrb).
      destruct Hh as [nh Hh]. pose proof (get_lt _ _ _ Hh) as Hlt.
      exists wa, wb, w'. split; [|split; [|split; [|split; [|split]]]];
        try done.
      * cbn [forEach]. by rewrite (run_bind _ _ w tt w1 Hrun).
      * rewrite Hsame. apply Hfr; [|done].
        eapply Forall_forall in Hbelow; [|exact Hin]. exact Hbelow.
      * lia.
      * intros r Hr Hnot'. apply not_elem_of_cons in Hnot' as [Hr0 Hrs].
        rewrite Hfra by (done || lia). by apply Hfr.
      * intros r Hr Hcase. apply Hfrb; [done|].
        destruct Hcase as [->|Hr']; [by left | right].
        by apply not_elem_of_cons in Hr' as [_ ?].
Qed.

End Loop.

End LoopFacts.

Module VisitFacts.
Import DOM DomFacts Page Aux Run LoopFacts HeadingFacts LoaderFacts.

Lemma addCopyButton_run pre w :
  addCopyButton pre w
  = (Ok tt,
     log (EListen (next (w_dom w)) "click")
       (with_dom (button_dom pre (w_dom w)) w)).
Proof. reflexivity. Qed.

Lemma button_dom_facts pre d np r v :
  get d pre = Some np ->
  get d r = v ->
  let btn := next d in
  let d' := button_dom pre d in
  next d' = 2 + next d
  /\ get d' pre
     = Some (Node (n_kind np) (n_id np) (n_class np)
               (n_attrs (with_attr "style.position" "relative" np))
               (n_parent np) (n_children np ++ [btn]))
  /\ get d' btn
     = Some (Node (KElement "button") "" "docs-copy-btn"
               [("aria-label", "Copy code to clipboard")] (Some pre) [S btn])
  /\ get d' (S btn) = Some (Node (KText "Copy") "" "" [] (Some btn) [])
  /\ (r < next d -> r <> pre -> get d' r = v).
Proof.
  intros Hp Hr btn d'. pose proof (get_lt _ _ _ Hp) as Hlt.
  subst d' btn. unfold button_dom, DOM.createElement, alloc.
  cbn [fst snd]. unfold set_className, setAttribute.
  repeat rewrite ?next_update, ?next_insert_node.
  set (n := next d) in *.
  assert (next d = n) as N by done. clearbody n.
  destruct (decide (r < n /\ r <> pre)) as [[Hrn Hrp]|Hno].
  - repeat dom_step. repeat split; try assumption. by intros.
  - clear Hr. repeat dom_step. repeat split; try assumption.
    intros ? ?. by destruct Hno.
Qed.

Lemma addCopyButton_local : local_visit addCopyButton.
Proof.
  intros pre w [np Hp]. eexists. split; [apply addCopyButton_run|].
  rewrite w_dom_log, w_dom_with_dom.
  destruct (button_dom_facts pre (w_dom w) np 0 _ Hp eq_refl)
    as (N & Gp & _).
  split; [lia|]. split; [|by rewrite Gp].
  intros r Hr Hne.
  by destruct (button_dom_facts pre (w_dom w) np r _ Hp eq_refl)
    as (_ & _ & _ & _ & ->).
Qed.

(** The text node of the link that [heading_dom] makes. *)
Lemma heading_dom_text h d nh :
  get d h = Some nh ->
  get (heading_dom h d) (S (next d))
  = Some (Node (KText "#") "" "" [] (Some (next d)) []).
Proof.
  intros Hh. pose proof (get_lt _ _ _ Hh) as Hlt.
  unfold heading_dom, DOM.createElement, alloc. cbn [fst snd].
  set (d1 := if Str.is_empty (DOM.id d h) then _ else d).
  assert (next d1 = next d /\ is_Some (get d1 h)) as (N & [nh1 G1]).
  { unfold d1. destruct (Str.is_empty _); [|by eauto].
    unfold set_id. rewrite get_update_eq, Hh. by eauto. }
  clearbody d1.
  match goal with
  | |- context [setAttribute _ "href" ?x] => generalize x as href
  end.
  intros href. unfold set_className, setAttribute.
  rewrite N. set (n := next d) in *. clearbody n.
  repeat dom_step. assumption.
Qed.

Lemma addHeadingAnchor_local : local_visit addHeadingAnchor.
Proof.
  intros h w [nh Hh]. eexists. split; [apply addHeadingAnchor_run|].
  rewrite w_dom_with_dom.
  destruct (heading_dom_facts h (w_dom w) nh 0 _ Hh eq_refl) as (N & Gh & _).
  split; [lia|]. split; [|by rewrite Gh].
  intros r Hr Hne.
  destruct (heading_dom_facts h (w_dom w) nh r _ Hh eq_refl)
    as (_ & _ & _ & Hg). by apply Hg.
Qed.

(** The text of an element whose only child is a text node. *)
Lemma textContent_one_text d r n t nt s :
  get d r = Some n -> (exists tag, n_kind n = KElement tag) ->
  n_children n = [t] ->
  get d t = Some nt -> n_kind nt = KText s ->
  textContent d r = s.
Proof.
  intros Hr [tag Hk] Hc Ht Hs. unfold textContent.
  pose proof (get_lt _ _ _ Hr). pose proof (get_lt _ _ _ Ht).
  assert (r <> t) as Hne by (intros ->; congruence).
  destruct (next d) as [|[|k]] eqn:N; try lia.
  cbn [text_go]. rewrite Hr, Hk, Hc. cbn [List.map foldr text_go].
  rewrite Ht, Hs. apply append_empty_r.
Qed.

Lemma buttons_loop pres :
  forall w,
    Forall (fun h => is_Some (get (w_dom w) h)) pres ->
    exists w',
      forEach pres addCopyButton w = (Ok tt, w')
      /\ next (w_dom w') = next (w_dom w) + 2 * length pres
      /\ w_trace w'
         = (w_trace w
            ++ List.map (fun i => EListen (next (w_dom w) + 2 * i) "click")
                 (seq 0 (length pres)))%list
      /\ (forall r, r < next (w_dom w) -> r ∉ pres ->
          get (w_dom w') r = get (w_dom w) r).
Proof.
  induction pres as [|h pres IH]; intros w Hall.
  - exists w. split; [done|]. split; [simpl; lia|].
    split; [by rewrite app_nil_r | done].
  - apply Forall_cons in Hall as [[nh Hh] Hall].
    set (d := w_dom w) in *.
    set (w1 := log (EListen (next d) "click") (with_dom (button_dom h d) w)).
    assert (forall r, r < next d -> r <> h -> get (w_dom w1) r = get d r)
      as Hframe.
    { intros r Hr Hne. change (w_dom w1) with (button_dom h d).
      by destruct (button_dom_facts h d nh r _ Hh eq_refl)
        as (_ & _ & _ & _ & ->). }
    destruct (button_dom_facts h d nh 0 _ Hh eq_refl) as (N & Gh & _).
    change (button_dom h d) with (w_dom w1) in N, Gh.
    destruct (IH w1) as (w' & Hrun & Hn & Ht & Hfr).
    { eapply Forall_impl; [exact Hall|]. cbv beta. intros h' [nh' Hh'].
      destruct (decide (h' = h)) as [->|Hne]; [by rewrite Gh|].
      rewrite Hframe; [by eexists | by eapply get_lt | done]. }
    exists w'. split; [|split; [|split]].
    + cbn [forEach]. rewrite (run_bind _ _ w tt w1); [exact Hrun|].
      apply addCopyButton_run.
    + rewrite Hn, N. simpl. lia.
    + rewrite Ht. unfold w1 at 1. rewrite w_trace_log.
      change (w_trace (with_dom _ w)) with (w_trace w).
      rewrite <- app_assoc. f_equal. cbn [length seq List.map app].
      f_equal; [f_equal; lia|].
      rewrite <- seq_shift, List.map_map. apply List.map_ext.
      intros i. f_equal. rewrite N. lia.
    + intros r Hr Hnot. apply not_elem_of_cons in Hnot as [Hr0 Hrs].
      rewrite Hfr by (done || lia). by apply Hframe.
Qed.

End VisitFacts.

(** ** Copy buttons *)

Section Buttons.
Import DOM DomFacts Page Aux Run LoopFacts VisitFacts HeadingFacts.

(** X12. [addCopyButtons] gives every [pre] of the container one new
    last child: a [button] of class [docs-copy-btn] with the text [Copy]
    and the label for assistive technology; the [pre] is positioned
    relatively. *)
Theorem addCopyButtons_adds_button (w : world) (container pre : ref) :
  let d := w_dom w in
  let pres := DOM.querySelectorAll d container ["pre"] in
  pre ∈ pres -> NoDup pres ->
  exists w' btn,
    addCopyButtons container w = (Ok tt, w')
    /\ DOM.children (w_dom w') pre = (DOM.children d pre ++ [btn])%list
    /\ DOM.get d btn = None
    /\ DOM.parentElement (w_dom w') btn = Some pre
    /\ DOM.tag (w_dom w') btn = Some "button"
    /\ DOM.className (w_dom w') btn = "docs-copy-btn"
    /\ DOM.textContent (w_dom w') btn = "Copy"
    /\ DOM.attr (w_dom w') btn "aria-label" = Some "Copy code to clipboard"
    /\ DOM.attr (w_dom w') pre "style.position" = Some "relative".
Proof.
  intros d pres Hin Hnd.
  pose proof (querySelectorAll_is_Some d container ["pre"]) as Hall.
  fold pres in Hall.
  destruct (forEach_visit_once addCopyButton addCopyButton_local pres pre w
              Hall Hnd Hin)
    as (wa & wb & w' & Hrun & Hv & Hsame & Hna & _ & Hfr).
  destruct (proj1 (Forall_forall _ _) Hall pre Hin) as [np Hp].
  fold d in Hsame, Hna. rewrite Hp in Hsame.
  rewrite addCopyButton_run in Hv. injection Hv as <-.
  rewrite w_dom_log, w_dom_with_dom in Hfr.
  destruct (button_dom_facts pre (w_dom wa) np 0 _ Hsame eq_refl)
    as (N & Gp & Gb & Gt & _).
  assert (forall r, next d <= r -> r ∉ pres) as Hfresh.
  { intros r Hr Hr'. eapply Forall_forall in Hall; [|exact Hr'].
    destruct Hall as [nr Hnr]. apply get_lt in Hnr. fold d in Hnr. lia. }
  set (btn := next (w_dom wa)) in *.
  exists w', btn. split.
  { unfold addCopyButtons. rewrite run_dom_read. exact Hrun. }
  assert (get (w_dom w') pre = get (button_dom pre (w_dom wa)) pre) as Ep.
  { apply Hfr; [|by left]. apply get_lt in Hsame. lia. }
  assert (get (w_dom w') btn = get (button_dom pre (w_dom wa)) btn) as Eb.
  { apply Hfr; [lia|]. right. apply Hfresh. lia. }
  assert (get (w_dom w') (S btn) = get (button_dom pre (w_dom wa)) (S btn))
    as Et.
  { apply Hfr; [lia|]. right. apply Hfresh. lia. }
  rewrite Gp in Ep. rewrite Gb in Eb. rewrite Gt in Et.
  split; [unfold children; by rewrite Ep, Hp|].
  split; [apply get_ge; lia|].
  split; [unfold parentElement; by rewrite Eb|].
  split; [unfold tag; by rewrite Eb|].
  split; [unfold className; by rewrite Eb|].
  split; [by eapply textContent_one_text; eauto|].
  split; [unfold attr; by rewrite Eb|].
  unfold attr. by rewrite Ep.
Qed.

Lemma addCopyButtons_adds_button_witness :
  exists w' btn,
    addCopyButtons Sample.content (Sample.rendered "guide") = (Ok tt, w')
    /\ DOM.children (w_dom w') 6
       = (DOM.children (Sample.rendered_dom "guide") 6 ++ [btn])%list
    /\ DOM.get (Sample.rendered_dom "guide") btn = None
    /\ DOM.parentElement (w_dom w') btn = Some 6
    /\ DOM.tag (w_dom w') btn = Some "button"
    /\ DOM.className (w_dom w') btn = "docs-copy-btn"
    /\ DOM.textContent (w_dom w') btn = "Copy"
    /\ DOM.attr (w_dom w') btn "aria-label" = Some "Copy code to clipboard"
    /\ DOM.attr (w_dom w') 6 "style.position" = Some "relative".
Proof.
  apply (addCopyButtons_adds_button (Sample.rendered "guide") Sample.content 6).
  - vm_compute. by left.
  - vm_compute. apply NoDup_ListNoDup. repeat constructor; simpl; lia.
Defined.

End Buttons.

Section ButtonsTotal.
Import DOM DomFacts Page Aux Run LoopFacts VisitFacts HeadingFacts.

(** X13. [addCopyButtons] never throws; it allocates two nodes (the
    button and its text) and registers one click listener, on the
    button, for each [pre] of the container, in document order, and
    leaves every node that is not one of these [pre] as it is. *)
Theorem addCopyButtons_footprint (w : world) (container : ref) :
  let d := w_dom w in
  let pres := DOM.querySelectorAll d container ["pre"] in
  exists w',
    addCopyButtons container w = (Ok tt, w')
    /\ next (w_dom w') = next d + 2 * length pres
    /\ w_trace w'
       = (w_trace w
          ++ List.map (fun i => EListen (next d + 2 * i) "click")
               (seq 0 (length pres)))%list
    /\ (forall r, r < next d -> r ∉ pres ->
        DOM.get (w_dom w') r = DOM.get d r).
Proof.
  intros d pres.
  destruct (buttons_loop pres w) as (w' & Hrun & H);
    [apply querySelectorAll_is_Some|].
  exists w'. split; [|exact H].
  unfold addCopyButtons. rewrite run_dom_read. exact Hrun.
Qed.

End ButtonsTotal.

(** ** More on heading anchors *)

Section HeadingLinks.
Import DOM DomFacts Page Aux Run LoopFacts VisitFacts HeadingFacts.

(** X14. After [addHeadingAnchors], every heading of the container
    has one new last child, a link of class [docs-anchor], hidden from
    assistive technology, with the text [#], that points at the id the
    heading then has.  An id that was there is kept; an id that was
    generated is a slug. *)
Theorem addHeadingAnchors_link_targets (w : world) (container h0 : ref) :
  let d := w_dom w in
  let hs := DOM.querySelectorAll d container
              ["h1"; "h2"; "h3"; "h4"; "h5"; "h6"] in
  h0 ∈ hs -> NoDup hs ->
  exists w' link,
    addHeadingAnchors container w = (Ok tt, w')
    /\ DOM.children (w_dom w') h0 = (DOM.children d h0 ++ [link])%list
    /\ DOM.get d link = None
    /\ DOM.className (w_dom w') link = "docs-anchor"
    /\ DOM.attr (w_dom w') link "href" = Some ("#" ++ DOM.id (w_dom w') h0)
    /\ DOM.attr (w_dom w') link "aria-hidden" = Some "true"
    /\ DOM.textContent (w_dom w') link = "#"
    /\ (DOM.id d h0 <> "" -> DOM.id (w_dom w') h0 = DOM.id d h0)
    /\ (DOM.id d h0 = "" ->
        slugify (DOM.id (w_dom w') h0) = DOM.id (w_dom w') h0).
Proof.
  intros d hs Hin Hnd.
  pose proof (querySelectorAll_is_Some d container
                ["h1"; "h2"; "h3"; "h4"; "h5"; "h6"]) as Hall.
  fold hs in Hall.
  destruct (forEach_visit_once addHeadingAnchor addHeadingAnchor_local hs h0 w
              Hall Hnd Hin)
    as (wa & wb & w' & Hrun & Hv & Hsame & Hna & _ & Hfr).
  destruct (proj1 (Forall_forall _ _) Hall h0 Hin) as [nh Hh].
  fold d in Hsame, Hna. rewrite Hh in Hsame.
  rewrite addHeadingAnchor_run in Hv. injection Hv as <-.
  rewrite w_dom_with_dom in Hfr.
  destruct (heading_dom_facts h0 (w_dom wa) nh 0 _ Hsame eq_refl)
    as (N & Gh & Gl & _).
  pose proof (heading_dom_text h0 (w_dom wa) nh Hsame) as Gt.
  assert (forall r, next d <= r -> r ∉ hs) as Hfresh.
  { intros r Hr Hr'. eapply Forall_forall in Hall; [|exact Hr'].
    destruct Hall as [nr Hnr]. apply get_lt in Hnr. fold d in Hnr. lia. }
  set (link := next (w_dom wa)) in *.
  set (i := anchor_id (w_dom wa) h0) in *.
  exists w', link. split.
  { unfold addHeadingAnchors. rewrite run_dom_read. exact Hrun. }
  assert (get (w_dom w') h0 = get (heading_dom h0 (w_dom wa)) h0) as Eh.
  { apply Hfr; [|by left]. apply get_lt in Hsame. lia. }
  assert (get (w_dom w') link = get (heading_dom h0 (w_dom wa)) link) as El.
  { apply Hfr; [lia|]. right. apply Hfresh. lia. }
  assert (get (w_dom w') (S link) = get (heading_dom h0 (w_dom wa)) (S link))
    as Et.
  { apply Hfr; [lia|]. right. apply Hfresh. lia. }
  rewrite Gh in Eh. rewrite Gl in El. rewrite Gt in Et.
  assert (DOM.id (w_dom w') h0 = i) as Ei by (unfold DOM.id; by rewrite Eh).
  rewrite Ei.
  split; [unfold children; by rewrite Eh, Hh|].
  split; [apply get_ge; lia|].
  split; [unfold className; by rewrite El|].
  split; [unfold attr; by rewrite El|].
  split; [unfold attr; by rewrite El|].
  split; [by eapply textContent_one_text; eauto|].
  unfold i, anchor_id, DOM.id. rewrite Hsame, Hh. split.
  - intros Hid. by destruct (n_id nh).
  - intros ->. cbn [Str.is_empty]. apply slugify_fixed.
    + apply slugify_slug_chars.
    + apply slugify_separated.
    + apply slugify_last.
Qed.

Lemma addHeadingAnchors_link_targets_witness :
  exists w' link,
    addHeadingAnchors Sample.content (Sample.rendered "guide") = (Ok tt, w')
    /\ DOM.children (w_dom w') 4
       = (DOM.children (Sample.rendered_dom "guide") 4 ++ [link])%list
    /\ DOM.get (Sample.rendered_dom "guide") link = None
    /\ DOM.className (w_dom w') link = "docs-anchor"
    /\ DOM.attr (w_dom w') link "href" = Some ("#" ++ DOM.id (w_dom w') 4)
    /\ DOM.attr (w_dom w') link "aria-hidden" = Some "true"
    /\ DOM.textContent (w_dom w') link = "#"
    /\ (DOM.id (Sample.rendered_dom "guide") 4 <> "" ->
        DOM.id (w_dom w') 4 = DOM.id (Sample.rendered_dom "guide") 4)
    /\ (DOM.id (Sample.rendered_dom "guide") 4 = "" ->
        slugify (DOM.id (w_dom w') 4) = DOM.id (w_dom w') 4).
Proof.
  apply (addHeadingAnchors_link_targets (Sample.rendered "guide")
           Sample.content 4).
  - vm_compute. right. by left.
  - vm_compute. apply NoDup_ListNoDup. repeat constructor; simpl; lia.
Defined.

End HeadingLinks.

(** ** Code blocks in well-formed documents *)

Module BlockFacts.
Import DOM DomFacts Page Aux Run MarkupFacts.

Lemma fold_build_old r0 frag acc r :
  r < next acc -> r <> r0 ->
  next acc <= next (fold_left (fun a k => build r0 k a) frag acc)
  /\ get (fold_left (fun a k => build r0 k a) frag acc) r = get acc r.
Proof.
  apply build_fold_old. apply Forall_forall. intros k _.
  apply build_keeps_old.
Qed.

Lemma next_set_innerHTML r0 frag d : next d <= next (set_innerHTML r0 frag d).
Proof.
  unfold set_innerHTML. rewrite <- (next_remove_children r0 d) at 1.
  generalize (remove_children r0 d) as acc.
  induction frag as [|k frag IH]; intros acc; cbn [fold_left]; [done|].
  etrans; [|apply IH].
  destruct (decide (0 < next acc)) as [Hpos|Hz].
  - by destruct (build_keeps_old k r0 acc 0 Hpos) as [? _].
  - lia.
Qed.

(** A node other than the element whose [innerHTML] is set stays as
    it is, except that a former child of the element loses its
    parent. *)
Lemma set_innerHTML_other r0 frag d r :
  r < next d -> r <> r0 ->
  get (set_innerHTML r0 frag d) r
  = (if decide (r ∈ children d r0) then with_parent None else (fun n => n))
      <$> get d r.
Proof.
  intros Hr Hne. unfold set_innerHTML.
  destruct (fold_build_old r0 frag (remove_children r0 d) r) as [_ ->];
    [by rewrite next_remove_children | done |].
  rewrite get_remove_children. rewrite (decide_False (P := r0 = r)) by done.
  by destruct (get d r).
Qed.

Section Visit.
Context (X : external) (e : engine).

Lemma highlight_dom_frame code p d :
  let d1 := highlight_dom X e code p d in
  next d <= next d1
  /\ (forall r, r < next d -> r <> code -> r <> p -> r ∉ children d code ->
      get d1 r = get d r)
  /\ (forall r, r < next d -> r <> code -> r <> p ->
      className d1 r = className d r)
  /\ (forall r, is_Some (get d r) -> is_Some (get d1 r))
  /\ (languages e !! to_string (blockLang d code) = None ->
      children d1 code = children d code)
  /\ (code ∉ children d code -> code <> p ->
      forall q, parentElement d code = Some q ->
        parentElement d1 code = Some q).
Proof.
  intros d1. subst d1. unfold highlight_dom.
  set (lang := to_string (blockLang d code)).
  set (d0 := match languages e !! lang with Some g => _ | None => d end).
  assert (next d <= next d0
          /\ (forall r, r < next d -> r <> code ->
              get d0 r
              = (if decide (r ∈ children d code /\ is_Some (languages e !! lang))
                 then with_parent None else (fun n => n)) <$> get d r)
          /\ (forall r, is_Some (get d r) -> is_Some (get d0 r))
          /\ (languages e !! lang = None -> d0 = d)
          /\ (code ∉ children d code -> code < next d ->
              keeps_shell (get d code) (get d0 code)))
    as (N & G & S & E & Hk).
  { unfold d0. destruct (languages e !! lang) as [g|].
    - split; [apply next_set_innerHTML|]. split; [|split; [|split; [done|]]].
      + intros r Hr Hne. rewrite set_innerHTML_other by done.
        destruct (decide (r ∈ children d code)).
        * rewrite decide_True; [done|]. split; [done | by eexists].
        * rewrite decide_False; [done|]. by intros [? _].
      + intros r. apply set_innerHTML_alloc.
      + intros Hself Hlt. by apply set_innerHTML_old.
    - split; [done|]. split; [|split; [done|split; [done|]]].
      + intros r _ _. rewrite decide_False; [by destruct (get d r)|].
        intros [_ [? ?]]. done.
      + intros _ _. apply keeps_shell_refl. }
  clearbody d0. unfold set_className.
  split; [done|]. split; [|split; [|split; [|split]]].
  - intros r Hr Hc Hp Hk'. rewrite !get_update_ne by done.
    rewrite G by done. rewrite decide_False; [by destruct (get d r)|].
    by intros [? _].
  - intros r Hr Hc Hp. unfold className. rewrite !get_update_ne by done.
    rewrite G by done. destruct (get d r); [|done].
    by case_decide.
  - intros r Hr. by apply is_Some_update, is_Some_update, S.
  - intros Hnone. rewrite (E Hnone). unfold children.
    rewrite get_update, get_update_eq.
    case_decide; by destruct (get d code).
  - intros Hself Hne q. unfold parentElement.
    rewrite get_update_ne, get_update_eq by done.
    destruct (get d code) as [nc|] eqn:Hc; [|done].
    specialize (Hk Hself (get_lt _ _ _ Hc)).
    destruct (get d0 code); simpl in *; [|done].
    by destruct Hk as (_ & _ & _ & ->).
Qed.

End Visit.

Lemma blockLang_frame d d' c :
  get d' c = get d c -> blockLang d' c = blockLang d c.
Proof. intros H. unfold blockLang, classList, className. by rewrite H. Qed.

Lemma parentElement_frame d d' c :
  get d' c = get d c -> parentElement d' c = parentElement d c.
Proof. intros H. unfold parentElement. by rewrite H. Qed.

Lemma children_frame d d' c :
  get d' c = get d c -> children d' c = children d c.
Proof. intros H. unfold children. by rewrite H. Qed.

Lemma className_frame d d' c :
  get d' c = get d c -> className d' c = className d c.
Proof. intros H. unfold className. by rewrite H. Qed.

Lemma parentElement_lt d c p : parentElement d c = Some p -> c < next d.
Proof.
  unfold parentElement. destruct (get d c) eqn:E; [|done].
  intros _. by eapply get_lt.
Qed.

Section Blocks.
Context (X : external) (e : engine).

Lemma highlight_loop blocks :
  forall w,
    let d := w_dom w in
    NoDup blocks ->
    (forall c, c ∈ blocks ->
       exists p, parentElement d c = Some p /\ is_Some (get d p)
                 /\ p ∉ blocks) ->
    (forall c1 c2, c1 ∈ blocks -> c2 ∈ blocks -> c2 ∉ children d c1) ->
    (forall c1 c2, c1 ∈ blocks -> c2 ∈ blocks ->
       parentElement d c1 = parentElement d c2 -> c1 = c2) ->
    exists w',
      forEach blocks (highlightBlock X (Some e)) w = (Ok tt, w')
      /\ next d <= next (w_dom w')
      /\ (forall r, r < next d -> r ∉ blocks ->
          (forall c, c ∈ blocks -> parentElement d c <> Some r) ->
          className (w_dom w') r = className d r
          /\ ((forall c, c ∈ blocks -> r ∉ children d c) ->
              get (w_dom w') r = get d r))
      /\ (forall c p, c ∈ blocks -> parentElement d c = Some p ->
          className (w_dom w') c = "language-" ++ to_string (blockLang d c)
          /\ className (w_dom w') p
             = "language-" ++ to_string (blockLang d c)
          /\ parentElement (w_dom w') c = Some p
          /\ (languages e !! to_string (blockLang d c) = None ->
              children (w_dom w') c = children d c)).
Proof.
  induction blocks as [|c blocks IH]; intros w d Hnd Hpar Hkid Hown.
  - exists w. split; [done|]. split; [done|]. split; [done|].
    intros c p Hc. by apply elem_of_nil in Hc.
  - apply NoDup_cons in Hnd as [Hc Hnd].
    destruct (Hpar c) as (p & Hp & Hpa & Hpb); [by left|].
    assert (c ∉ children d c) as Hself by (apply Hkid; by left).
    assert (c <> p) as Hcp by (intros <-; apply Hpb; by left).
    destruct (highlightBlock_spec X e c p w Hp Hpa Hself) as (Hrun & Mc & Mp).
    fold d in Hrun, Mc, Mp.
    destruct (highlight_dom_frame X e c p d) as (N & G & C & S & K & Q).
    specialize (Q Hself Hcp p Hp).
    set (d1 := highlight_dom X e c p d) in *.
    assert (forall c2, c2 ∈ blocks -> get d1 c2 = get d c2) as Hsame.
    { intros c2 H2.
      destruct (Hpar c2) as (p2 & Hp2 & _); [by right|].
      apply G.
      - by eapply parentElement_lt.
      - intros ->. done.
      - intros ->. apply Hpb. by right.
      - apply Hkid; [by left | by right]. }
    destruct (IH (with_dom d1 w)) as (w' & Hrun' & N' & F' & M'); [done | | | |].
    { intros c2 H2. destruct (Hpar c2) as (p2 & Hp2 & Hpa2 & Hpb2); [by right|].
      exists p2. change (w_dom (with_dom d1 w)) with d1.
      rewrite (parentElement_frame d d1 c2) by by apply Hsame.
      split; [done|]. split; [by apply S|].
      by apply not_elem_of_cons in Hpb2 as [_ ?]. }
    { intros c1 c2 H1 H2. change (w_dom (with_dom d1 w)) with d1.
      rewrite (children_frame d d1 c1) by by apply Hsame.
      apply Hkid; by right. }
    { intros c1 c2 H1 H2. change (w_dom (with_dom d1 w)) with d1.
      rewrite !(parentElement_frame d d1) by by apply Hsame.
      apply Hown; by right. }
    change (w_dom (with_dom d1 w)) with d1 in *.
    pose proof (parentElement_lt _ _ _ Hp) as Hclt.
    destruct Hpa as [np Hnp]. pose proof (get_lt _ _ _ Hnp) as Hplt.
    assert (forall r, (forall c2, c2 ∈ c :: blocks -> parentElement d c2 <> Some r)
                      -> forall c2, c2 ∈ blocks -> parentElement d1 c2 <> Some r)
      as Hpar1.
    { intros r Hr c2 H2. rewrite (parentElement_frame d d1 c2) by by apply Hsame.
      apply Hr. by right. }
    assert (forall r, (forall c2, c2 ∈ c :: blocks -> r ∉ children d c2)
                      -> forall c2, c2 ∈ blocks -> r ∉ children d1 c2)
      as Hkid1.
    { intros r Hr c2 H2. rewrite (children_frame d d1 c2) by by apply Hsame.
      apply Hr. by right. }
    assert (forall c2, c2 ∈ blocks -> parentElement d1 c2 <> Some c) as Hnc.
    { intros c2 H2. rewrite (parentElement_frame d d1 c2) by by apply Hsame.
      destruct (Hpar c2) as (p2 & Hp2 & _ & Hpb2); [by right|].
      rewrite Hp2. intros [= ->]. apply Hpb2. by left. }
    assert (forall c2, c2 ∈ blocks -> parentElement d1 c2 <> Some p) as Hnp'.
    { intros c2 H2. rewrite (parentElement_frame d d1 c2) by by apply Hsame.
      intros Hp2. apply Hc.
      rewrite (Hown c c2); [done | by left | by right | congruence]. }
    exists w'. split; [|split; [|split]].
    + cbn [forEach]. by rewrite (run_bind _ _ w tt _ Hrun).
    + lia.
    + intros r Hr Hnot Hnpar. apply not_elem_of_cons in Hnot as [Hrc Hrs].
      assert (r <> p) as Hrp by (intros ->; by apply (Hnpar c); [left|]).
      destruct (F' r) as [Fc Fg]; [lia | done | by apply Hpar1 |].
      split; [rewrite Fc; by apply C|].
      intros Hnk. rewrite Fg by by apply Hkid1.
      apply G; try done. apply Hnk. by left.
    + intros c0 p0 H0 Hp0. apply elem_of_cons in H0 as [->|H0].
      * assert (p0 = p) as -> by congruence.
        destruct (F' c) as [Fc Fg]; [lia | done | done |].
        destruct (F' p) as [Fp _]; [lia | | done |].
        { intros Hin. apply Hpb. by right. }
        assert (get (w_dom w') c = get d1 c) as Ec.
        { apply Fg. intros c2 H2.
          rewrite (children_frame d d1 c2) by by apply Hsame.
          apply Hkid; [by right | by left]. }
        rewrite (className_frame _ _ _ Ec), (parentElement_frame _ _ _ Ec),
          (children_frame _ _ _ Ec), Fp.
        done.
      * destruct (M' c0 p0 H0) as (M1 & M2 & M3 & M4).
        { rewrite (parentElement_frame d d1 c0) by by apply Hsame. done. }
        rewrite (blockLang_frame d d1 c0) in M1, M2, M4 by by apply Hsame.
        rewrite (children_frame d d1 c0) in M4 by by apply Hsame.
        done.
Qed.

End Blocks.

(** A block found under a [pre] has a parent element, and that one is
    allocated. *)
Lemma block_has_parent d root c :
  c ∈ querySelectorAll_within d root "pre" "code" ->
  exists p, parentElement d c = Some p /\ is_Some (get d p).
Proof.
  intros Hin. apply list_elem_of_In, filter_In in Hin as [_ Hin].
  apply andb_prop in Hin as [_ Hanc]. unfold has_ancestor in Hanc.
  destruct (next d) as [|f]; [done|]. cbn [has_ancestor_go] in Hanc.
  destruct (parentElement d c) as [p|]; [|done]. exists p. split; [done|].
  destruct (get d p) as [np|] eqn:Hp; [by eexists|].
  exfalso. unfold has_tag, tag in Hanc. rewrite Hp in Hanc.
  cbn [orb] in Hanc. destruct f as [|f]; [done|].
  cbn [has_ancestor_go] in Hanc. unfold parentElement in Hanc.
  by rewrite Hp in Hanc.
Qed.

End BlockFacts.

Section Blocks.
Import DOM DomFacts Page Aux Run MarkupFacts BlockFacts.

(** X15. [highlightCodeBlocks] on a document whose blocks are
    distinct, sit each in a parent of its own that is not a block, and
    are not children of one another (the shape of fenced code,
    [<pre><code>]): the run returns normally, every block keeps its
    parent, the block and the parent get the marker of the normalized
    tag of the block, and a block without a grammar keeps its
    children. *)
Theorem highlightCodeBlocks_marks_blocks (X : external) (e : engine)
    (w : world) (container : ref) :
  let d := w_dom w in
  let blocks := DOM.querySelectorAll_within d container "pre" "code" in
  NoDup blocks ->
  (forall c p, c ∈ blocks -> DOM.parentElement d c = Some p -> p ∉ blocks) ->
  (forall c1 c2, c1 ∈ blocks -> c2 ∈ blocks -> c2 ∉ DOM.children d c1) ->
  (forall c1 c2, c1 ∈ blocks -> c2 ∈ blocks ->
     DOM.parentElement d c1 = DOM.parentElement d c2 -> c1 = c2) ->
  exists w',
    highlightCodeBlocks X container (Some e) w = (Ok tt, w')
    /\ forall c, c ∈ blocks ->
         exists p,
           DOM.parentElement d c = Some p
           /\ DOM.parentElement (w_dom w') c = Some p
           /\ DOM.className (w_dom w') c
              = "language-" ++ to_string (blockLang d c)
           /\ DOM.className (w_dom w') p
              = "language-" ++ to_string (blockLang d c)
           /\ (languages e !! to_string (blockLang d c) = None ->
               DOM.children (w_dom w') c = DOM.children d c).
Proof.
  intros d blocks Hnd Hpar Hkid Hown.
  destruct (highlight_loop X e blocks w Hnd) as (w' & Hrun & _ & _ & M);
    try done.
  { intros c Hc. destruct (block_has_parent d container c Hc) as (p & Hp & Ha).
    exists p. split; [done|]. split; [done|]. by apply (Hpar c). }
  exists w'. split.
  { unfold highlightCodeBlocks. rewrite run_dom_read. exact Hrun. }
  intros c Hc. destruct (block_has_parent d container c Hc) as (p & Hp & _).
  exists p. destruct (M c p Hc Hp) as (M1 & M2 & M3 & M4). done.
Qed.

Lemma highlightCodeBlocks_marks_blocks_witness :
  exists w',
    highlightCodeBlocks Sample.site Sample.content (Some Sample.loaded_engine)
      (Sample.rendered "guide") = (Ok tt, w')
    /\ forall c, c ∈ [7] ->
         exists p,
           DOM.parentElement (Sample.rendered_dom "guide") c = Some p
           /\ DOM.parentElement (w_dom w') c = Some p
           /\ DOM.className (w_dom w') c
              = "language-"
                ++ to_string (blockLang (Sample.rendered_dom "guide") c)
           /\ DOM.className (w_dom w') p
              = "language-"
                ++ to_string (blockLang (Sample.rendered_dom "guide") c)
           /\ (languages Sample.loaded_engine
                 !! to_string (blockLang (Sample.rendered_dom "guide") c)
               = None ->
               DOM.children (w_dom w') c
               = DOM.children (Sample.rendered_dom "guide") c).
Proof.
  apply (highlightCodeBlocks_marks_blocks Sample.site Sample.loaded_engine
           (Sample.rendered "guide") Sample.content).
  - vm_compute. apply NoDup_ListNoDup. repeat constructor; simpl; lia.
  - intros c p Hc. vm_compute in Hc. apply list_elem_of_singleton in Hc as ->.
    vm_compute. intros [= <-]. intros H%list_elem_of_singleton. done.
  - intros c1 c2 H1 H2. vm_compute in H1, H2.
    apply list_elem_of_singleton in H1 as ->.
    apply list_elem_of_singleton in H2 as ->.
    vm_compute. intros H%list_elem_of_singleton. done.
  - intros c1 c2 H1 H2 _. vm_compute in H1, H2.
    apply list_elem_of_singleton in H1 as ->.
    by apply list_elem_of_singleton in H2 as ->.
Defined.

End Blocks.

(** ** The text of headings *)

Module TextFacts.
Import DOM DomFacts Page Aux Run WalkFacts.
Import LoopFacts VisitFacts HeadingFacts.

Lemma closedb_sound d : closedb d = true -> closed d.
Proof.
  intros H r n Hr. pose proof (get_lt _ _ _ Hr) as Hlt.
  unfold closedb in H. rewrite forallb_forall in H.
  specialize (H r). rewrite Hr in H.
  apply Forall_forall. intros c Hc.
  assert (List.forallb (fun c => (c <? next d)%nat) (n_children n) = true)
    as Hn by (apply H, in_seq; lia).
  rewrite forallb_forall in Hn. apply Nat.ltb_lt, Hn. by apply list_elem_of_In.
Qed.

Lemma children_closed d r c : closed d -> c ∈ children d r -> c < next d.
Proof.
  intros Hcl Hc. unfold children in Hc.
  destruct (get d r) as [n|] eqn:Hr; [|by apply elem_of_nil in Hc].
  by apply (proj1 (Forall_forall _ _) (Hcl r n Hr)).
Qed.

Lemma elem_of_descendants_go f d r x :
  x ∈ descendants_go (S f) d r
  <-> exists c, c ∈ children d r /\ (x = c \/ x ∈ descendants_go f d c).
Proof.
  cbn [descendants_go]. rewrite list_elem_of_In, in_flat_map. split.
  - intros (c & Hc & Hx). exists c. split; [by apply list_elem_of_In|].
    destruct Hx as [->|Hx]; [by left | right; by apply list_elem_of_In].
  - intros (c & Hc & Hx). exists c. split; [by apply list_elem_of_In|].
    destruct Hx as [->|Hx]; [by left | right; by apply list_elem_of_In].
Qed.

Lemma descendants_go_closed d : closed d ->
  forall f r x, x ∈ descendants_go f d r -> x < next d.
Proof.
  intros Hcl. induction f as [|f IH]; intros r x Hx.
  - by apply elem_of_nil in Hx.
  - apply elem_of_descendants_go in Hx as (c & Hc & [->|Hx]).
    + by eapply children_closed.
    + by eapply IH.
Qed.

Lemma descendants_go_above d : ordered d ->
  forall f r x, x ∈ descendants_go f d r -> r < x.
Proof.
  intros Hord. induction f as [|f IH]; intros r x Hx.
  - by apply elem_of_nil in Hx.
  - apply elem_of_descendants_go in Hx as (c & Hc & Hx).
    assert (r < c) as Hrc.
    { unfold children in Hc. destruct (get d r) as [n|] eqn:Hr;
        [|by apply elem_of_nil in Hc].
      destruct (Hord r n Hr) as [Hch _].
      by apply (proj1 (Forall_forall _ _) Hch). }
    destruct Hx as [->|Hx]; [done|]. apply IH in Hx. lia.
Qed.

(** The text of a node depends on the node and its descendants only. *)
Lemma text_go_agree d d' :
  forall f r,
    (forall x, x = r \/ x ∈ descendants_go f d r -> get d' x = get d x) ->
    text_go f d' r = text_go f d r.
Proof.
  induction f as [|f IH]; intros r Hag; [done|].
  cbn [text_go]. rewrite (Hag r) by by left.
  destruct (get d r) as [n|] eqn:Hr; [|done].
  destruct (n_kind n); [|done]. f_equal.
  apply map_ext_in. intros c Hc. apply IH. intros x Hx.
  apply Hag. right. apply elem_of_descendants_go. exists c.
  split; [|done]. unfold children. rewrite Hr. by apply list_elem_of_In.
Qed.

(** In an ordered store the text of a node is the same in every store
    that has at least as many nodes and agrees on the node and its
    descendants. *)
Lemma textContent_stable d d' r :
  ordered d -> next d <= next d' ->
  (forall x, x = r \/ x ∈ descendants d r -> get d' x = get d x) ->
  textContent d' r = textContent d r.
Proof.
  intros Hord Hn Hag. unfold textContent.
  rewrite (text_go_agree d d' (next d') r).
  - apply text_go_enough; [done | lia | lia].
  - intros x Hx. apply Hag. destruct Hx as [->|Hx]; [by left | right].
    unfold descendants.
    rewrite (descendants_go_enough d Hord (next d) (next d') r) by lia.
    done.
Qed.

Lemma fold_append_snoc l x :
  foldr String.append "" (l ++ [x]) = foldr String.append "" l ++ x.
Proof.
  induction l as [|y l IH]; simpl.
  - apply append_empty_r.
  - rewrite IH. induction y as [|c y IHy]; [done|].
    change (String c y ++ ?s) with (String c (y ++ s)). by rewrite IHy.
Qed.

Lemma strip_trailing_hash_snoc s : Str.strip_trailing_hash (s ++ "#") = s.
Proof.
  induction s as [|c r IH]; [done|].
  change (String c r ++ "#") with (String c (r ++ "#")).
  cbn [Str.strip_trailing_hash]. rewrite IH.
  destruct (r ++ "#") eqn:E; [by destruct r|].
  cbn [Str.is_empty]. by rewrite andb_false_r.
Qed.

(** The visit of a heading [h0] in a run over the headings of an
    ordered, closed document in which no heading lies inside another:
    the state [wa] before the visit agrees with the start on [h0] and
    its descendants, and the end agrees with the state after the visit
    on [h0], on its former descendants and on the link. *)
Lemma heading_visit w container h0 :
  let d := w_dom w in
  let hs := querySelectorAll d container
              ["h1"; "h2"; "h3"; "h4"; "h5"; "h6"] in
  ordered d -> closed d -> NoDup hs ->
  (forall h h', h ∈ hs -> h' ∈ hs -> h' ∉ descendants d h) ->
  h0 ∈ hs ->
  exists wa w' nh,
    addHeadingAnchors container w = (Ok tt, w')
    /\ get d h0 = Some nh
    /\ next d <= next (w_dom wa)
    /\ (forall x, x = h0 \/ x ∈ descendants d h0 ->
        get (w_dom wa) x = get d x)
    /\ (forall x, x ∈ descendants d h0 -> get (w_dom w') x = get d x)
    /\ (forall r, r = h0 \/ next (w_dom wa) <= r ->
        r < 2 + next (w_dom wa) ->
        get (w_dom w') r = get (heading_dom h0 (w_dom wa)) r).
Proof.
  intros d hs Hord Hcl Hnd Hflat Hin.
  pose proof (querySelectorAll_is_Some d container
                ["h1"; "h2"; "h3"; "h4"; "h5"; "h6"]) as Hall.
  fold hs in Hall.
  destruct (forEach_visit_once addHeadingAnchor addHeadingAnchor_local hs h0 w
              Hall Hnd Hin)
    as (wa & wb & w' & Hrun & Hv & Hsame & Hna & Hfra & Hfr).
  destruct (proj1 (Forall_forall _ _) Hall h0 Hin) as [nh Hh].
  fold d in Hsame, Hna, Hfra. rewrite Hh in Hsame.
  rewrite addHeadingAnchor_run in Hv. injection Hv as <-.
  rewrite w_dom_with_dom in Hfr.
  destruct (heading_dom_facts h0 (w_dom wa) nh 0 _ Hsame eq_refl)
    as (N & _ & _ & _).
  assert (forall r, next d <= r -> r ∉ hs) as Hfresh.
  { intros r Hr Hr'. eapply Forall_forall in Hall; [|exact Hr'].
    destruct Hall as [nr Hnr]. apply get_lt in Hnr. fold d in Hnr. lia. }
  assert (forall x, x ∈ descendants d h0 ->
            (x < next d) /\ (x ∉ hs) /\ (x <> h0)) as Hdesc.
  { intros x Hx. split; [eapply descendants_go_closed; eassumption|].
    split; [intros Hxs; by apply (Hflat h0 x)|].
    apply (descendants_go_above d Hord) in Hx. lia. }
  exists wa, w', nh. split.
  { unfold addHeadingAnchors. rewrite run_dom_read. exact Hrun. }
  split; [done|]. split; [done|]. split; [|split].
  - intros x [->|Hx]; [by rewrite Hsame|].
    destruct (Hdesc x Hx) as (? & ? & ?). by apply Hfra.
  - intros x Hx. destruct (Hdesc x Hx) as (Hlt & Hnot & Hne).
    rewrite Hfr; [|lia | by right].
    destruct (heading_dom_facts h0 (w_dom wa) nh x _ Hsame eq_refl)
      as (_ & _ & _ & Hg).
    rewrite Hg by (done || lia). by apply Hfra.
  - intros r Hcase Hr. apply Hfr; [lia|].
    destruct Hcase as [->|Hge]; [by left | right]. apply Hfresh. lia.
Qed.

End TextFacts.

Section HeadingDocument.
Import DOM DomFacts Page Aux Run LoopFacts VisitFacts HeadingFacts.
Import WalkFacts TextFacts.

(** X16. In a document without dangling or back references and
    without a heading inside a heading, [addHeadingAnchors] gives every
    heading without an id the slug of the text it had before the run,
    and keeps the id of a heading that has one. *)
Theorem addHeadingAnchors_ids_from_text (w : world) (container h0 : ref) :
  let d := w_dom w in
  let hs := DOM.querySelectorAll d container
              ["h1"; "h2"; "h3"; "h4"; "h5"; "h6"] in
  ordered d -> closed d -> NoDup hs ->
  (forall h h', h ∈ hs -> h' ∈ hs -> h' ∉ DOM.descendants d h) ->
  h0 ∈ hs ->
  exists w',
    addHeadingAnchors container w = (Ok tt, w')
    /\ DOM.id (w_dom w') h0
       = if Str.is_empty (DOM.id d h0)
         then slugify (DOM.textContent d h0) else DOM.id d h0.
Proof.
  intros d hs Hord Hcl Hnd Hflat Hin.
  destruct (heading_visit w container h0 Hord Hcl Hnd Hflat Hin)
    as (wa & w' & nh & Hrun & Hh & Hna & Hag & _ & Hfr).
  fold d in Hh, Hna, Hag.
  assert (get (w_dom wa) h0 = Some nh) as Hsame
    by (rewrite Hag; [done | by left]).
  destruct (heading_dom_facts h0 (w_dom wa) nh 0 _ Hsame eq_refl)
    as (N & Gh & _).
  exists w'. split; [done|].
  unfold DOM.id at 1. rewrite Hfr; [|by left | apply get_lt in Hsame; lia].
  rewrite Gh. cbn [n_id]. unfold anchor_id.
  rewrite (textContent_stable d (w_dom wa) h0 Hord Hna Hag).
  unfold DOM.id. by rewrite Hsame, Hh.
Qed.

(** X17. In such a document the text of every heading after
    [addHeadingAnchors] is its former text followed by [#], so that the
    label the table of contents derives from it
    ([textContent.replace(/#$/, '').trim()]) is the former text,
    trimmed. *)
Theorem addHeadingAnchors_appends_hash (w : world) (container h0 : ref) :
  let d := w_dom w in
  let hs := DOM.querySelectorAll d container
              ["h1"; "h2"; "h3"; "h4"; "h5"; "h6"] in
  ordered d -> closed d -> NoDup hs ->
  (forall h h', h ∈ hs -> h' ∈ hs -> h' ∉ DOM.descendants d h) ->
  h0 ∈ hs ->
  exists w',
    addHeadingAnchors container w = (Ok tt, w')
    /\ DOM.textContent (w_dom w') h0 = DOM.textContent d h0 ++ "#"
    /\ Str.trim (Str.strip_trailing_hash (DOM.textContent (w_dom w') h0))
       = Str.trim (DOM.textContent d h0).
Proof.
  intros d hs Hord Hcl Hnd Hflat Hin.
  destruct (heading_visit w container h0 Hord Hcl Hnd Hflat Hin)
    as (wa & w' & nh & Hrun & Hh & Hna & Hag & Hend & Hfr).
  fold d in Hh, Hna, Hag, Hend.
  assert (get (w_dom wa) h0 = Some nh) as Hsame
    by (rewrite Hag; [done | by left]).
  destruct (heading_dom_facts h0 (w_dom wa) nh 0 _ Hsame eq_refl)
    as (N & Gh & Gl & _).
  pose proof (heading_dom_text h0 (w_dom wa) nh Hsame) as Gt.
  pose proof (get_lt _ _ _ Hsame) as Hlt0.
  pose proof (get_lt _ _ _ Hh) as Hlt.
  assert (exists t, n_kind nh = KElement t) as [t Hk].
  { apply list_elem_of_In, filter_In in Hin as [_ Htag].
    unfold has_tag, tag in Htag. fold d in Htag. rewrite Hh in Htag.
    destruct (n_kind nh); [by eexists | done]. }
  set (link := next (w_dom wa)) in *.
  assert (get (w_dom w') h0
          = Some (Node (n_kind nh) (anchor_id (w_dom wa) h0) (n_class nh)
                    (n_attrs nh) (n_parent nh) (n_children nh ++ [link])))
    as Eh by (rewrite Hfr; [done | by left | lia]).
  assert (get (w_dom w') link = get (heading_dom h0 (w_dom wa)) link) as El
    by (apply Hfr; [right|]; lia).
  assert (get (w_dom w') (S link) = get (heading_dom h0 (w_dom wa)) (S link))
    as Et by (apply Hfr; [right|]; lia).
  rewrite Gl in El. rewrite Gt in Et.
  pose proof (get_lt _ _ _ Et) as Hlt'.
  exists w'. split; [done|].
  assert (textContent (w_dom w') h0 = textContent d h0 ++ "#") as ->.
  2:{ split; [done|]. by rewrite strip_trailing_hash_snoc. }
  unfold textContent.
  destruct (next (w_dom w')) as [|k] eqn:Nk; [lia|].
  destruct (next d) as [|m] eqn:Nm; [lia|].
  cbn [text_go]. rewrite Eh, Hh. cbn [n_kind n_children]. rewrite Hk.
  rewrite List.map_app. cbn [List.map]. rewrite fold_append_snoc. f_equal.
  - f_equal. apply map_ext_in. intros c Hc%list_elem_of_In.
    assert (c ∈ children d h0) as Hc' by (unfold children; by rewrite Hh).
    assert (h0 < c) as Hhc.
    { destruct (Hord h0 nh Hh) as [Hch _].
      by apply (proj1 (Forall_forall _ _) Hch). }
    rewrite (text_go_agree d (w_dom w') k c).
    + apply text_go_enough; [done | lia | lia].
    + intros x Hx. apply Hend. unfold descendants. rewrite Nm.
      apply elem_of_descendants_go. exists c. split; [done|].
      destruct Hx as [->|Hx]; [by left | right].
      rewrite (descendants_go_enough d Hord m k c) by lia. done.
  - destruct k as [|[|k]]; try lia.
    cbn [text_go]. rewrite El. cbn [n_kind n_children List.map foldr].
    rewrite Et. cbn [n_kind]. apply append_empty_r.
Qed.

Lemma guide_headings_flat :
  let d := Sample.rendered_dom "guide" in
  let hs := DOM.querySelectorAll d Sample.content
              ["h1"; "h2"; "h3"; "h4"; "h5"; "h6"] in
  NoDup hs
  /\ forall h h', h ∈ hs -> h' ∈ hs -> h' ∉ DOM.descendants d h.
Proof.
  split.
  - vm_compute. apply NoDup_ListNoDup. repeat constructor; simpl; lia.
  - intros h h' Hh Hh'. vm_compute in Hh, Hh'.
    repeat (apply elem_of_cons in Hh as [->|Hh]);
      try (by apply elem_of_nil in Hh);
      repeat (apply elem_of_cons in Hh' as [->|Hh']);
      try (by apply elem_of_nil in Hh');
      vm_compute; intros H;
      repeat (apply elem_of_cons in H as [?|H]; [done|]);
      by apply elem_of_nil in H.
Qed.

Lemma addHeadingAnchors_ids_from_text_witness :
  exists w',
    addHeadingAnchors Sample.content (Sample.rendered "guide") = (Ok tt, w')
    /\ DOM.id (w_dom w') 4 = slugify "Install".
Proof.
  apply (addHeadingAnchors_ids_from_text (Sample.rendered "guide")
           Sample.content 4).
  - apply orderedb_sound. by vm_compute.
  - apply closedb_sound. by vm_compute.
  - apply guide_headings_flat.
  - apply guide_headings_flat.
  - vm_compute. right. by left.
Defined.

Lemma addHeadingAnchors_appends_hash_witness :
  exists w',
    addHeadingAnchors Sample.content (Sample.rendered "guide") = (Ok tt, w')
    /\ DOM.textContent (w_dom w') 4 = "Install" ++ "#"
    /\ Str.trim (Str.strip_trailing_hash (DOM.textContent (w_dom w') 4))
       = Str.trim "Install".
Proof.
  apply (addHeadingAnchors_appends_hash (Sample.rendered "guide")
           Sample.content 4).
  - apply orderedb_sound. by vm_compute.
  - apply closedb_sound. by vm_compute.
  - apply guide_headings_flat.
  - apply guide_headings_flat.
  - vm_compute. right. by left.
Defined.

End HeadingDocument.

(** ** More on the table of contents *)

Module LabelFacts.
Import DOM DomFacts Page Aux Run LoopFacts VisitFacts.
Import WalkFacts TextFacts TocFacts LoaderFacts.

Section Base.
Context (d0 : dom) (Hord : ordered d0) (Hcl : closed d0).

(** The text of a heading of [d0] in a store that has grown from [d0]
    without touching what was there. *)
Lemma text_of_old d h :
  next d0 <= next d -> (forall r, r < next d0 -> get d r = get d0 r) ->
  h < next d0 -> textContent d h = textContent d0 h.
Proof.
  intros Hn Hag Hh. apply textContent_stable; [done | done |].
  intros x [->|Hx]; apply Hag; [done|].
  eapply descendants_go_closed; eassumption.
Qed.

Lemma toc_entry_dom_label list h d nl :
  next d0 <= next d -> (forall r, r < next d0 -> get d r = get d0 r) ->
  h < next d0 -> get d list = Some nl -> next d0 <= list ->
  let d' := toc_entry_dom list h d in
  next d <= next d'
  /\ get d' list = Some (add_child (next d) nl)
  /\ labelled_entry d' list (next d)
       (Str.trim (Str.strip_trailing_hash (textContent d0 h)))
  /\ (forall r, r < next d -> r <> list -> get d' r = get d r).
Proof.
  intros Hn Hag Hh Hl Hlist d'. subst d'.
  pose proof (get_lt _ _ _ Hl) as Hlt.
  split; [|split; [|split]].
  1,2,4: destruct (toc_entry_dom_facts list h d nl 0 (get d 0) Hl) as
      (kids & H1 & H2 & _); [lia | done | lia | lia |]; try done.
  - intros r Hr Hne.
    by destruct (toc_entry_dom_facts list h d nl r (get d r) Hl) as
      (kids' & _ & _ & _ & _ & ?); [lia | done | done | done |].
  - unfold toc_entry_dom, DOM.createElement, alloc. cbn [fst snd].
    match goal with
    | |- context [set_textContent _ (Str.trim (Str.strip_trailing_hash
                                                 (textContent ?d4 h))) _] =>
        rewrite (text_of_old d4 h)
    end; [| | |done].
    2:{ unfold setAttribute, set_className.
        repeat first [rewrite next_update | rewrite next_insert_node]. lia. }
    2:{ intros r Hr. unfold setAttribute, set_className.
        rewrite get_update_ne, get_insert_node_ne, get_update_ne,
          get_insert_node_ne
          by (repeat first [rewrite next_update | rewrite next_insert_node];
              lia).
        by apply Hag. }
    generalize (Str.trim (Str.strip_trailing_hash (textContent d0 h))) as label.
    intros label.
    match goal with
    | |- context [set_className _ ?c _] => generalize c as cls
    end.
    intros cls.
    match goal with
    | |- context [setAttribute _ "href" ?c _] => generalize c as href
    end.
    intros href.
    unfold set_className, setAttribute.
    repeat first [rewrite next_update | rewrite next_insert_node].
    assert (next d = next d) as N by done. revert N.
    generalize (next d) at 2 3 4 5 6 7 8 9 as n. intros n N.
    clear Hag Hn Hh. unfold labelled_entry.
    destruct label as [|c label].
    + repeat dom_step'. split; [lia|]. exists (S n), [].
      split; [lia|]. split; [by eexists|]. split; [by eexists|]. done.
    + repeat dom_step'. split; [lia|]. exists (S n), [S (S n)].
      split; [lia|]. split; [by eexists|]. split; [by eexists|].
      exists (S (S n)). split; [done|]. split; [lia|]. done.
Qed.

End Base.

(** An entry stays one in a store that keeps the nodes other than the
    list and the [nav]. *)
Lemma labelled_entry_agree d d' list li label :
  (forall r n, get d r = Some n -> r <> list ->
     n_kind n <> KElement "nav" -> get d' r = Some n) ->
  labelled_entry d list li label -> labelled_entry d' list li label.
Proof.
  intros Hfr (Hli & a & kids & Ha & [cls Gli] & [attrs Ga] & Hk).
  split; [done|]. exists a, kids. split; [done|].
  split; [exists cls; by apply Hfr|].
  split; [exists attrs; by apply Hfr|].
  destruct label as [|c label]; [done|].
  destruct Hk as (t & -> & Ht & Gt). exists t. split; [done|]. split; [done|].
  by apply Hfr.
Qed.

Lemma labelled_entry_frame d d' list li label :
  (forall r, r < next d -> r <> list -> get d' r = get d r) ->
  labelled_entry d list li label -> labelled_entry d' list li label.
Proof.
  intros Hfr. apply labelled_entry_agree. intros r n Hr Hne _.
  rewrite Hfr; [done | by eapply get_lt | done].
Qed.

Lemma textContent_no_children d r n t :
  get d r = Some n -> n_kind n = KElement t -> n_children n = [] ->
  textContent d r = "".
Proof.
  intros Hr Hk Hc. unfold textContent. pose proof (get_lt _ _ _ Hr).
  destruct (next d) as [|k]; [lia|]. cbn [text_go]. by rewrite Hr, Hk, Hc.
Qed.

(** The link of a labelled entry reads as its label. *)
Lemma labelled_entry_text d list li label :
  labelled_entry d list li label ->
  exists a, children d li = [a] /\ tag d a = Some "a"
            /\ textContent d a = label.
Proof.
  intros (Hli & a & kids & Ha & [cls Gli] & [attrs Ga] & Hk).
  exists a. split; [unfold children; by rewrite Gli|].
  split; [unfold tag; by rewrite Ga|].
  destruct label as [|c label].
  - subst kids. by eapply textContent_no_children.
  - destruct Hk as (t & -> & Ht & Gt).
    eapply textContent_one_text; eauto.
Qed.

Section Entries.
Context (d0 : dom) (Hord : ordered d0) (Hcl : closed d0).

Lemma toc_loop_labels list hs :
  forall w nl,
    next d0 <= next (w_dom w) ->
    (forall r, r < next d0 -> get (w_dom w) r = get d0 r) ->
    get (w_dom w) list = Some nl -> next d0 <= list ->
    Forall (fun h => h < next d0) hs ->
    exists w' entries,
      forEach hs (addTocEntry list) w = (Ok tt, w')
      /\ get (w_dom w') list
         = Some (with_children (n_children nl ++ entries) nl)
      /\ Forall2
           (fun li h =>
              labelled_entry (w_dom w') list li
                (Str.trim (Str.strip_trailing_hash (textContent d0 h))))
           entries hs
      /\ next (w_dom w) <= next (w_dom w')
      /\ (forall r, r < next (w_dom w) -> r <> list ->
          get (w_dom w') r = get (w_dom w) r).
Proof.
  induction hs as [|h hs IH]; intros w nl Hn Hag Hl Hlist Hhs.
  - exists w, []. split; [done|].
    split; [by rewrite with_children_app_nil|].
    split; [constructor|]. by split.
  - apply Forall_cons in Hhs as [Hh Hhs].
    set (d := w_dom w) in *.
    destruct (toc_entry_dom_label d0 Hord Hcl list h d nl Hn Hag Hh Hl Hlist)
      as (N1 & Gl1 & He & Hframe).
    set (d1 := toc_entry_dom list h d) in *.
    set (w1 := log (EListen (S (next d)) "click") (with_dom d1 w)).
    destruct (IH w1 (add_child (next d) nl))
      as (w' & entries & Hrun & Hl' & Hent & Hn' & Hfr'); try done.
    { change (w_dom w1) with d1. lia. }
    { intros r Hr. change (w_dom w1) with d1.
      rewrite Hframe by lia. by apply Hag. }
    change (w_dom w1) with d1 in *.
    exists w', (next d :: entries). split; [|split; [|split; [|split]]].
    + cbn [forEach]. rewrite (run_bind _ _ w tt w1); [exact Hrun|].
      apply addTocEntry_run.
    + rewrite Hl'. unfold add_child, with_children. simpl.
      by rewrite <- app_assoc.
    + constructor; [|done]. eapply labelled_entry_frame; [|exact He]. done.
    + lia.
    + intros r Hr Hrl. rewrite Hfr' by lia. by apply Hframe.
Qed.

End Entries.

Lemma toc_frame_dom_title d :
  let n := next d in
  let d7 := (toc_frame_dom d).2 in
  get d7 (S n)
  = Some (Node (KElement "div") "" "docs-toc-title" [] (Some n) [2 + n])
  /\ get d7 (2 + n)
     = Some (Node (KText "On this page") "" "" [] (Some (S n)) []).
Proof.
  intros n.
  unfold toc_frame_dom, DOM.createElement, alloc, set_className.
  cbn [fst snd].
  assert (next d = n) as N by done. clearbody n.
  repeat first [rewrite next_update | rewrite next_insert_node | rewrite N].
  repeat dom_step'.
  by split.
Qed.


Lemma observe_loop_trace hs :
  forall w,
    forEach hs (fun h => emit (EObserve h)) w
    = (Ok tt,
       World (w_dom w) (w_prism w) (w_hlx w) (w_hash w) (w_document w)
         (w_trace w ++ List.map EObserve hs)).
Proof.
  induction hs as [|h hs IH]; intros w.
  - cbn [forEach List.map]. rewrite app_nil_r. by destruct w.
  - cbn [forEach]. rewrite run_emit, IH. cbn [List.map].
    rewrite w_trace_log, <- app_assoc. reflexivity.
Qed.

End LabelFacts.

Section TocLabels.
Import DOM DomFacts Page Aux Run LoopFacts VisitFacts.
Import WalkFacts TextFacts TocFacts LabelFacts.

(** X18. With three or more headings in a document without dangling
    or back references, the table of contents has the class [docs-toc]
    and the title [On this page], and each item of its list holds one
    link whose text is the text of its heading without a final [#],
    trimmed. *)
Theorem buildTOC_labels (w : world) (container : ref) :
  let d := w_dom w in
  let hs := DOM.querySelectorAll d container ["h2"; "h3"] in
  ordered d -> closed d -> 3 <= length hs ->
  exists w' toc title list,
    buildTOC container w = (Ok (Some toc), w')
    /\ DOM.className (w_dom w') toc = "docs-toc"
    /\ DOM.children (w_dom w') toc = [title; list]
    /\ DOM.className (w_dom w') title = "docs-toc-title"
    /\ DOM.textContent (w_dom w') title = "On this page"
    /\ Forall2
         (fun li h =>
            exists a,
              DOM.children (w_dom w') li = [a]
              /\ DOM.tag (w_dom w') a = Some "a"
              /\ DOM.textContent (w_dom w') a
                 = Str.trim (Str.strip_trailing_hash (DOM.textContent d h)))
         (DOM.children (w_dom w') list) hs.
Proof.
  intros d hs Hord Hcl H.
  assert (Forall (fun h => h < next d) hs) as Hhs
    by apply querySelectorAll_allocated.
  assert ((length hs <? 3)%nat = false) as Hlen by (apply Nat.ltb_ge; lia).
  rewrite (buildTOC_run container w Hlen). fold d hs. cbv zeta.
  set (n := next d) in *.
  assert (forall r, r < n -> get (toc_frame_dom d).2 r = get d r) as Hfr7.
  { intros r Hr.
    by destruct (toc_frame_dom_spec d r (get d r) eq_refl Hr)
      as (_ & _ & _ & _ & ?). }
  assert (0 < n) as Hpos.
  { destruct hs as [|h ?]; [simpl in H; lia|].
    apply Forall_cons in Hhs as [? _]. lia. }
  destruct (toc_frame_dom_spec d 0 (get d 0) eq_refl Hpos)
    as (Hf & N7 & Gtoc & Glist & _).
  destruct (toc_frame_dom_title d) as (Gtitle & Gtext).
  fold n in Hf, N7, Gtoc, Glist, Gtitle, Gtext.
  set (d7 := (toc_frame_dom d).2) in *. rewrite Hf. cbn [fst snd].
  destruct (toc_loop_labels d Hord Hcl (3 + n) hs (with_dom d7 w)
              (blank (KElement "ul")))
    as (w1 & entries & Hrun & Gl1 & Hent & Hn1 & Hfr1); try done.
  { rewrite w_dom_with_dom. fold n. lia. }
  { fold n. lia. }
  rewrite w_dom_with_dom in *.
  destruct (forEach_emit EObserve hs
              (with_dom (appendChild n (3 + n) (w_dom w1)) w1))
    as (w2 & Hobs & Hd2).
  exists w2, n, (S n), (3 + n).
  split.
  { rewrite (run_bind _ _ _ tt w1 Hrun). rewrite run_write.
    by rewrite (run_bind _ _ _ tt w2 Hobs). }
  rewrite Hd2, w_dom_with_dom.
  set (d1 := w_dom w1) in *.
  assert (get d1 n = get d7 n) as Gtoc1 by (apply Hfr1; lia).
  assert (get d1 (S n) = get d7 (S n)) as Gtitle1 by (apply Hfr1; lia).
  assert (get d1 (2 + n) = get d7 (2 + n)) as Gtext1 by (apply Hfr1; lia).
  rewrite Gtoc in Gtoc1. rewrite Gtitle in Gtitle1. rewrite Gtext in Gtext1.
  cbn [blank n_children app] in Gl1.
  rewrite (appendChild_orphan n (3 + n) d1)
    by (unfold parentElement; by rewrite Gl1).
  set (D := update (3 + n) (with_parent (Some n))
              (update n (add_child (3 + n)) d1)).
  assert (get D n
          = Some (Node (KElement "nav") "" "docs-toc" [] None
                    [S n; 3 + n])) as GDn.
  { unfold D. rewrite get_update_ne by lia.
    by rewrite get_update_eq, Gtoc1. }
  assert (get D (3 + n)
          = Some (Node (KElement "ul") "" "" [] (Some n) entries)) as GDl.
  { unfold D. rewrite get_update_eq, get_update_ne by lia.
    by rewrite Gl1. }
  assert (forall r, r <> n -> r <> 3 + n -> get D r = get d1 r) as HD.
  { intros r ? ?. unfold D. by rewrite !get_update_ne by lia. }
  assert (next D = next d1) as ND by done.
  clearbody D.
  assert (get D (S n) = get d1 (S n)) as GDt by (apply HD; lia).
  assert (get D (2 + n) = get d1 (2 + n)) as GDx by (apply HD; lia).
  rewrite Gtitle1 in GDt. rewrite Gtext1 in GDx.
  split; [unfold className; by rewrite GDn|].
  split; [unfold children; by rewrite GDn|].
  split; [unfold className; by rewrite GDt|].
  split; [eapply textContent_one_text; eauto|].
  assert (children D (3 + n) = entries) as ->
    by (unfold children; by rewrite GDl).
  eapply Forall2_impl; [exact Hent|].
  intros li h He. apply labelled_entry_text with (list := 3 + n).
  eapply labelled_entry_agree; [|exact He].
  intros r nr Hr Hrl Hrk. rewrite HD; [done | | done].
  intros ->. rewrite Gtoc1 in Hr. by injection Hr as <-.
Qed.

Lemma buildTOC_labels_witness :
  exists w' toc title list,
    buildTOC Sample.content (Sample.rendered "guide") = (Ok (Some toc), w')
    /\ DOM.className (w_dom w') toc = "docs-toc"
    /\ DOM.children (w_dom w') toc = [title; list]
    /\ DOM.className (w_dom w') title = "docs-toc-title"
    /\ DOM.textContent (w_dom w') title = "On this page"
    /\ Forall2
         (fun li h =>
            exists a,
              DOM.children (w_dom w') li = [a]
              /\ DOM.tag (w_dom w') a = Some "a"
              /\ DOM.textContent (w_dom w') a
                 = Str.trim
                     (Str.strip_trailing_hash
                        (DOM.textContent (Sample.rendered_dom "guide") h)))
         (DOM.children (w_dom w') list) [4; 9; 11].
Proof.
  apply (buildTOC_labels (Sample.rendered "guide") Sample.content).
  - apply orderedb_sound. by vm_compute.
  - apply closedb_sound. by vm_compute.
  - vm_compute. lia.
Defined.

End TocLabels.

Section TocFootprint.
Import DOM DomFacts Page Aux Run TocFacts LoaderFacts LabelFacts.


End TocFootprint.

(** ** The layout of the block

    The augmenters and the table of contents work inside the content
    region and on nodes they allocate.  Stated as an invariant of the
    store that every step keeps, on normal and on exceptional exit, it
    gives the shape of the block once [decorate] is over. *)

Module RegionFacts.
Import DOM DomFacts Page Aux Run MarkupFacts.

Section Region.
Context (lo root : ref) (b : dom).

Lemma children_in_region d r :
  region lo root d -> lo <= r \/ r = root ->
  Forall (fun c => lo <= c) (children d r).
Proof.
  intros (_ & _ & Hc & _) Hr. apply Forall_forall. intros c. by apply Hc.
Qed.

Lemma confined_update r f d :
  confined lo root b d -> lo <= r \/ r = root -> tame lo root r f ->
  confined lo root b (update r f d).
Proof.
  intros [(Hrl & Hn & Hc & Hp) (Hk & Ht & Hpp)] Hr Hf.
  split; [split; [done|split; [done|split]]|split; [|split]].
  - intros r' c Hr' Hin. unfold children in Hin. rewrite get_update in Hin.
    case_decide as E; [subst r'|by apply (Hc r')].
    destruct (get d r) as [n|] eqn:Hg; [|by apply elem_of_nil in Hin].
    destruct (Hf n) as (_ & Hch & _). simpl in Hin.
    assert (Forall (fun c => lo <= c) (n_children (f n))) as HF.
    { apply Hch, Forall_forall. intros c' Hc'. apply (Hc r); [done|].
      unfold children. by rewrite Hg. }
    by apply (proj1 (Forall_forall _ _) HF).
  - intros r' p Hr' Hpar. unfold parentElement in Hpar.
    rewrite get_update in Hpar.
    case_decide as E; [subst r'|by apply (Hp r')].
    destruct (get d r) as [n|] eqn:Hg; [|done].
    destruct (Hf n) as (_ & _ & _ & Hpa). simpl in Hpar.
    destruct (Hpa p Hpar) as [Hold|Hnew]; [|done].
    apply (Hp r); [done|]. unfold parentElement. by rewrite Hg.
  - intros r' Hr' Hne. rewrite get_update_ne; [by apply Hk|].
    destruct Hr as [?| ->]; [lia | done].
  - rewrite <- Ht. unfold tag. rewrite get_update.
    case_decide; [|done]. destruct (get d root) as [n|]; [|done].
    simpl. by destruct (Hf n) as (-> & _).
  - rewrite <- Hpp. unfold parentElement. rewrite get_update.
    case_decide as E; [|done]. destruct (get d root) as [n|]; [|done].
    simpl. by destruct (Hf n) as (_ & _ & -> & _).
Qed.

Lemma confined_insert n d :
  confined lo root b d ->
  Forall (fun c => lo <= c) (n_children n) ->
  (forall p, n_parent n = Some p -> lo <= p \/ p = root) ->
  confined lo root b (insert_node n d).
Proof.
  intros [(Hrl & Hn & Hc & Hp) (Hk & Ht & Hpp)] Hch Hpa.
  split; [split; [done|split; [rewrite next_insert_node; lia|split]]
         |split; [|split]].
  - intros r' c Hr' Hin. unfold children in Hin.
    rewrite get_insert_node in Hin.
    case_decide as E; [|by apply (Hc r')].
    by apply (proj1 (Forall_forall _ _) Hch).
  - intros r' p Hr' Hpar. unfold parentElement in Hpar.
    rewrite get_insert_node in Hpar.
    case_decide as E; [by apply Hpa | by apply (Hp r')].
  - intros r' Hr' Hne. rewrite get_insert_node_ne by lia. by apply Hk.
  - rewrite <- Ht. unfold tag. by rewrite get_insert_node_ne by lia.
  - rewrite <- Hpp. unfold parentElement.
    by rewrite get_insert_node_ne by lia.
Qed.

Lemma confined_next d : confined lo root b d -> lo <= next d.
Proof. by intros [(_ & ? & _) _]. Qed.

Lemma confined_root d : confined lo root b d -> root < lo.
Proof. by intros [(? & _) _]. Qed.

(** *** The changes the pipeline makes *)

Lemma tame_with_class r v : tame lo root r (with_class v).
Proof. intros n. repeat split; auto. Qed.

Lemma tame_with_id r v : tame lo root r (with_id v).
Proof. intros n. repeat split; auto. Qed.

Lemma tame_with_attr r k v : tame lo root r (with_attr k v).
Proof. intros n. repeat split; auto. Qed.

Lemma tame_add_child r c : lo <= c -> tame lo root r (add_child c).
Proof.
  intros Hc n. repeat split; auto. intros H. simpl.
  apply Forall_app. split; [done|]. by constructor.
Qed.

Lemma tame_drop_child r c : tame lo root r (drop_child c).
Proof.
  intros n. repeat split; auto. intros H. simpl.
  apply Forall_forall. intros x Hx%list_elem_of_In%filter_In.
  apply (proj1 (Forall_forall _ _) H). apply list_elem_of_In. tauto.
Qed.

Lemma tame_with_children r cs :
  Forall (fun c => lo <= c) cs -> tame lo root r (with_children cs).
Proof. intros Hc n. repeat split; auto. Qed.

Lemma tame_orphan r :
  root < lo -> lo <= r -> tame lo root r (with_parent None).
Proof. intros Hroot Hr n. repeat split; auto; simpl; [lia | done]. Qed.

Lemma tame_adopted r p :
  root < lo -> lo <= r -> lo <= p \/ p = root ->
  tame lo root r (with_parent (Some p)).
Proof.
  intros Hroot Hr Hp n. repeat split; auto; simpl; [lia|].
  intros p' [= <-]. by right.
Qed.

Context (Hroot : root < lo).

Lemma confined_set_className r v d :
  confined lo root b d -> lo <= r \/ r = root ->
  confined lo root b (set_className r v d).
Proof. intros H Hr. apply confined_update; [done | done | apply tame_with_class]. Qed.

Lemma confined_set_id r v d :
  confined lo root b d -> lo <= r \/ r = root ->
  confined lo root b (set_id r v d).
Proof. intros H Hr. apply confined_update; [done | done | apply tame_with_id]. Qed.

Lemma confined_setAttribute r k v d :
  confined lo root b d -> lo <= r \/ r = root ->
  confined lo root b (setAttribute r k v d).
Proof.
  intros H Hr. apply confined_update; [done | done | apply tame_with_attr].
Qed.

Lemma confined_orphans cs d :
  confined lo root b d -> Forall (fun c => lo <= c) cs ->
  confined lo root b (foldr (fun c => update c (with_parent None)) d cs).
Proof.
  intros H. induction 1 as [|c cs Hc _ IH]; [done|]. simpl.
  apply confined_update; [done | by left | by apply tame_orphan].
Qed.

Lemma confined_remove_children r d :
  confined lo root b d -> lo <= r \/ r = root ->
  confined lo root b (remove_children r d).
Proof.
  intros H Hr. unfold remove_children.
  apply confined_update; [|done|by apply tame_with_children].
  apply confined_orphans; [done|]. apply children_in_region; [apply H|done].
Qed.

Lemma confined_detach c d :
  confined lo root b d -> lo <= c -> confined lo root b (detach c d).
Proof.
  intros H Hc. unfold detach.
  destruct (parentElement d c) as [q|] eqn:Hq; [|done].
  apply confined_update; [|by left|by apply tame_orphan].
  apply confined_update; [done| |apply tame_drop_child].
  destruct H as [(_ & _ & _ & Hp) _]. by apply (Hp c).
Qed.

Lemma confined_appendChild p c d :
  confined lo root b d -> lo <= p \/ p = root -> lo <= c ->
  confined lo root b (appendChild p c d).
Proof.
  intros H Hp Hc. unfold appendChild.
  apply confined_update; [|by left|by apply tame_adopted].
  apply confined_update; [|done|by apply tame_add_child].
  by apply confined_detach.
Qed.

Lemma confined_createElement t d :
  confined lo root b d ->
  confined lo root b (snd (DOM.createElement t d))
  /\ lo <= fst (DOM.createElement t d).
Proof.
  intros H. split; [|by apply confined_next].
  by apply confined_insert.
Qed.

Lemma confined_set_textContent r s d :
  confined lo root b d -> lo <= r \/ r = root ->
  confined lo root b (set_textContent r s d).
Proof.
  intros H Hr. unfold set_textContent.
  pose proof (confined_remove_children r d H Hr) as H1.
  destruct (Str.is_empty s); [done|]. unfold alloc.
  pose proof (confined_next _ H1) as Hn.
  apply confined_update; [|done|].
  - apply confined_insert; [done | done |]. simpl. by intros p [= <-].
  - apply tame_with_children. by constructor.
Qed.

Lemma confined_build h :
  forall p d,
    confined lo root b d -> lo <= p \/ p = root ->
    confined lo root b (build p h d).
Proof.
  induction h as [s|t i c a kids IH] using html_nested_ind;
    intros p d H Hp; cbn [build]; unfold alloc;
    pose proof (confined_next _ H) as Hn.
  - apply confined_update; [|done|by apply tame_add_child].
    apply confined_insert; [done | done |]. simpl. by intros p' [= <-].
  - set (d1 := update p _ _).
    assert (confined lo root b d1) as H1.
    { apply confined_update; [|done|by apply tame_add_child].
      apply confined_insert; [done | done |]. simpl. by intros p' [= <-]. }
    clearbody d1. generalize dependent d1.
    assert (lo <= next d \/ next d = root) as He by by left.
    revert He. generalize (next d) as e. intros e He.
    induction IH as [|k kids Hk _ IHk]; intros d1 H1; [done|].
    cbn [fold_left]. apply IHk. by apply Hk.
Qed.

Lemma confined_set_innerHTML r frag d :
  confined lo root b d -> lo <= r \/ r = root ->
  confined lo root b (set_innerHTML r frag d).
Proof.
  intros H Hr. unfold set_innerHTML.
  pose proof (confined_remove_children r d H Hr) as H1.
  revert H1. generalize (remove_children r d) as acc.
  induction frag as [|k frag IH]; intros acc H1; [done|].
  cbn [fold_left]. apply IH. by apply confined_build.
Qed.

(** The descendants of [root] are in the part. *)
Lemma descendants_go_region d :
  region lo root d ->
  forall f r x, lo <= r \/ r = root -> x ∈ descendants_go f d r -> lo <= x.
Proof.
  intros (_ & _ & Hc & _). induction f as [|f IH]; intros r x Hr Hx.
  - by apply elem_of_nil in Hx.
  - apply TextFacts.elem_of_descendants_go in Hx as (c & Hc' & Hx).
    pose proof (Hc r c Hr Hc') as Hlc.
    destruct Hx as [->|Hx]; [done|]. apply (IH c); [by left | done].
Qed.

Lemma querySelectorAll_region d tags :
  region lo root d ->
  Forall (fun x => lo <= x) (querySelectorAll d root tags).
Proof.
  intros H. apply Forall_forall. intros x Hx%list_elem_of_In%filter_In.
  destruct Hx as [Hx _]. apply list_elem_of_In in Hx.
  eapply descendants_go_region; [done | by right | exact Hx].
Qed.

Lemma querySelectorAll_within_region d outer inner :
  region lo root d ->
  Forall (fun x => lo <= x) (querySelectorAll_within d root outer inner).
Proof.
  intros H. apply Forall_forall. intros x Hx%list_elem_of_In%filter_In.
  destruct Hx as [Hx _]. apply list_elem_of_In in Hx.
  eapply descendants_go_region; [done | by right | exact Hx].
Qed.

End Region.
End RegionFacts.

Module WithinFacts.
Import DOM DomFacts Page Aux Run MarkupFacts RegionFacts.
Import LoaderFacts.

Section Within.
Context (lo root : ref) (b : dom) (Hroot : root < lo).



Lemma within_weaken {A} (Q Q' : A -> Prop) (m : M A) :
  (forall a, Q a -> Q' a) -> within lo root b Q m -> within lo root b Q' m.
Proof.
  intros HQ Hm w Hw. destruct (Hm w Hw) as [Hc Hq]. split; [done|].
  intros a Ha. by apply HQ, Hq.
Qed.

Lemma within_ret {A} (Q : A -> Prop) (a : A) : Q a -> within lo root b Q (mret a).
Proof. intros Ha w Hw. split; [done|]. by intros a' [= <-]. Qed.

Lemma within_throw {A} (Q : A -> Prop) e : within lo root b Q (throw e).
Proof. intros w Hw. split; [done|]. done. Qed.

Lemma within_read {A} (f : world -> A) : within lo root b (fun _ => True) (read f).
Proof. intros w Hw. by split. Qed.

Lemma within_emit ev : within lo root b (fun _ => True) (emit ev).
Proof. intros w Hw. by split. Qed.

Lemma within_dom_read {A} (Q : A -> Prop) (f : dom -> A) :
  (forall d, confined lo root b d -> Q (f d)) -> within lo root b Q (dom_read f).
Proof.
  intros Hf w Hw. split; [done|]. intros a [= <-]. by apply Hf.
Qed.

Lemma within_dom_write f :
  (forall d, confined lo root b d -> confined lo root b (f d)) ->
  within lo root b (fun _ => True) (dom_write f).
Proof. intros Hf w Hw. split; [|done]. by apply Hf. Qed.

Lemma within_create t : within lo root b (fun r => lo <= r) (createElement t).
Proof.
  intros w Hw. destruct (confined_createElement lo root b t _ Hw) as [H1 H2].
  split; [done|]. by intros a [= <-].
Qed.

Lemma within_bind {A B} (Q : A -> Prop) (Q' : B -> Prop) (m : M A)
    (k : A -> M B) :
  within lo root b Q m -> (forall a, Q a -> within lo root b Q' (k a)) -> within lo root b Q' (m ≫= k).
Proof.
  intros Hm Hk w Hw. destruct (Hm w Hw) as [Hc Hq].
  unfold mbind, M_bind. destruct (m w) as [[a|e] w1]; cbn [fst snd] in *.
  - apply (Hk a); [by apply Hq | done].
  - by split.
Qed.

Lemma within_forEach (l : list ref) (f : ref -> M unit) :
  Forall (fun x => lo <= x) l ->
  (forall x, lo <= x -> within lo root b (fun _ => True) (f x)) ->
  within lo root b (fun _ => True) (forEach l f).
Proof.
  intros Hl Hf. induction Hl as [|x l Hx _ IH]; [by apply within_ret|].
  cbn [forEach]. eapply within_bind; [by apply Hf|]. intros _ _. exact IH.
Qed.

Lemma within_forEach_read (l : list ref) (f : ref -> M unit) :
  (forall x, within lo root b (fun _ => True) (f x)) ->
  within lo root b (fun _ => True) (forEach l f).
Proof.
  intros Hf. induction l as [|x l IH]; [by apply within_ret|].
  cbn [forEach]. eapply within_bind; [by apply Hf|]. intros _ _. exact IH.
Qed.

End Within.

Ltac within_write :=
  apply within_dom_write; intros ? ?;
  first
    [ apply confined_set_className; solve [auto]
    | apply confined_set_id; solve [auto]
    | apply confined_setAttribute; solve [auto]
    | apply confined_set_textContent; solve [auto]
    | apply confined_set_innerHTML; solve [auto]
    | apply confined_appendChild; solve [auto] ].

(** A step whose result needs no property. *)
Ltac within_plain :=
  first
    [ apply within_ret; exact Logic.I
    | apply within_throw
    | apply within_read
    | apply within_emit
    | apply within_dom_read; intros; exact Logic.I
    | within_write ].

Ltac within_seq :=
  match goal with
  | |- within _ _ _ _ (createElement _ ≫= _) =>
      eapply within_bind; [by apply within_create | intros ? ?]
  | |- within _ _ _ _ (_ ≫= _) =>
      eapply (within_bind _ _ _ (fun _ => True)); [within_plain | intros ? _]
  end.

Section Confinement.
Context (lo root : ref) (b : dom) (Hroot : root < lo).

Lemma within_highlightBlock X Prism code :
  lo <= code ->
  within lo root b (fun _ => True) (highlightBlock X Prism code).
Proof.
  intros Hc. unfold highlightBlock.
  within_seq.
  eapply (within_bind _ _ _ (fun _ => True)).
  { destruct Prism; within_plain. }
  intros langs _.
  eapply (within_bind _ _ _ (fun _ => True)).
  { destruct (langs !! _); [|within_plain]. within_seq. within_plain. }
  intros _ _. within_seq.
  eapply (within_bind _ _ _
            (fun p => match p with
                      | Some q => lo <= q \/ q = root
                      | None => True
                      end)).
  { apply within_dom_read. intros d [(_ & _ & _ & Hp) _].
    destruct (parentElement d code) as [q|] eqn:E; [|done]. by apply (Hp code). }
  intros [q|] Hq; within_plain.
Qed.

Lemma within_highlightCodeBlocks X Prism :
  within lo root b (fun _ => True) (highlightCodeBlocks X root Prism).
Proof.
  unfold highlightCodeBlocks.
  eapply (within_bind _ _ _ (Forall (fun x => lo <= x))).
  { apply within_dom_read. intros d [H _].
    by apply querySelectorAll_within_region. }
  intros blocks Hb. apply within_forEach; [done|].
  intros code Hc. by apply within_highlightBlock.
Qed.

Lemma within_addCopyButton pre :
  lo <= pre -> within lo root b (fun _ => True) (addCopyButton pre).
Proof.
  intros Hp. unfold addCopyButton. repeat within_seq. within_plain.
Qed.

Lemma within_addCopyButtons :
  within lo root b (fun _ => True) (addCopyButtons root).
Proof.
  unfold addCopyButtons.
  eapply (within_bind _ _ _ (Forall (fun x => lo <= x))).
  { apply within_dom_read. intros d [H _]. by apply querySelectorAll_region. }
  intros pres Hp. apply within_forEach; [done|].
  intros pre ?. by apply within_addCopyButton.
Qed.

Lemma within_addHeadingAnchor h :
  lo <= h -> within lo root b (fun _ => True) (addHeadingAnchor h).
Proof.
  intros Hh. unfold addHeadingAnchor. within_seq.
  eapply (within_bind _ _ _ (fun _ => True)).
  { destruct (Str.is_empty _); [|within_plain]. within_seq. within_plain. }
  intros _ _. repeat within_seq. within_plain.
Qed.

Lemma within_addHeadingAnchors :
  within lo root b (fun _ => True) (addHeadingAnchors root).
Proof.
  unfold addHeadingAnchors.
  eapply (within_bind _ _ _ (Forall (fun x => lo <= x))).
  { apply within_dom_read. intros d [H _]. by apply querySelectorAll_region. }
  intros hs Hh. apply within_forEach; [done|].
  intros h ?. by apply within_addHeadingAnchor.
Qed.

Lemma within_addTocEntry list h :
  lo <= list -> within lo root b (fun _ => True) (addTocEntry list h).
Proof.
  intros Hl. unfold addTocEntry. repeat within_seq. within_plain.
Qed.

Lemma within_buildTOC :
  within lo root b
    (fun r => match r with Some toc => lo <= toc | None => True end)
    (buildTOC root).
Proof.
  unfold buildTOC. within_seq.
  destruct (_ <? 3)%nat; [by apply within_ret|].
  repeat within_seq.
  eapply (within_bind _ _ _ (fun _ => True)).
  { apply within_forEach_read. intros h. by apply within_addTocEntry. }
  intros _ _. within_seq.
  eapply (within_bind _ _ _ (fun _ => True)).
  { apply within_forEach_read. intros h. within_plain. }
  intros _ _. by apply within_ret.
Qed.

End Confinement.
End WithinFacts.

Module LayoutFacts.
Import DOM DomFacts Page Aux Run MarkupFacts RegionFacts.
Import LoaderFacts WithinFacts TocFacts EntryFacts.

(** The [nav] that [buildTOC] returns is new, has the class of the
    table of contents and no parent; the builder does not throw. *)
Lemma buildTOC_nav container w :
  exists r w',
    buildTOC container w = (Ok r, w')
    /\ match r with
       | None => w' = w
       | Some toc =>
           next (w_dom w) <= toc
           /\ get (w_dom w') toc
              = Some (Node (KElement "nav") "" "docs-toc" [] None
                        [S toc; 3 + toc])
       end.
Proof.
  set (d := w_dom w).
  set (hs := querySelectorAll d container ["h2"; "h3"]).
  destruct (length hs <? 3)%nat eqn:Hlen.
  { exists None, w. split; [by apply buildTOC_below | done]. }
  assert (Forall (fun h => h < next d) hs) as Hhs
    by apply querySelectorAll_allocated.
  rewrite (buildTOC_run container w Hlen). fold d hs. cbv zeta.
  set (n := next d) in *.
  assert (0 < n) as Hpos.
  { destruct hs as [|h ?]; [done|].
    apply Forall_cons in Hhs as [? _]. lia. }
  destruct (toc_frame_dom_spec d 0 (get d 0) eq_refl Hpos)
    as (Hf & N7 & Gtoc & Glist & _).
  fold n in Hf, N7, Gtoc, Glist.
  set (d7 := (toc_frame_dom d).2) in *. rewrite Hf. cbn [fst snd].
  destruct (toc_loop (3 + n) hs (with_dom d7 w) _ Glist)
    as (w1 & entries & Hrun & Gl1 & Hent & Hn1 & Hfr1).
  { eapply Forall_impl; [exact Hhs|]. simpl. intros; lia. }
  rewrite w_dom_with_dom in *.
  rewrite (run_bind _ _ _ tt w1 Hrun), run_write.
  rewrite (run_bind _ _ _ tt _ (LabelFacts.observe_loop_trace hs _)), end_ret.
  eexists (Some n), _. split; [reflexivity|]. split; [done|].
  cbn [w_dom]. rewrite w_dom_with_dom.
  set (d1 := w_dom w1) in *.
  assert (get d1 n = get d7 n) as Gtoc1 by (apply Hfr1; lia).
  rewrite Gtoc in Gtoc1. cbn [blank n_children app] in Gl1.
  rewrite (appendChild_orphan n (3 + n) d1)
    by (unfold parentElement; by rewrite Gl1).
  rewrite get_update_ne by lia. by rewrite get_update_eq, Gtoc1.
Qed.

(** The last step of [render] changes nothing in the DOM and does not
    throw. *)
Lemma scroll_run w :
  exists w',
    (hash ← read w_hash;
     if Str.is_empty hash then mret tt
     else
       target ← read (fun w =>
                        DOM.getElementById (w_dom w) (w_document w)
                          (Str.drop 1 hash));
       match target with
       | Some t => emit (ETimeout 100 t)
       | None => mret tt
       end) w = (Ok tt, w')
    /\ w_dom w' = w_dom w.
Proof.
  rewrite run_read. destruct (Str.is_empty (w_hash w)); [by eexists|].
  rewrite run_read. destruct (getElementById _ _ _); by eexists.
Qed.

Section Tail.
Context (lo root : ref) (b : dom) (Hroot : root < lo).
Context (X : external) (Prism : option engine) (wrapper : ref).

(** How the part of [render] after the content is replaced ends:
    with an exception, in a confined store; or normally, in a confined
    store to which the [nav] may have been appended. *)
Lemma render_tail_ends w :
  confined lo root b (w_dom w) ->
  let r :=
    (highlightCodeBlocks X root Prism;;
     addCopyButtons root;;
     addHeadingAnchors root;;
     toc ← buildTOC root;
     match toc with
     | Some t => dom_write (DOM.appendChild wrapper t)
     | None => mret tt
     end;;
     hash ← read w_hash;
     if Str.is_empty hash then mret tt
     else
       target ← read (fun w =>
                        DOM.getElementById (w_dom w) (w_document w)
                          (Str.drop 1 hash));
       match target with
       | Some t => emit (ETimeout 100 t)
       | None => mret tt
       end) w in
  (exists e, fst r = Throw e /\ confined lo root b (w_dom (snd r)))
  \/ (fst r = Ok tt
      /\ exists d1,
          confined lo root b d1
          /\ (w_dom (snd r) = d1
              \/ exists toc,
                  lo <= toc
                  /\ get d1 toc
                     = Some (Node (KElement "nav") "" "docs-toc" [] None
                               [S toc; 3 + toc])
                  /\ w_dom (snd r) = appendChild wrapper toc d1)).
Proof.
  intros Hw r. subst r.
  destruct (within_highlightCodeBlocks lo root b Hroot X Prism w Hw) as [H1 _].
  destruct (highlightCodeBlocks X root Prism w) as [[[]|e] w1] eqn:E1;
    cbn [snd] in H1.
  2:{ rewrite (run_bind_throw _ _ _ _ _ E1). left. by exists e. }
  rewrite (run_bind _ _ _ _ _ E1).
  destruct (within_addCopyButtons lo root b Hroot w1 H1) as [H2 _].
  destruct (addCopyButtons root w1) as [[[]|e] w2] eqn:E2; cbn [snd] in H2.
  2:{ rewrite (run_bind_throw _ _ _ _ _ E2). left. by exists e. }
  rewrite (run_bind _ _ _ _ _ E2).
  destruct (within_addHeadingAnchors lo root b Hroot w2 H2) as [H3 _].
  destruct (addHeadingAnchors root w2) as [[[]|e] w3] eqn:E3; cbn [snd] in H3.
  2:{ rewrite (run_bind_throw _ _ _ _ _ E3). left. by exists e. }
  rewrite (run_bind _ _ _ _ _ E3).
  destruct (within_buildTOC lo root b Hroot w3 H3) as [H4 _].
  destruct (buildTOC_nav root w3) as (toc & w4 & E4 & Htoc).
  rewrite E4 in H4. cbn [snd] in H4.
  rewrite (run_bind _ _ _ _ _ E4). right.
  destruct toc as [toc|].
  - destruct Htoc as [Hn Hg]. rewrite run_write.
    destruct (scroll_run (with_dom (appendChild wrapper toc (w_dom w4)) w4))
      as (w5 & -> & Hd).
    cbn [fst snd].
    split; [done|]. exists (w_dom w4). split; [done|]. right. exists toc.
    rewrite Hd, w_dom_with_dom. split; [|done].
    pose proof (confined_next _ _ _ _ H3). lia.
  - subst w4. rewrite run_ret.
    destruct (scroll_run w3) as (w5 & -> & Hd).
    cbn [fst snd].
    split; [done|]. exists (w_dom w3). split; [done|]. left. done.
Qed.

End Tail.
Lemma confined_builds lo root b frag acc :
  root < lo -> confined lo root b acc ->
  confined lo root b (fold_left (fun a k => build root k a) frag acc).
Proof.
  intros Hroot. revert acc.
  induction frag as [|k frag IH]; intros acc H1; [done|].
  cbn [fold_left]. apply IH. apply confined_build; auto.
Qed.

(** Setting the text of a node leaves alone every node that is neither
    the node nor one of its children. *)
Lemma set_textContent_frame r s d r' :
  r' < next d -> r' <> r -> r' ∉ children d r ->
  get (set_textContent r s d) r' = get d r'.
Proof.
  intros Hlt Hne Hnot. unfold set_textContent.
  assert (get (remove_children r d) r' = get d r') as Hrem
    by by apply get_remove_children_other.
  destruct (Str.is_empty s); [done|]. unfold alloc.
  rewrite get_update_ne by done.
  rewrite get_insert_node_ne; [done|]. rewrite next_remove_children. lia.
Qed.

(** The store with the children of a node [root] removed, when
    nothing is allocated at or above [lo], is confined with respect to
    itself. *)
Lemma confined_start lo root d :
  root < lo -> next d = lo ->
  confined lo root (remove_children root d) (remove_children root d).
Proof.
  intros Hroot Hn. split; [|by repeat split].
  split; [done|]. split; [rewrite next_remove_children; lia|]. split.
  - intros r c [Hr| ->] Hc.
    + unfold children in Hc. rewrite get_ge in Hc;
        [by apply elem_of_nil in Hc | rewrite next_remove_children; lia].
    + rewrite children_remove_children in Hc. by apply elem_of_nil in Hc.
  - intros r p Hr Hp. unfold parentElement in Hp.
    rewrite get_ge in Hp; [done | rewrite next_remove_children; lia].
Qed.

(** The scaffold leaves alone what is neither the block nor one of its
    children. *)
Lemma scaffold_dom_frame block d0 nb r :
  get d0 block = Some nb ->
  r < next d0 -> r <> block -> r ∉ children d0 block ->
  get (scaffold_dom block d0).2 r = get d0 r.
Proof.
  intros Hb Hr Hne Hnot. pose proof (get_lt _ _ _ Hb) as Hlt.
  unfold scaffold_dom, DOM.createElement, alloc.
  cbn [fst snd].
  assert (set_textContent block "" d0 = remove_children block d0) as -> by done.
  unfold set_className.
  repeat first [rewrite next_update | rewrite next_insert_node
               | rewrite next_remove_children].
  destruct (get_remove_children_self _ _ _ Hb) as (nb' & Hb' & Hc & Hk).
  pose proof (get_remove_children_other block d0 r Hne Hnot) as Hr1.
  pose proof (next_remove_children block d0) as Hn.
  generalize dependent (get d0 r). intros v Hr1.
  set (n := next d0) in *.
  set (d1 := remove_children block d0) in *. clearbody d1.
  repeat dom_step. assumption.
Qed.

End LayoutFacts.

Section Layout.
Import DOM DomFacts Page Aux Run Frame MarkupFacts RegionFacts.
Import LoaderFacts WithinFacts TocFacts LayoutFacts.
Import EntryFacts NoticeFacts.

(** X20. On a block with a slug, [decorate] returns, and however the
    pipeline ended, the block then holds exactly the wrapper
    ([div.docs-layout]); the wrapper holds the content region
    ([article]) first and after it, at most, the table of contents
    ([nav.docs-toc]); and the nodes of the page other than the block and
    its former children are what they were. *)
Theorem decorate_layout (X : external) (w : world) (block : ref)
    (t : string) :
  let slug := Str.trim (DOM.textContent (w_dom w) block) in
  DOM.tag (w_dom w) block = Some t ->
  Str.is_empty slug = false ->
  exists w' wrapper content,
    decorate X block w = (Ok tt, w')
    /\ DOM.children (w_dom w') block = [wrapper]
    /\ DOM.tag (w_dom w') wrapper = Some "div"
    /\ DOM.className (w_dom w') wrapper = "docs-layout"
    /\ DOM.parentElement (w_dom w') wrapper = Some block
    /\ DOM.tag (w_dom w') content = Some "article"
    /\ DOM.parentElement (w_dom w') content = Some wrapper
    /\ (DOM.children (w_dom w') wrapper = [content]
        \/ exists toc,
            DOM.children (w_dom w') wrapper = [content; toc]
            /\ DOM.tag (w_dom w') toc = Some "nav"
            /\ DOM.className (w_dom w') toc = "docs-toc"
            /\ DOM.parentElement (w_dom w') toc = Some wrapper)
    /\ (forall r, r < next (w_dom w) -> r <> block ->
        r ∉ DOM.children (w_dom w) block ->
        DOM.get (w_dom w') r = DOM.get (w_dom w) r).
Proof.
  intros slug Htag Hslug.
  unfold tag in Htag.
  destruct (get (w_dom w) block) as [nb|] eqn:Hb; [|discriminate].
  pose proof (get_lt _ _ _ Hb) as Hlt.
  destruct (scaffold_dom_spec block (w_dom w) nb Hb)
    as (d & Hsc & N & (nb' & Gb & Hcb & Hkb) & Gw & Gc & Gl & Gt).
  set (n := next (w_dom w)) in *. cbn [Nat.add] in Gl, Gt.
  set (Wn := Node (KElement "div") "" "docs-layout" [] (Some block) [S n]).
  (* what the theorem needs of the final store *)
  set (Rest := fun D : dom =>
         forall r, r < n -> r <> block -> r ∉ children (w_dom w) block ->
           get D r = get (w_dom w) r).
  set (Good := fun D : dom =>
         Rest D
         /\ get D block = Some nb'
         /\ tag D (S n) = Some "article"
         /\ parentElement D (S n) = Some n
         /\ (get D n = Some Wn
             \/ exists toc,
                 get D n = Some (add_child toc Wn)
                 /\ get D toc
                    = Some (Node (KElement "nav") "" "docs-toc" []
                              (Some n) [S toc; 3 + toc]))).
  (* what the [catch] clause needs of the store it starts from *)
  set (Pre := fun D : dom =>
         Rest D
         /\ next d <= next D
         /\ get D block = Some nb'
         /\ get D n = Some Wn
         /\ tag D (S n) = Some "article"
         /\ parentElement D (S n) = Some n
         /\ children D (S (S n)) = [S (S (S n))]).
  assert (Rest d) as Hrest.
  { intros r Hr Hne Hnot.
    pose proof (scaffold_dom_frame block (w_dom w) nb r Hb Hr Hne Hnot) as E.
    by rewrite Hsc in E. }
  assert (Pre d) as Hpre.
  { unfold Pre, tag, parentElement, children. rewrite Gb, Gw, Gc, Gl.
    by repeat split. }
  assert (forall D msg, Pre D -> Good (set_textContent (S (S n)) msg D))
    as Hnotice.
  { intros D msg (HR & HN & H1 & H2 & H3 & H4 & H5).
    assert (forall r, r < n + 2 -> get (set_textContent (S (S n)) msg D) r
                                   = get D r) as Hfr.
    { intros r Hr. apply set_textContent_frame; [lia | lia |].
      rewrite H5. intros Hin%list_elem_of_singleton. lia. }
    unfold Good, tag, parentElement in *.
    rewrite !Hfr by lia. split; [|split; [done|split; [done|split; [done|]]]].
    - intros r Hr Hne Hnot. rewrite Hfr by lia. by apply HR.
    - by left. }
  assert (exists w', decorate X block w = (Ok tt, w') /\ Good (w_dom w'))
    as (w' & Hrun & HG).
  2:{ exists w', n, (S n). split; [done|].
      destruct HG as (H0 & H1 & H2 & H3 & H4).
      assert (children (w_dom w') block = [n]) as -> 
        by (unfold children; by rewrite H1).
      split; [done|].
      assert (tag (w_dom w') n = Some "div"
              /\ className (w_dom w') n = "docs-layout"
              /\ parentElement (w_dom w') n = Some block) as (-> & -> & ->).
      { unfold tag, className, parentElement.
        by destruct H4 as [H4 | (toc & H4 & H5)]; rewrite H4. }
      do 5 (split; [done|]). split; [|exact H0].
      unfold children, tag, className, parentElement.
      destruct H4 as [H4 | (toc & H4 & H5)]; rewrite H4.
      - by left.
      - right. exists toc. by rewrite H5. }
  rewrite (decorate_run X block w Hslug). cbv zeta. rewrite Hsc.
  cbn [fst snd]. fold slug. set (ws := with_dom d w).
  (* the outcome of [render] *)
  assert (match render X slug n (S n) (S (S n)) ws with
          | (Ok _, w1) => Good (w_dom w1)
          | (Throw _, w1) => Pre (w_dom w1)
          end) as Hrender.
  { unfold render.
    destruct (globals_only_fetch_and_load X slug ws ws) as (_ & _ & Hd);
      [done|].
    change (w_dom ws) with d in Hd.
    destruct (fetch_and_load X slug ws) as [[[resp Prism]|e] w2] eqn:Hfl;
      cbn [snd] in Hd.
    2:{ rewrite (run_bind_throw _ _ _ _ _ Hfl). by rewrite Hd. }
    rewrite (run_bind _ _ _ _ _ Hfl).
    destruct (ok resp); cbn [negb].
    2:{ rewrite end_write, Hd. by apply Hnotice. }
    destruct (body resp) as [md|]; [|rewrite run_throw; by rewrite Hd].
    rewrite run_ret.
    destruct (marked_parse X md) as [markup|];
      [|rewrite run_throw; by rewrite Hd].
    rewrite run_ret, run_write, Hd.
    set (frag := parse_html X markup).
    set (de := remove_children (S n) d).
    set (D0 := set_innerHTML (S n) frag d).
    assert (confined (4 + n) (S n) de D0) as HD0.
    { unfold D0, set_innerHTML. fold de. apply confined_builds; [lia|].
      apply confined_start; [lia | done]. }
    (* the nodes of the scaffold once the content is emptied *)
    assert (get de block = Some nb' /\ get de n = Some Wn
            /\ tag de (S n) = Some "article"
            /\ parentElement de (S n) = Some n
            /\ get de (S (S n))
               = Some (Node (KElement "div") "" "docs-loading" [] None
                         [S (S (S n))])) as (Eb & Ew & Et & Ep & El).
    { unfold de, tag, parentElement. rewrite !get_remove_children.
      unfold children. rewrite Gc, Gb, Gw, Gl. cbn [n_children].
      rewrite (decide_False (P := S n = block)) by lia.
      rewrite (decide_False (P := block ∈ _))
        by (intros ?%list_elem_of_singleton; lia).
      rewrite (decide_False (P := S n = n)) by lia.
      rewrite (decide_False (P := n ∈ _))
        by (intros ?%list_elem_of_singleton; lia).
      rewrite (decide_True (P := S n = S n)) by done.
      rewrite (decide_False (P := S n ∈ _))
        by (intros ?%list_elem_of_singleton; lia).
      rewrite (decide_False (P := S n = S (S n))) by lia.
      rewrite (decide_True (P := S (S n) ∈ _)) by (by left).
      by repeat split. }
    assert (forall r, r < n -> r <> block ->
              r ∉ children (w_dom w) block -> get de r = get (w_dom w) r)
      as Ede.
    { intros r Hr Hne Hnot. unfold de.
      rewrite get_remove_children_other; [by apply Hrest | lia |].
      unfold children. rewrite Gc. intros ?%list_elem_of_singleton. lia. }
    assert (forall D, confined (4 + n) (S n) de D ->
              Rest D
              /\ get D block = Some nb' /\ get D n = Some Wn
              /\ tag D (S n) = Some "article"
              /\ parentElement D (S n) = Some n
              /\ children D (S (S n)) = [S (S (S n))] /\ 4 + n <= next D) as Hkept.
    { intros D [(_ & HN & _) (Hk & Ht & Hp)].
      rewrite Ht, Hp, !Hk by lia.
      unfold children at 1. rewrite Hk, El by lia.
      split; [|by repeat split].
      intros r Hr Hne Hnot. rewrite Hk by lia. by apply Ede. }
    pose proof (render_tail_ends (4 + n) (S n) de ltac:(lia) X Prism n
                  (with_dom D0 w2) HD0) as Htail.
    cbv zeta in Htail.
    match goal with
    | |- match ?r with _ => _ end => set (res := r) in *
    end.
    destruct Htail as [(e & He & Hc) | (Hok & d1 & Hc & Hend)].
    - destruct res as [[a|e'] w3]; [done|].
      cbn [snd] in Hc. destruct (Hkept _ Hc) as (? & ? & ? & ? & ? & ? & ?).
      unfold Pre. repeat split; try done. lia.
    - destruct res as [[a|e'] w3]; [|done].
      cbn [snd] in Hend.
      destruct (Hkept _ Hc) as (K0 & K1 & K2 & K3 & K4 & K5 & K6).
      destruct Hend as [->| (toc & Htoc & Gtoc & ->)].
      + unfold Good. repeat split; try done. by left.
      + rewrite (appendChild_orphan n toc d1)
          by (unfold parentElement; by rewrite Gtoc).
        set (D := update toc _ (update n _ d1)).
        assert (get D block = get d1 block) as E1
          by (unfold D; by rewrite !get_update_ne by lia).
        assert (get D (S n) = get d1 (S n)) as E2
          by (unfold D; by rewrite !get_update_ne by lia).
        assert (get D n = Some (add_child toc Wn)) as E3.
        { unfold D. rewrite get_update_ne by lia.
          by rewrite get_update_eq, K2. }
        assert (get D toc
                = Some (Node (KElement "nav") "" "docs-toc" [] (Some n)
                          [S toc; 3 + toc])) as E4.
        { unfold D. rewrite get_update_eq, get_update_ne by lia.
          by rewrite Gtoc. }
        assert (Rest D) as E0.
        { intros r Hr Hne Hnot. unfold D. rewrite !get_update_ne by lia.
          by apply K0. }
        clearbody D. unfold Good, tag, parentElement in *.
        rewrite E1, E2. split; [done|]. split; [done|]. split; [done|].
        split; [done|]. right. by exists toc. }
  unfold try_catch.
  destruct (render X slug n (S n) (S (S n)) ws) as [[[]|e] w1].
  - by exists w1.
  - eexists. split; [reflexivity|].
    rewrite w_dom_log, w_dom_with_dom. by apply Hnotice.
Qed.

Lemma decorate_layout_witness :
  exists w' wrapper content,
    decorate Sample.site Sample.block (Sample.page "guide") = (Ok tt, w')
    /\ DOM.children (w_dom w') Sample.block = [wrapper]
    /\ DOM.tag (w_dom w') wrapper = Some "div"
    /\ DOM.className (w_dom w') wrapper = "docs-layout"
    /\ DOM.parentElement (w_dom w') wrapper = Some Sample.block
    /\ DOM.tag (w_dom w') content = Some "article"
    /\ DOM.parentElement (w_dom w') content = Some wrapper
    /\ (DOM.children (w_dom w') wrapper = [content]
        \/ exists toc,
            DOM.children (w_dom w') wrapper = [content; toc]
            /\ DOM.tag (w_dom w') toc = Some "nav"
            /\ DOM.className (w_dom w') toc = "docs-toc"
            /\ DOM.parentElement (w_dom w') toc = Some wrapper)
    /\ (forall r, r < next (w_dom (Sample.page "guide")) ->
        r <> Sample.block ->
        r ∉ DOM.children (w_dom (Sample.page "guide")) Sample.block ->
        DOM.get (w_dom w') r = DOM.get (w_dom (Sample.page "guide")) r).
Proof.
  apply (decorate_layout Sample.site (Sample.page "guide") Sample.block
           "div"); reflexivity.
Defined.

End Layout.

(** ** A failure after the content is written *)

Module DetachFacts.
Import DOM DomFacts Page Aux Run MarkupFacts RegionFacts EntryFacts.
Import LayoutFacts.

(** What the scaffold makes of the nodes that were there, the block
    apart: they are as they are once the block has been emptied. *)
Lemma scaffold_dom_old block d0 nb r :
  get d0 block = Some nb ->
  r < next d0 -> r <> block ->
  get (scaffold_dom block d0).2 r = get (remove_children block d0) r.
Proof.
  intros Hb Hr Hne. pose proof (get_lt _ _ _ Hb) as Hlt.
  unfold scaffold_dom, DOM.createElement, alloc.
  cbn [fst snd].
  assert (set_textContent block "" d0 = remove_children block d0) as -> by done.
  unfold set_className.
  repeat first [rewrite next_update | rewrite next_insert_node
               | rewrite next_remove_children].
  destruct (get_remove_children_self _ _ _ Hb) as (nb' & Hb' & Hc & Hk).
  pose proof (next_remove_children block d0) as Hn.
  assert (get (remove_children block d0) r = get (remove_children block d0) r)
    as Hr1 by done.
  revert Hr1. generalize (get (remove_children block d0) r) at 2 3.
  intros v Hr1.
  set (n := next d0) in *.
  set (d1 := remove_children block d0) in *. clearbody d1.
  repeat dom_step. assumption.
Qed.

(** Emptying a node gives no node a child it did not have. *)
Lemma children_remove_children_sub r0 d x c :
  c ∈ children (remove_children r0 d) x -> c ∈ children d x.
Proof.
  unfold children. rewrite get_remove_children.
  destruct (get d x) as [nx|]; cbn [fmap option_fmap option_map];
    [|by intros ?%elem_of_nil].
  repeat case_decide; cbn [n_children with_children with_parent]; try done;
    by intros ?%elem_of_nil.
Qed.

(** A node that is nobody's child is nobody's descendant. *)
Lemma no_parent_no_ancestor d l :
  (forall x, l ∉ children d x) ->
  forall fuel r, l ∉ descendants_go fuel d r.
Proof.
  intros Hno fuel. induction fuel as [|f IH]; intros r; cbn [descendants_go].
  - by intros ?%elem_of_nil.
  - intros Hin. apply list_elem_of_In, in_flat_map in Hin
      as (c & Hc%list_elem_of_In & Hin%list_elem_of_In).
    apply elem_of_cons in Hin as [->|Hin]; [by apply (Hno r) | by apply (IH c)].
Qed.

(** Setting the text of a node gives no node an old node as a child. *)
Lemma children_set_textContent_sub r s d x c :
  c < next d ->
  c ∈ children (set_textContent r s d) x -> c ∈ children d x.
Proof.
  intros Hc. unfold set_textContent.
  destruct (Str.is_empty s); [apply children_remove_children_sub|].
  unfold alloc, children. rewrite get_update, get_insert_node.
  rewrite next_remove_children.
  destruct (decide (x = next d)) as [->|Hx].
  { case_decide; cbn [fmap option_fmap option_map n_children with_children];
      [intros ?%list_elem_of_singleton; lia | by intros ?%elem_of_nil]. }
  intros Hin. apply (children_remove_children_sub r d x c).
  unfold children. revert Hin.
  case_decide; [|done].
  destruct (get (remove_children r d) x);
    cbn [fmap option_fmap option_map n_children with_children];
    [intros ?%list_elem_of_singleton; lia | by intros ?%elem_of_nil].
Qed.

(** Setting the text of a node without a parent leaves it without. *)
Lemma parentElement_set_textContent r s d :
  r < next d ->
  parentElement d r = None -> parentElement (set_textContent r s d) r = None.
Proof.
  intros Hr Hp.
  assert (parentElement (remove_children r d) r = None) as Hrem.
  { unfold parentElement in *. rewrite get_remove_children.
    destruct (get d r) as [nr|]; cbn [fmap option_fmap option_map]; [|done].
    repeat case_decide; cbn [n_parent with_children with_parent]; done. }
  unfold set_textContent. destruct (Str.is_empty s); [done|].
  unfold alloc, parentElement in *.
  rewrite get_update_eq, get_insert_node_ne
    by (rewrite next_remove_children; lia).
  by destruct (get (remove_children r d) r).
Qed.

End DetachFacts.

Section LateFailure.
Import DOM DomFacts Page Aux Run Frame MarkupFacts RegionFacts.
Import LoaderFacts WithinFacts TocFacts LayoutFacts.
Import EntryFacts NoticeFacts DetachFacts TraceFacts VisitFacts.

(** X21. Once the document has been fetched and converted, the loading
    notice is out of the page for good: when [decorate] is over the
    notice has no parent and is a descendant of no node, whether the
    steps after the content was written succeeded or threw.  When one
    of them threw, the error is reported with [console.error] and the
    message of the [catch] clause is the text of that detached notice.
    (X11 is the case where the notice is still in the page.) *)
Theorem decorate_notice_leaves_page (X : external) (w : world)
    (block wrapper content loading : ref) (t : string)
    (resp : response) (Prism : option engine) (md markup : string) :
  let slug := Str.trim (DOM.textContent (w_dom w) block) in
  closed (w_dom w) ->
  DOM.tag (w_dom w) block = Some t ->
  Str.is_empty slug = false ->
  fst (scaffold block w) = Ok (wrapper, content, loading) ->
  fst (fetch_and_load X slug w) = Ok (resp, Prism) ->
  ok resp = true ->
  body resp = Some md ->
  marked_parse X md = Some markup ->
  exists w' evs,
    decorate X block w = (Ok tt, w')
    /\ w_trace w' = (w_trace w ++ evs)%list
    /\ DOM.parentElement (w_dom w') loading = None
    /\ (forall r, loading ∉ DOM.descendants (w_dom w') r)
    /\ (forall e, EConsoleError e ∈ evs ->
        DOM.textContent (w_dom w') loading = "Failed to load documentation").
Proof.
  intros slug Hclosed Htag Hslug Hscaf Hfetch Hok Hbody Hconv.
  unfold tag in Htag.
  destruct (get (w_dom w) block) as [nb|] eqn:Hb; [|discriminate].
  pose proof (get_lt _ _ _ Hb) as Hlt.
  destruct (scaffold_dom_spec block (w_dom w) nb Hb)
    as (d & Hsc & N & (nb' & Gb & Hcb & Hkb) & Gw & Gc & Gl & Gt).
  rewrite scaffold_run, Hsc in Hscaf. cbn [fst] in Hscaf.
  injection Hscaf as <- <- <-.
  set (n := next (w_dom w)) in *. cbn [Nat.add] in Gl, Gt.
  set (L := S (S n)).
  (* what the theorem needs of the final store *)
  set (Out := fun D : dom =>
         parentElement D L = None /\ (forall x, L ∉ children D x)).
  assert (forall D, Out D ->
            parentElement D L = None /\ (forall r, L ∉ descendants D r))
    as Hout.
  { intros D [H1 H2]. split; [done|]. intros r.
    by apply no_parent_no_ancestor. }
  assert (exists w' evs,
            decorate X block w = (Ok tt, w') /\ Out (w_dom w')
            /\ w_trace w' = (w_trace w ++ evs)%list
            /\ (forall e, EConsoleError e ∈ evs ->
                textContent (w_dom w') L = "Failed to load documentation"))
    as (w' & evs & Hrun & HG & Htr & Hmsg).
  2:{ exists w', evs. split; [done|]. split; [done|].
      destruct (Hout _ HG). by repeat split. }
  set (Notice := Node (KElement "div") "" "docs-loading" [] None [S L]).
  assert (forall D, get D L = Some Notice -> Out D ->
            Out (set_textContent L "Failed to load documentation" D)
            /\ textContent (set_textContent L "Failed to load documentation" D)
                 L = "Failed to load documentation")
    as Hnotice.
  { intros D HL [H1 H2]. pose proof (get_lt _ _ _ HL) as HLt.
    split; [split|].
    - by apply parentElement_set_textContent.
    - intros x Hin. apply (H2 x).
      by apply (children_set_textContent_sub L
                  "Failed to load documentation" D x L).
    - rewrite (set_textContent_one L (S L))
        by (unfold children; by rewrite HL).
      eapply (textContent_one_text _ L _ (next D)).
      + by rewrite get_update_eq, get_insert_node_ne, get_update_eq,
          get_update_ne, HL by (rewrite ?next_update; lia).
      + by eexists.
      + done.
      + rewrite get_update_ne by lia.
        rewrite get_insert_node, !next_update.
        by rewrite decide_True by done.
      + done. }
  rewrite (decorate_run X block w Hslug). cbv zeta. rewrite Hsc.
  cbn [fst snd]. fold slug. set (ws := with_dom d w).
  (* the scaffold gives the notice to the content region only *)
  assert (forall x, x <> S n -> L ∉ children d x) as Hd.
  { intros x Hx Hin.
    destruct (decide (x = block)) as [->|Hxb].
    { unfold children in Hin. rewrite Gb, Hcb in Hin.
      apply list_elem_of_singleton in Hin. lia. }
    destruct (decide (x < n)) as [Hxn|Hxn].
    { pose proof (scaffold_dom_old block (w_dom w) nb x Hb Hxn Hxb) as E.
      rewrite Hsc in E. cbn [snd] in E.
      unfold children in Hin. rewrite E in Hin.
      apply (children_remove_children_sub block (w_dom w) x L) in Hin.
      unfold children in Hin.
      destruct (get (w_dom w) x) as [nx|] eqn:Ex;
        [|by apply elem_of_nil in Hin].
      pose proof (Hclosed x nx Ex) as Hall.
      rewrite Forall_forall in Hall. apply Hall in Hin. unfold L in Hin.
      fold n in Hin. lia. }
    unfold children in Hin.
    destruct (decide (x = n)) as [->|?];
      [rewrite Gw in Hin; apply list_elem_of_singleton in Hin; lia|].
    destruct (decide (x = L)) as [->|?];
      [unfold L in Hin; rewrite Gl in Hin;
       apply list_elem_of_singleton in Hin; lia|].
    destruct (decide (x = S L)) as [->|?];
      [unfold L in Hin; rewrite Gt in Hin; by apply elem_of_nil in Hin|].
    rewrite get_ge in Hin by (unfold L in *; lia).
    by apply elem_of_nil in Hin. }
  (* the outcome of [render] *)
  assert (match render X slug n (S n) L ws with
          | (Ok _, w1) => Out (w_dom w1)
          | (Throw _, w1) => Out (w_dom w1) /\ get (w_dom w1) L = Some Notice
          end) as Hrender.
  { unfold render.
    destruct (globals_only_fetch_and_load X slug ws w) as (Hf & _ & Hdom);
      [done|].
    change (w_dom ws) with d in Hdom. rewrite Hfetch in Hf.
    destruct (fetch_and_load X slug ws) as [r2 w2] eqn:Hfl.
    cbn [fst snd] in Hf, Hdom. subst r2.
    rewrite (run_bind _ _ _ _ _ Hfl).
    rewrite Hok. cbn [negb]. rewrite Hbody, run_ret, Hconv, run_ret.
    rewrite run_write, Hdom.
    set (frag := parse_html X markup).
    set (de := remove_children (S n) d).
    set (D0 := set_innerHTML (S n) frag d).
    assert (confined (4 + n) (S n) de D0) as HD0.
    { unfold D0, set_innerHTML. fold de. apply confined_builds; [lia|].
      apply confined_start; [lia | done]. }
    assert (parentElement de L = None) as Ep.
    { unfold de, parentElement, L. rewrite get_remove_children.
      unfold children. rewrite Gc, Gl. cbn [n_children].
      rewrite (decide_False (P := S n = S (S n))) by lia.
      by rewrite (decide_True (P := S (S n) ∈ _)) by (by left). }
    assert (forall x, L ∉ children de x) as Ec.
    { intros x Hin. destruct (decide (x = S n)) as [->|Hx].
      - unfold de in Hin. rewrite children_remove_children in Hin.
        by apply elem_of_nil in Hin.
      - apply children_remove_children_sub in Hin. by apply (Hd x). }
    assert (get de L = Some Notice) as El.
    { unfold de, L. rewrite get_remove_children.
      unfold children. rewrite Gc, Gl. cbn [n_children].
      rewrite (decide_False (P := S n = S (S n))) by lia.
      by rewrite (decide_True (P := S (S n) ∈ _)) by (by left). }
    assert (forall D, confined (4 + n) (S n) de D ->
              Out D /\ get D L = Some Notice) as Hkept.
    { intros D [(_ & HN & Hch & _) (Hk & _ & _)]. split; [split|].
      - unfold parentElement in *. unfold L in *. by rewrite Hk by lia.
      - intros x Hin.
        destruct (decide (4 + n <= x \/ x = S n)) as [Hx|Hx].
        + apply (Hch x L Hx) in Hin. unfold L in Hin. lia.
        + apply (Ec x). unfold children in *. by rewrite <- Hk by lia.
      - rewrite <- El. apply Hk; unfold L; lia. }
    pose proof (render_tail_ends (4 + n) (S n) de ltac:(lia) X Prism n
                  (with_dom D0 w2) HD0) as Htail.
    cbv zeta in Htail.
    match goal with
    | |- match ?r with _ => _ end => set (res := r) in *
    end.
    destruct Htail as [(e & He & Hc) | (Hok' & d1 & Hc & Hend)].
    - destruct res as [[a|e'] w3]; [done|].
      cbn [snd] in Hc. by apply Hkept.
    - destruct res as [[a|e'] w3]; [|done].
      cbn [snd] in Hend. destruct (Hkept _ Hc) as [[K1 K2] K3].
      destruct Hend as [->| (toc & Htoc & Gtoc & ->)]; [done|].
      rewrite (appendChild_orphan n toc d1)
        by (unfold parentElement; by rewrite Gtoc).
      split.
      + unfold parentElement in *. unfold L in *.
        by rewrite !get_update_ne by lia.
      + intros x. pose proof (K2 x) as K2x. unfold children in *.
        destruct (decide (x = toc)) as [->|?].
        { rewrite get_update_eq, get_update_ne by lia. rewrite Gtoc.
          cbn [fmap option_fmap option_map n_children with_parent].
          unfold L. intros Hin.
          apply elem_of_cons in Hin as [Hin|Hin]; [lia|].
          apply list_elem_of_singleton in Hin. lia. }
        rewrite get_update_ne by done.
        destruct (decide (x = n)) as [->|?];
          [|by rewrite get_update_ne by done].
        rewrite get_update_eq.
        destruct (get d1 n) as [nn|];
          cbn [fmap option_fmap option_map n_children add_child];
          [|by intros ?%elem_of_nil].
        intros [Hin|Hin%list_elem_of_singleton]%elem_of_app; [done|].
        unfold L in Hin. lia. }
  (* what [render] reports *)
  destruct (emits_render (fun _ => True)
              (fun ev => forall e, ev <> EConsoleError e)
              ltac:(done) X) with (slug := slug) (wrapper := n)
              (content := S n) (loading := L) (w := ws)
    as (_ & evs & Ht & Hp); try done.
  { apply emits_loadPrism; done. }
  change (w_trace ws) with (w_trace w) in Ht.
  unfold try_catch. change (S (S n)) with L.
  destruct (render X slug n (S n) L ws) as [[[]|e] w1]; cbn [snd] in Ht.
  - exists w1, evs. split; [reflexivity|]. split; [exact Hrender|].
    split; [done|]. intros e He.
    rewrite Forall_forall in Hp. by destruct (Hp _ He e).
  - destruct Hrender as [Ho Hg].
    destruct (Hnotice _ Hg Ho) as [Ho' Htxt].
    eexists _, (evs ++ [EConsoleError e])%list. split; [reflexivity|].
    rewrite w_dom_log, w_dom_with_dom. split; [done|]. split; [|done].
    rewrite w_trace_log. change (w_trace (with_dom _ w1)) with (w_trace w1).
    by rewrite Ht, app_assoc.
Qed.

Lemma decorate_notice_leaves_page_witness :
  exists w' evs,
    decorate Sample.site Sample.block (Sample.page "nested") = (Ok tt, w')
    /\ w_trace w' = (w_trace (Sample.page "nested") ++ evs)%list
    /\ DOM.parentElement (w_dom w') 5 = None
    /\ (forall r, 5 ∉ DOM.descendants (w_dom w') r)
    /\ (forall e, EConsoleError e ∈ evs ->
        DOM.textContent (w_dom w') 5 = "Failed to load documentation").
Proof.
  apply (decorate_notice_leaves_page Sample.site (Sample.page "nested")
           Sample.block 3 4 5 "div" (Response true 200 (Some "nested"))
           (Some Sample.loaded_engine) "nested" "nested");
    try reflexivity.
  apply TextFacts.closedb_sound. reflexivity.
Defined.

End LateFailure.

(** ** The listeners

    The click listener of a copy button and of an entry of the table of
    contents. *)

Module TokenFacts.
Import Str DOM Aux Run.

Lemma append_assoc (a b c : string) : (a ++ b) ++ c = a ++ (b ++ c).
Proof.
  induction a as [|x a IH]; [done|].
  change (String x ((a ++ b) ++ c) = String x (a ++ (b ++ c))).
  by rewrite IH.
Qed.

Lemma forallb_append p a b :
  forallb p (a ++ b) = forallb p a && forallb p b.
Proof.
  induction a as [|x a IH]; simpl; [done|]. by rewrite IH, andb_assoc.
Qed.

Lemma is_empty_append a b : is_empty (a ++ b) = is_empty a && is_empty b.
Proof. by destruct a. Qed.

(** Reading on through a stretch without white space. *)
Lemma tokens_aux_word cur t rest :
  forallb (fun c => negb (is_ascii_ws c)) t = true ->
  tokens_aux cur (t ++ rest) = tokens_aux (cur ++ t) rest.
Proof.
  revert cur. induction t as [|c t IH]; intros cur Ht; simpl in *.
  - by rewrite append_empty_r.
  - apply andb_prop in Ht as [Hc Ht].
    destruct (is_ascii_ws c); [done|].
    rewrite (IH _ Ht), append_assoc. done.
Qed.

Lemma tokens_aux_valid cur s :
  forallb (fun c => negb (is_ascii_ws c)) cur = true ->
  Forall (fun t => is_token t = true) (tokens_aux cur s).
Proof.
  revert cur. induction s as [|c s IH]; intros cur Hcur; simpl.
  - destruct (is_empty cur) eqn:E; [done|].
    apply Forall_cons. split; [|done]. unfold is_token. by rewrite E, Hcur.
  - destruct (is_ascii_ws c) eqn:Hc.
    + destruct (is_empty cur) eqn:E; [by apply IH|].
      apply Forall_cons. split; [|by apply IH].
      unfold is_token. by rewrite E, Hcur.
    + apply IH. rewrite forallb_append, Hcur. simpl. by rewrite Hc.
Qed.

Lemma tokens_valid s : Forall (fun t => is_token t = true) (tokens s).
Proof. by apply tokens_aux_valid. Qed.

Lemma ordered_set_valid ts :
  Forall (fun t => is_token t = true) ts ->
  Forall (fun t => is_token t = true) (ordered_set ts).
Proof.
  induction 1 as [|t ts Ht _ IH]; cbn [ordered_set]; [done|].
  apply Forall_cons. split; [done|].
  apply Forall_forall. intros u Hu%list_elem_of_In%filter_In.
  destruct Hu as [Hu%list_elem_of_In _].
  by apply (proj1 (Forall_forall _ _) IH).
Qed.

(** Writing a token set back and reading it again gives the set. *)
Lemma tokens_serialize ts :
  Forall (fun t => is_token t = true) ts -> tokens (serialize ts) = ts.
Proof.
  unfold tokens. induction 1 as [|t ts Ht Hts IH]; [done|].
  unfold is_token in Ht. apply andb_prop in Ht as [Hne Hws].
  apply negb_true_iff in Hne.
  destruct ts as [|u ts].
  - cbn [serialize]. rewrite <- (append_empty_r t) at 1.
    rewrite (tokens_aux_word _ _ _ Hws). change ("" ++ t) with t.
    cbn [tokens_aux]. by rewrite Hne.
  - change (serialize (t :: u :: ts))
      with (t ++ String " " (serialize (u :: ts))).
    rewrite (tokens_aux_word _ _ _ Hws). change ("" ++ t) with t.
    cbn [tokens_aux]. change (is_ascii_ws " ") with true. cbn iota.
    by rewrite Hne, IH.
Qed.

End TokenFacts.

Module ButtonFacts.
Import Str DOM DomFacts Aux Run VisitFacts TokenFacts Listeners.

Lemma elem_of_ordered_set ts u : u ∈ ordered_set ts <-> u ∈ ts.
Proof.
  induction ts as [|t ts IH]; cbn [ordered_set]; [done|].
  rewrite !elem_of_cons, list_elem_of_In, filter_In, <- list_elem_of_In, IH.
  split; [intros [->|[Hu _]]; [by left | by right]|].
  intros [->|Hu]; [by left|].
  destruct (String.eqb u t) eqn:E; [left; by apply String.eqb_eq | by right].
Qed.

Lemma ordered_set_NoDup ts : NoDup (ordered_set ts).
Proof.
  induction ts as [|t ts IH]; cbn [ordered_set]; [constructor|].
  apply NoDup_cons. split.
  - rewrite list_elem_of_In, filter_In. intros [_ H].
    by rewrite String.eqb_refl in H.
  - apply NoDup_ListNoDup, List.NoDup_filter. by apply NoDup_ListNoDup.
Qed.

Lemma filter_all {A} (p : A -> bool) l :
  (forall x, x ∈ l -> p x = true) -> List.filter p l = l.
Proof.
  induction l as [|x l IH]; intros H; cbn [List.filter]; [done|].
  rewrite (H x) by (by left). rewrite IH; [done|].
  intros y Hy. apply H. by right.
Qed.

(** A list without duplicates is its own token set. *)
Lemma ordered_set_fixed ts : NoDup ts -> ordered_set ts = ts.
Proof.
  induction 1 as [|t ts Hnot _ IH]; cbn [ordered_set]; [done|].
  rewrite IH. f_equal. apply filter_all. intros u Hu.
  apply negb_true_iff, String.eqb_neq. by intros ->.
Qed.

Lemma filter_snoc_out (c : string) (l : list string) :
  List.filter (fun u => negb (String.eqb u c)) (l ++ [c])
  = List.filter (fun u => negb (String.eqb u c)) l.
Proof.
  rewrite List.filter_app. cbn [List.filter]. rewrite String.eqb_refl.
  cbn [negb]. by rewrite app_nil_r.
Qed.

Lemma existsb_elem_of (c : string) (l : list string) :
  List.existsb (String.eqb c) l = true <-> c ∈ l.
Proof.
  rewrite existsb_exists. split.
  - intros (x & Hx%list_elem_of_In & ->%String.eqb_eq). done.
  - intros H. exists c. split; [by apply list_elem_of_In|].
    apply String.eqb_refl.
Qed.

(** The class of a node after its text is set, and after its class is
    set. *)
Lemma className_set_textContent r s d :
  r < next d -> className (set_textContent r s d) r = className d r.
Proof.
  intros Hr.
  assert (className (remove_children r d) r = className d r) as Hrem.
  { unfold className. rewrite MarkupFacts.get_remove_children.
    destruct (get d r); cbn [fmap option_fmap option_map]; [|done].
    by repeat case_decide. }
  unfold set_textContent. destruct (is_empty s); [done|].
  unfold alloc, className in *.
  rewrite get_update_eq, get_insert_node_ne
    by (rewrite next_remove_children; lia).
  by destruct (get (remove_children r d) r).
Qed.

Lemma className_set_className r v d :
  is_Some (get d r) -> className (set_className r v d) r = v.
Proof.
  intros [n Hn]. unfold className, set_className.
  by rewrite get_update_eq, Hn.
Qed.

(** The text does not depend on classes. *)
Lemma text_go_set_className r v d fuel x :
  text_go fuel (set_className r v d) x = text_go fuel d x.
Proof.
  revert x. induction fuel as [|f IH]; intros x; [done|].
  cbn [text_go]. unfold set_className. rewrite get_update.
  assert (forall cs, List.map (text_go f (update r (with_class v) d)) cs
                     = List.map (text_go f d) cs) as Hmap.
  { intros cs. apply List.map_ext. intros c. apply IH. }
  case_decide; [subst|]; destruct (get d x) as [n|];
    cbn [fmap option_fmap option_map]; try done.
  - cbn [n_kind n_children with_class]. destruct (n_kind n); [|done].
    by rewrite Hmap.
  - destruct (n_kind n); [|done]. by rewrite Hmap.
Qed.

Lemma textContent_set_className r v d :
  textContent (set_className r v d) r = textContent d r.
Proof. unfold textContent. apply text_go_set_className. Qed.

(** The text of an element after its text is set. *)
Lemma textContent_set_textContent r t s d :
  tag d r = Some t -> textContent (set_textContent r s d) r = s.
Proof.
  intros Ht. unfold tag in Ht.
  destruct (get d r) as [n|] eqn:Hn; [|done].
  destruct (n_kind n) as [t'|] eqn:Hk; [|done].
  pose proof (get_lt _ _ _ Hn) as Hlt.
  destruct (get_remove_children_self _ _ _ Hn) as (n' & Hn' & Hc & Hk').
  unfold set_textContent. destruct s as [|c s]; cbn [is_empty].
  - unfold textContent. rewrite next_remove_children.
    destruct (next d) as [|f]; [lia|]. cbn [text_go].
    by rewrite Hn', Hk', Hk, Hc.
  - unfold alloc.
    eapply (textContent_one_text _ r _ (next (remove_children r d))).
    + by rewrite get_update_eq, get_insert_node_ne, Hn'
        by (rewrite next_remove_children; lia).
    + cbn [n_kind with_children]. rewrite Hk', Hk. by eexists.
    + done.
    + rewrite get_update_ne by (rewrite next_remove_children; lia).
      apply get_insert_node_eq.
    + done.
Qed.

Lemma tag_set_textContent r s d :
  r < next d -> tag (set_textContent r s d) r = tag d r.
Proof.
  intros Hr.
  assert (tag (remove_children r d) r = tag d r) as Hrem.
  { unfold tag. rewrite MarkupFacts.get_remove_children.
    destruct (get d r); cbn [fmap option_fmap option_map]; [|done].
    by repeat case_decide. }
  unfold set_textContent. destruct (is_empty s); [done|].
  unfold alloc, tag in *.
  rewrite get_update_eq, get_insert_node_ne
    by (rewrite next_remove_children; lia).
  by destruct (get (remove_children r d) r).
Qed.

Lemma tag_set_className r v d : tag (set_className r v d) r = tag d r.
Proof.
  unfold tag, set_className. rewrite get_update_eq. by destruct (get d r).
Qed.

Lemma tag_lt d r t : tag d r = Some t -> r < next d.
Proof.
  unfold tag. destruct (get d r) eqn:E; [|done]. intros _.
  by eapply get_lt.
Qed.

Lemma tag_is_Some d r t : tag d r = Some t -> is_Some (get d r).
Proof. unfold tag. destruct (get d r); [by eexists | done]. Qed.

(** The class list of an element after its text is set and its class
    is written back from the token set [ts]. *)
Lemma classList_written r t s ts d :
  tag d r = Some t ->
  Forall (fun u => is_token u = true) ts ->
  let d' := set_className r (serialize ts) (set_textContent r s d) in
  tag d' r = Some t /\ classList d' r = ts /\ textContent d' r = s.
Proof.
  intros Ht Hts d'. subst d'. pose proof (tag_lt _ _ _ Ht) as Hlt.
  assert (tag (set_textContent r s d) r = Some t) as Ht1
    by by rewrite tag_set_textContent.
  split; [by rewrite tag_set_className|]. split.
  - unfold classList. rewrite className_set_className
      by by eapply tag_is_Some.
    by apply tokens_serialize.
  - rewrite textContent_set_className. by eapply textContent_set_textContent.
Qed.

End ButtonFacts.

Section CopyButton.
Import Str DOM DomFacts Aux Run VisitFacts TokenFacts Listeners ButtonFacts.

(** X22. The state of a copy button over a click: for a button whose
    class list has no duplicate and not the token [copied], the listener
    makes the text [Copied!] and appends [copied] to the class list; a
    second click before the timer changes nothing; and the timer puts
    the text [Copy] and the class list of before back. *)
Theorem copy_button_round_trip (d : dom) (btn : ref) (t : string) :
  DOM.tag d btn = Some t ->
  NoDup (DOM.classList d btn) ->
  "copied" ∉ DOM.classList d btn ->
  let d1 := markCopied btn d in
  let d2 := resetButton btn d1 in
  DOM.textContent d1 btn = "Copied!"
  /\ DOM.classList d1 btn = (DOM.classList d btn ++ ["copied"])%list
  /\ DOM.classList (markCopied btn d1) btn = DOM.classList d1 btn
  /\ DOM.textContent d2 btn = "Copy"
  /\ DOM.classList d2 btn = DOM.classList d btn.
Proof.
  intros Ht Hnd Hnot d1 d2.
  set (cl := classList d btn) in *.
  assert (Forall (fun u => is_token u = true) cl) as Hcl by apply tokens_valid.
  assert (Forall (fun u => is_token u = true) (cl ++ ["copied"])) as Hcl1.
  { apply Forall_app. split; [done|]. by apply Forall_cons. }
  assert (NoDup (cl ++ ["copied"])) as Hnd1.
  { apply NoDup_app. split; [done|]. split; [|apply NoDup_singleton].
    intros u Hu ->%list_elem_of_singleton. done. }
  (* the click *)
  assert (d1 = set_className btn (serialize (cl ++ ["copied"]))
                 (set_textContent btn "Copied!" d)) as E1.
  { unfold d1, markCopied, classList_add, classList.
    rewrite className_set_textContent by by eapply tag_lt.
    fold (classList d btn). fold cl. rewrite (ordered_set_fixed cl Hnd).
    destruct (List.existsb (String.eqb "copied") cl) eqn:E; [|done].
    by apply existsb_elem_of in E. }
  destruct (classList_written btn t "Copied!" _ d Ht Hcl1)
    as (Ht1 & Hc1 & Hx1).
  rewrite <- E1 in Ht1, Hc1, Hx1.
  split; [done|]. split; [done|].
  (* a second click *)
  split.
  { assert (markCopied btn d1
            = set_className btn (serialize (cl ++ ["copied"]))
                (set_textContent btn "Copied!" d1)) as ->.
    { unfold markCopied, classList_add, classList.
      rewrite className_set_textContent by by eapply tag_lt.
      fold (classList d1 btn). rewrite Hc1, (ordered_set_fixed _ Hnd1).
      by rewrite (proj2 (existsb_elem_of "copied" (cl ++ ["copied"])))
        by (apply elem_of_app; right; by left). }
    rewrite Hc1.
    by destruct (classList_written btn t "Copied!" _ d1 Ht1 Hcl1)
      as (_ & -> & _). }
  (* the timer *)
  assert (d2 = set_className btn (serialize cl)
                 (set_textContent btn "Copy" d1)) as E2.
  { unfold d2, resetButton, classList_remove, classList.
    rewrite className_set_textContent by by eapply tag_lt.
    fold (classList d1 btn). rewrite Hc1, (ordered_set_fixed _ Hnd1).
    rewrite filter_snoc_out, filter_all; [done|].
    intros u Hu. apply negb_true_iff, String.eqb_neq. by intros ->. }
  destruct (classList_written btn t "Copy" _ d1 Ht1 Hcl) as (_ & Hc2 & Hx2).
  rewrite <- E2 in Hc2, Hx2. done.
Qed.

Lemma copy_button_round_trip_witness :
  let d := w_dom (snd (addCopyButtons Sample.content
                         (Sample.rendered "guide"))) in
  let d1 := markCopied 13 d in
  let d2 := resetButton 13 d1 in
  DOM.textContent d1 13 = "Copied!"
  /\ DOM.classList d1 13 = (DOM.classList d 13 ++ ["copied"])%list
  /\ DOM.classList (markCopied 13 d1) 13 = DOM.classList d1 13
  /\ DOM.textContent d2 13 = "Copy"
  /\ DOM.classList d2 13 = DOM.classList d 13.
Proof.
  apply (copy_button_round_trip
           (w_dom (snd (addCopyButtons Sample.content
                          (Sample.rendered "guide"))))
           13 "button").
  - reflexivity.
  - vm_compute. apply NoDup_singleton.
  - vm_compute. intros H%list_elem_of_singleton. discriminate H.
Defined.

End CopyButton.

Module GrowFacts.
Import Str DOM DomFacts Page Aux Run LoopFacts VisitFacts TextFacts.
Import WalkFacts.

Lemma grown_refl d : grown d d.
Proof.
  split; [done|]. split.
  - intros r Hr. split; [done|]. exists []. by rewrite app_nil_r.
  - intros r Hr. unfold tag, children. rewrite get_ge by done.
    split; [by right | done].
Qed.

(** One more button. *)
Lemma grown_button d0 d h t :
  grown d0 d -> h < next d0 -> tag d0 h = Some t ->
  grown d0 (button_dom h d).
Proof.
  intros (Hn & Hold & Hnew) Hh Ht.
  destruct (Hold h Hh) as (Hth & extra & Hch & Hex).
  rewrite Ht in Hth. unfold tag in Hth.
  destruct (get d h) as [nh|] eqn:Gh; [|done].
  assert (forall r v, get d r = v ->
            next (button_dom h d) = 2 + next d
            /\ get (button_dom h d) h
               = Some (Node (n_kind nh) (n_id nh) (n_class nh)
                         (n_attrs (with_attr "style.position" "relative" nh))
                         (n_parent nh) (n_children nh ++ [next d]))
            /\ get (button_dom h d) (next d)
               = Some (Node (KElement "button") "" "docs-copy-btn"
                         [("aria-label", "Copy code to clipboard")] (Some h)
                         [S (next d)])
            /\ get (button_dom h d) (S (next d))
               = Some (Node (KText "Copy") "" "" [] (Some (next d)) [])
            /\ (r < next d -> r <> h -> get (button_dom h d) r = v)) as F.
  { intros r v Hv. by apply (button_dom_facts h d nh r v Gh Hv). }
  destruct (F 0 _ eq_refl) as (N & Gp & Gb & Gx & _).
  split; [lia|]. split.
  - intros r Hr. destruct (decide (r = h)) as [->|Hne].
    + rewrite Ht. unfold tag, children. rewrite Gp. cbn [n_kind n_children].
      split; [done|].
      exists (extra ++ [next d])%list. unfold children in Hch.
      rewrite Gh in Hch. rewrite Hch, app_assoc. split; [done|].
      apply Forall_app. split; [done|]. apply Forall_cons. split; [lia|done].
    + destruct (F r _ eq_refl) as (_ & _ & _ & _ & Hfr).
      unfold tag, children. rewrite Hfr by (done || lia).
      apply (Hold r Hr).
  - intros r Hr.
    destruct (decide (r < next d)) as [Hlt|Hge].
    { destruct (F r _ eq_refl) as (_ & _ & _ & _ & Hfr).
      unfold tag, children. rewrite Hfr by (done || lia).
      apply (Hnew r Hr). }
    unfold tag, children.
    destruct (decide (r = next d)) as [->|?].
    { rewrite Gb. cbn [n_kind n_children]. split; [by left|].
      apply Forall_cons. split; [lia|done]. }
    destruct (decide (r = S (next d))) as [->|?].
    { rewrite Gx. cbn [n_kind n_children]. split; [by right|done]. }
    rewrite get_ge by lia. split; [by right|done].
Qed.

Lemma grown_buttons d0 (pres : list ref) :
  Forall (fun h : ref => h < next d0 /\ exists t, tag d0 h = Some t) pres ->
  forall w, grown d0 (w_dom w) ->
    grown d0 (w_dom (snd (forEach pres addCopyButton w))).
Proof.
  induction 1 as [|h pres [Hh [t Ht]] _ IH]; intros w Hw; [done|].
  cbn [forEach].
  rewrite (run_bind _ _ w tt _ (addCopyButton_run h w)).
  apply IH. rewrite w_dom_log, w_dom_with_dom. by eapply grown_button.
Qed.

(** The descendants of a new node are new. *)
Lemma grown_new_descendants d d' :
  grown d d' ->
  forall f r, next d <= r ->
    Forall (fun x => next d <= x) (descendants_go f d' r).
Proof.
  intros (_ & _ & Hnew). induction f as [|f IH]; intros r Hr; [done|].
  apply Forall_forall. intros x Hx.
  apply elem_of_descendants_go in Hx as (c & Hc & Hx).
  destruct (Hnew r Hr) as [_ Hcs].
  pose proof (proj1 (Forall_forall _ _) Hcs c Hc) as Hcn.
  destruct Hx as [->|Hx]; [done|].
  by apply (proj1 (Forall_forall _ _) (IH c Hcn)).
Qed.

Lemma filter_none {A} (p : A -> bool) l :
  Forall (fun x => p x = false) l -> List.filter p l = [].
Proof.
  induction 1 as [|x l Hx _ IH]; [done|]. cbn [List.filter].
  by rewrite Hx.
Qed.

Lemma filter_flat_map {A B} (p : B -> bool) (g : A -> list B) l :
  List.filter p (List.flat_map g l)
  = List.flat_map (fun a => List.filter p (g a)) l.
Proof.
  induction l as [|a l IH]; [done|]. cbn [List.flat_map].
  by rewrite List.filter_app, IH.
Qed.

Lemma flat_map_ext_in {A B} (g1 g2 : A -> list B) l :
  (forall a, a ∈ l -> g1 a = g2 a) ->
  List.flat_map g1 l = List.flat_map g2 l.
Proof.
  induction l as [|a l IH]; intros H; [done|]. cbn [List.flat_map].
  rewrite (H a) by (by left). rewrite IH; [done|].
  intros b Hb. apply H. by right.
Qed.

(** The old nodes among the descendants of an old node are its
    descendants in the old store, in the same order. *)
Lemma grown_old_descendants d d' :
  closed d -> grown d d' ->
  forall f r, r < next d ->
    List.filter (fun x => (x <? next d)%nat) (descendants_go f d' r)
    = descendants_go f d r.
Proof.
  intros Hcl Hg. pose proof Hg as (_ & Hold & _).
  induction f as [|f IH]; intros r Hr; [done|].
  cbn [descendants_go].
  destruct (Hold r Hr) as (_ & extra & -> & Hex).
  rewrite List.flat_map_app, List.filter_app.
  rewrite (filter_none _ (List.flat_map _ extra)), app_nil_r.
  - rewrite filter_flat_map. apply flat_map_ext_in. intros c Hc.
    pose proof (children_closed d r c Hcl Hc) as Hlt.
    cbn [List.filter]. rewrite (proj2 (Nat.ltb_lt c (next d)) Hlt).
    by rewrite IH.
  - apply Forall_forall. intros x Hx.
    apply list_elem_of_In, in_flat_map in Hx as (c & Hc & Hx).
    apply list_elem_of_In in Hc, Hx.
    pose proof (proj1 (Forall_forall _ _) Hex c Hc) as Hcn.
    apply Nat.ltb_ge.
    apply elem_of_cons in Hx as [->|Hx]; [done|].
    by apply (proj1 (Forall_forall _ _)
                (grown_new_descendants d d' Hg f c Hcn)).
Qed.

Lemma filter_through {A} (p q : A -> bool) l :
  (forall x, p x = true -> q x = true) ->
  List.filter p l = List.filter p (List.filter q l).
Proof.
  intros H. induction l as [|x l IH]; [done|]. cbn [List.filter].
  destruct (p x) eqn:Hp.
  - rewrite (H x Hp). cbn [List.filter]. by rewrite Hp, IH.
  - destruct (q x); [|done]. cbn [List.filter]. by rewrite Hp.
Qed.

Lemma filter_ext_in {A} (p q : A -> bool) l :
  (forall x, x ∈ l -> p x = q x) -> List.filter p l = List.filter q l.
Proof.
  induction l as [|x l IH]; intros H; [done|]. cbn [List.filter].
  rewrite (H x) by (by left). rewrite IH; [done|].
  intros y Hy. apply H. by right.
Qed.

(** Adding buttons does not change which elements a type selector
    other than [button] finds under an old node. *)
Lemma grown_querySelectorAll d d' root tags :
  ordered d -> closed d -> grown d d' -> root < next d ->
  existsb (String.eqb "button") tags = false ->
  querySelectorAll d' root tags = querySelectorAll d root tags.
Proof.
  intros Hord Hcl Hg Hroot Htags. pose proof Hg as (Hn & Hold & Hnew).
  unfold querySelectorAll, descendants.
  rewrite (filter_through _ (fun x => (x <? next d)%nat)).
  - rewrite (grown_old_descendants d d' Hcl Hg) by done.
    rewrite (descendants_go_enough d Hord (next d') (next d) root) by lia.
    apply filter_ext_in. intros x Hx.
    pose proof (descendants_go_closed d Hcl _ _ _ Hx) as Hlt.
    unfold has_tag. by destruct (Hold x Hlt) as [-> _].
  - intros x Hx. apply Nat.ltb_lt.
    destruct (decide (x < next d)) as [|Hge]; [done|].
    destruct (Hnew x ltac:(lia)) as [[Ht|Ht] _];
      unfold has_tag in Hx; rewrite Ht in Hx; [|done].
    by rewrite Htags in Hx.
Qed.

End GrowFacts.

Section CopiedText.
Import Str DOM DomFacts Page Aux Run LoopFacts VisitFacts TextFacts.
Import WalkFacts HeadingFacts TocFacts GrowFacts Listeners.

(** X23. Adding the copy buttons does not change what a click copies:
    in a well-formed document where no [pre] lies inside the first
    [code] element of the [pre], the listener hands the clipboard the
    text that element had before the buttons were added (and throws as
    before when the [pre] has no [code] element); the label of the
    button is never part of it. *)
Theorem addCopyButtons_keeps_copied_text (w : world)
    (container pre : ref) :
  let d := w_dom w in
  let pres := DOM.querySelectorAll d container ["pre"] in
  ordered d -> closed d ->
  pre ∈ pres ->
  (forall code x,
     DOM.querySelector d pre ["code"] = Some code ->
     x ∈ DOM.descendants d code -> x ∉ pres) ->
  exists w',
    addCopyButtons container w = (Ok tt, w')
    /\ copyText pre (w_dom w') = copyText pre d.
Proof.
  intros d pres Hord Hcl Hpre Hin.
  destruct (buttons_loop pres w) as (w' & Hrun & Hn & _ & Hfr);
    [apply querySelectorAll_is_Some|].
  fold d in Hn, Hfr.
  exists w'. split; [unfold addCopyButtons; by rewrite run_dom_read|].
  assert (grown d (w_dom w')) as Hg.
  { assert (Forall (fun h => h < next d /\ exists t, tag d h = Some t) pres)
      as Hall.
    { apply Forall_forall. intros h Hh.
      split; [by apply (proj1 (Forall_forall _ _)
                          (querySelectorAll_allocated d container ["pre"]))|].
      apply list_elem_of_In, filter_In in Hh as [_ Hh].
      unfold has_tag in Hh. destruct (tag d h); [by eexists | done]. }
    pose proof (grown_buttons d pres Hall w (grown_refl d)) as H.
    by rewrite Hrun in H. }
  assert (pre < next d) as Hlt
    by by apply (proj1 (Forall_forall _ _)
                   (querySelectorAll_allocated d container ["pre"])).
  unfold copyText, querySelector.
  rewrite (grown_querySelectorAll d (w_dom w') pre ["code"]) by done.
  destruct (querySelectorAll d pre ["code"]) as [|code rest] eqn:Q; [done|].
  cbn [head]. f_equal.
  assert (code ∈ querySelectorAll d pre ["code"]) as Hcode
    by (rewrite Q; by left).
  assert (code ∉ pres) as Hnot.
  { intros Hc.
    apply list_elem_of_In, filter_In in Hcode as [_ H1].
    apply list_elem_of_In, filter_In in Hc as [_ H2].
    unfold has_tag in H1, H2. destruct (tag d code) as [t|]; [|done].
    cbn [existsb] in H1, H2. rewrite orb_false_r in H1, H2.
    apply String.eqb_eq in H1, H2. congruence. }
  apply textContent_stable; [done | lia |].
  intros x [->|Hx]; apply Hfr; try done.
  - by apply (proj1 (Forall_forall _ _)
                (querySelectorAll_allocated d pre ["code"])).
  - by apply (descendants_go_closed d Hcl _ _ _ Hx).
  - apply (Hin code x); [|done]. unfold querySelector. by rewrite Q.
Qed.

Lemma addCopyButtons_keeps_copied_text_witness :
  exists w',
    addCopyButtons Sample.content (Sample.rendered "guide") = (Ok tt, w')
    /\ copyText 6 (w_dom w') = copyText 6 (w_dom (Sample.rendered "guide")).
Proof.
  apply (addCopyButtons_keeps_copied_text (Sample.rendered "guide")
           Sample.content 6).
  - apply orderedb_sound. reflexivity.
  - apply closedb_sound. reflexivity.
  - vm_compute. apply list_elem_of_singleton. reflexivity.
  - intros code x Hq Hx. vm_compute in Hq. injection Hq as <-.
    vm_compute in Hx. apply list_elem_of_singleton in Hx. subst x.
    vm_compute. intros H%list_elem_of_singleton. discriminate H.
Defined.

End CopiedText.

Module FindFacts.

(** [List.find] returns the first element that passes the test. *)
Lemma find_first {A} (p : A -> bool) l x :
  List.find p l = Some x
  <-> exists before after,
        l = (before ++ x :: after)%list
        /\ p x = true /\ Forall (fun y => p y = false) before.
Proof.
  split.
  - induction l as [|y l IH]; [done|]. cbn [List.find].
    destruct (p y) eqn:Hy.
    + intros [= ->]. by exists [], l.
    + intros (before & after & -> & Hx & Hb)%IH.
      exists (y :: before), after. repeat split; [done|].
      by apply Forall_cons.
  - intros (before & after & -> & Hx & Hb).
    induction Hb as [|y before Hy _ IH]; cbn [app List.find].
    + by rewrite Hx.
    + by rewrite Hy.
Qed.

End FindFacts.

Section TocClick.
Import Str DOM Listeners FindFacts.

(** X24. A click on the entry of heading [h] always prevents the
    default action and ends by replacing the fragment of the URL with
    the id of [h], with at most one scroll in between.  It scrolls to
    [target] exactly when [target] is the first element of the document,
    in document order, whose id is the id of [h], and that id is not
    empty: with ids that are not unique the entry may lead to another
    element than its heading, and with an empty id it leads nowhere. *)
Theorem tocClick_scroll_target (w : world) (h target : ref) :
  let d := w_dom w in
  (exists scroll,
     tocClick h w
     = (APreventDefault :: scroll ++ [AReplaceState ("#" ++ DOM.id d h)])%list
     /\ length scroll <= 1)
  /\ (AScrollIntoView target ∈ tocClick h w
      <-> Str.is_empty (DOM.id d h) = false
          /\ exists before after t,
              DOM.descendants d (w_document w)
              = (before ++ target :: after)%list
              /\ DOM.tag d target = Some t
              /\ DOM.id d target = DOM.id d h
              /\ Forall (fun r => DOM.tag d r = None
                                  \/ DOM.id d r <> DOM.id d h) before).
Proof.
  intros d. unfold tocClick. fold d. split.
  { eexists. split; [reflexivity|].
    destruct (getElementById d (w_document w) (DOM.id d h)); simpl; lia. }
  set (x := DOM.id d h).
  set (p := fun r => match tag d r with
                     | Some _ => String.eqb (DOM.id d r) x
                     | None => false
                     end).
  assert (forall r, p r = false <-> tag d r = None \/ DOM.id d r <> x) as Hp.
  { intros r. unfold p. destruct (tag d r) as [t|].
    - rewrite String.eqb_neq. split; [by right | by intros [|]].
    - split; [by left | done]. }
  assert (AScrollIntoView target
            ∈ APreventDefault
              :: match getElementById d (w_document w) x with
                 | Some t => [AScrollIntoView t]
                 | None => []
                 end ++ [AReplaceState ("#" ++ x)]
          <-> getElementById d (w_document w) x = Some target) as ->.
  { rewrite elem_of_cons, elem_of_app, list_elem_of_singleton.
    destruct (getElementById d (w_document w) x) as [t|].
    - rewrite list_elem_of_singleton. split.
      + intros [|[[= ->]|]]; done.
      + intros [= ->]. right. by left.
    - split; [|done]. intros [|[Hn|]]; [done | | done].
      by apply elem_of_nil in Hn. }
  unfold getElementById. fold p.
  destruct (is_empty x).
  { split; [done | by intros []]. }
  rewrite find_first. split.
  - intros (before & after & Hl & Hx & Hb). split; [done|].
    unfold p in Hx. destruct (tag d target) as [t|] eqn:Ht; [|done].
    exists before, after, t. repeat split; try done.
    + by apply String.eqb_eq.
    + eapply Forall_impl; [exact Hb|]. intros r. apply Hp.
  - intros (_ & before & after & t & Hl & Ht & Hi & Hb).
    exists before, after. split; [done|]. split.
    + unfold p. rewrite Ht. by apply String.eqb_eq.
    + eapply Forall_impl; [exact Hb|]. intros r. apply Hp.
Qed.

End TocClick.

(** ** The scroll to the fragment *)

Module ScrollFacts.
Import DOM Page Aux Run LoaderFacts TraceFacts.

Lemma scrolls_last_quiet (m : M unit) w :
  emits (fun _ => True) (fun ev => forall ms t, ev <> ETimeout ms t) m ->
  scrolls_last w (m w).
Proof. intros Hm. destruct (Hm w I) as (_ & evs & ? & ?). left. by exists evs. Qed.

Lemma scrolls_last_bind {A} (m : M A) (k : A -> M unit) w :
  emits (fun _ => True) (fun ev => forall ms t, ev <> ETimeout ms t) m ->
  (forall a w1, scrolls_last w1 (k a w1)) ->
  scrolls_last w ((m ≫= k) w).
Proof.
  intros Hm Hk. destruct (Hm w I) as (_ & evs & Ht & Hp).
  destruct (m w) as [[a|e] w1] eqn:E; cbn [snd] in Ht.
  - rewrite (run_bind _ _ _ _ _ E).
    destruct (Hk a w1) as [(evs2 & Ht2 & Hp2) | (evs2 & t & Hok & Ht2 & R)].
    + left. exists (evs ++ evs2)%list. rewrite Ht2, Ht, <- app_assoc.
      split; [done|]. by apply Forall_app.
    + right. exists (evs ++ evs2)%list, t. split; [done|].
      rewrite Ht2, Ht, <- !app_assoc. split; [done|].
      destruct R as (Hp2 & R). split; [by apply Forall_app | done].
  - rewrite (run_bind_throw _ _ _ _ _ E). left. by exists evs.
Qed.

Lemma scrolls_last_try_catch (body : M unit) (handler : error -> M unit) w :
  scrolls_last w (body w) ->
  (forall e, emits (fun _ => True)
               (fun ev => forall ms t, ev <> ETimeout ms t) (handler e)) ->
  scrolls_last w (try_catch body handler w).
Proof.
  intros Hb Hh. unfold try_catch.
  destruct (body w) as [[a|e] w1]; [done|].
  destruct Hb as [(evs & Ht & Hp) | (evs & t & Hok & _)]; [|done].
  cbn [snd] in Ht. destruct (Hh e w1 I) as (_ & evs2 & Ht2 & Hp2).
  left. exists (evs ++ evs2)%list. rewrite Ht2, Ht, <- app_assoc.
  split; [done|]. by apply Forall_app.
Qed.

(** The last step of [render]. *)
Lemma scrolls_last_scroll w :
  scrolls_last w
    ((hash ← read w_hash;
      if Str.is_empty hash then mret tt
      else
        target ← read (fun w =>
                         DOM.getElementById (w_dom w) (w_document w)
                           (Str.drop 1 hash));
        match target with
        | Some t => emit (ETimeout 100 t)
        | None => mret tt
        end) w).
Proof.
  rewrite run_read. destruct (Str.is_empty (w_hash w)) eqn:Hh.
  { left. exists []. by rewrite app_nil_r. }
  rewrite run_read.
  destruct (getElementById (w_dom w) (w_document w) (Str.drop 1 (w_hash w)))
    as [t|] eqn:Hg.
  - right. exists [], t.
    change (emit (ETimeout 100 t) w) with (Ok tt, log (ETimeout 100 t) w).
    cbn [fst snd]. rewrite w_trace_log. by repeat split.
  - left. exists []. by rewrite app_nil_r.
Qed.

Section Scroll.
Context (X : external).

Lemma scrolls_last_render slug wrapper content loading w :
  scrolls_last w (render X slug wrapper content loading w).
Proof.
  assert (steady (fun _ : world => True)) as HI by done.
  unfold render.
  apply scrolls_last_bind.
  { unfold fetch_and_load.
    repeat first [ apply emits_loadPrism; done | emits_more ]. }
  intros [resp Prism] w1.
  destruct (negb (ok resp)).
  { apply scrolls_last_quiet. by apply emits_dom_write. }
  apply scrolls_last_bind; [destruct (body resp); emits_step|].
  intros md w2.
  apply scrolls_last_bind; [destruct (marked_parse X md); emits_step|].
  intros markup w3.
  apply scrolls_last_bind; [by apply emits_dom_write|]. intros _ w4.
  apply scrolls_last_bind; [by apply emits_highlightCodeBlocks|]. intros _ w5.
  apply scrolls_last_bind; [by apply emits_addCopyButtons|]. intros _ w6.
  apply scrolls_last_bind; [by apply emits_addHeadingAnchors|]. intros _ w7.
  apply scrolls_last_bind; [by apply emits_buildTOC|]. intros toc w8.
  apply scrolls_last_bind.
  { destruct toc; [by apply emits_dom_write | apply emits_ret]. }
  intros _ w9. apply scrolls_last_scroll.
Qed.

Lemma scrolls_last_decorate block w :
  scrolls_last w (decorate X block w).
Proof.
  assert (steady (fun _ : world => True)) as HI by done.
  unfold decorate.
  apply scrolls_last_bind; [apply emits_dom_read|]. intros text w1.
  destruct (Str.is_empty _).
  { apply scrolls_last_quiet. apply emits_ret. }
  apply scrolls_last_bind; [by apply emits_scaffold|].
  intros [[wrapper content] loading] w2.
  apply scrolls_last_try_catch; [apply scrolls_last_render|].
  intros e. by apply emits_report_failure.
Qed.

(** [decorate] changes neither the fragment nor the document. *)
Lemma decorate_keeps_location block w :
  w_hash (snd (decorate X block w)) = w_hash w
  /\ w_document (snd (decorate X block w)) = w_document w.
Proof.
  set (I := fun w0 : world =>
              w_hash w0 = w_hash w /\ w_document w0 = w_document w).
  assert (steady I) as HI by done.
  destruct (emits_decorate I (fun _ => True) HI X) with (block := block) (w := w)
    as (Hi & _); try done.
  apply emits_loadPrism; done.
Qed.

End Scroll.

Lemma scrolls_if_found_bind {A} (m : M A) (k : A -> M unit) w :
  emits (fun _ => True) (fun _ => True) m ->
  (forall a w1, scrolls_if_found w1 (k a w1)) ->
  scrolls_if_found w ((m ≫= k) w).
Proof.
  intros Hm Hk. destruct (Hm w I) as (_ & evs & Ht & _).
  destruct (m w) as [[a|e] w1] eqn:E; cbn [snd] in Ht.
  - rewrite (run_bind _ _ _ _ _ E). destruct (Hk a w1) as [[evs2 H1] H2].
    split.
    + exists (evs ++ evs2)%list. by rewrite H1, Ht, <- app_assoc.
    + intros Hok Hh t Hg. destruct (H2 Hok Hh t Hg) as [evs3 H3].
      exists (evs ++ evs3)%list. by rewrite H3, Ht, <- !app_assoc.
  - rewrite (run_bind_throw _ _ _ _ _ E). split; [by exists evs | done].
Qed.

Lemma scrolls_if_found_scroll w :
  scrolls_if_found w
    ((hash ← read w_hash;
      if Str.is_empty hash then mret tt
      else
        target ← read (fun w =>
                         DOM.getElementById (w_dom w) (w_document w)
                           (Str.drop 1 hash));
        match target with
        | Some t => emit (ETimeout 100 t)
        | None => mret tt
        end) w).
Proof.
  unfold scrolls_if_found.
  rewrite run_read. destruct (Str.is_empty (w_hash w)) eqn:Hh.
  { split; [exists []; by rewrite app_nil_r|]. intros _ Hh'.
    change (Str.is_empty (w_hash w) = false) in Hh'. congruence. }
  rewrite run_read.
  destruct (getElementById (w_dom w) (w_document w) (Str.drop 1 (w_hash w)))
    as [t|] eqn:Hg.
  - change (emit (ETimeout 100 t) w) with (Ok tt, log (ETimeout 100 t) w).
    cbn [fst snd]. rewrite w_trace_log. split; [by eexists|].
    intros _ _ t'. rewrite w_dom_log.
    change (w_document (log (ETimeout 100 t) w)) with (w_document w).
    change (w_hash (log (ETimeout 100 t) w)) with (w_hash w).
    rewrite Hg. intros [= <-]. by exists [].
  - split; [exists []; by rewrite app_nil_r|]. intros _ _ t.
    change (getElementById (w_dom w) (w_document w) (Str.drop 1 (w_hash w))
            = Some t -> exists evs,
                w_trace w = (w_trace w ++ evs ++ [ETimeout 100 t])%list).
    by rewrite Hg.
Qed.

End ScrollFacts.

Section ScrollTarget.
Import DOM Page Aux Run ScrollFacts.

(** X25. [decorate] sets at most one timer, and sets it last: the
    timer of 100 ms for the scroll to the first element whose id is the
    fragment without its first character, looked up in the page as
    [decorate] leaves it, that is, once the ids of the headings are
    generated. *)
Theorem decorate_scroll_target (X : external) (block : ref) (w : world) :
  let w' := snd (decorate X block w) in
  (exists evs,
     w_trace w' = (w_trace w ++ evs)%list
     /\ Forall (fun ev => forall ms t, ev <> ETimeout ms t) evs)
  \/ (exists evs t,
        w_trace w' = (w_trace w ++ evs ++ [ETimeout 100 t])%list
        /\ Forall (fun ev => forall ms t, ev <> ETimeout ms t) evs
        /\ Str.is_empty (w_hash w) = false
        /\ DOM.getElementById (w_dom w') (w_document w)
             (Str.drop 1 (w_hash w)) = Some t).
Proof.
  intros w'. destruct (decorate_keeps_location X block w) as [Hh Hd].
  destruct (scrolls_last_decorate X block w)
    as [H | (evs & t & _ & Ht & Hp & He & Hg)]; [by left|].
  right. exists evs, t. fold w' in Hh, Hd, Ht, He, Hg.
  by rewrite Hh, Hd in *.
Qed.

End ScrollTarget.

Section ScrollDue.
Import DOM DomFacts Page Aux Run Frame LoaderFacts TraceFacts.
Import EntryFacts NoticeFacts ScrollFacts.

(** X26. The other direction, for a document that was fetched and
    converted: when the fragment names an element of the page as
    [decorate] leaves it, either a later step threw, and the report of
    the error is the last request, or the timer of the scroll to that
    element is. *)
Theorem decorate_scrolls_to_fragment (X : external) (w : world)
    (block : ref) (resp : response) (Prism : option engine)
    (md markup : string) (t : ref) :
  let slug := Str.trim (DOM.textContent (w_dom w) block) in
  let w' := snd (decorate X block w) in
  Str.is_empty slug = false ->
  fst (fetch_and_load X slug w) = Ok (resp, Prism) ->
  ok resp = true ->
  body resp = Some md ->
  marked_parse X md = Some markup ->
  Str.is_empty (w_hash w) = false ->
  DOM.getElementById (w_dom w') (w_document w) (Str.drop 1 (w_hash w))
  = Some t ->
  (exists evs e, w_trace w' = (w_trace w ++ evs ++ [EConsoleError e])%list)
  \/ (exists evs, w_trace w' = (w_trace w ++ evs ++ [ETimeout 100 t])%list).
Proof.
  intros slug w' Hslug Hfetch Hok Hbody Hconv Hhash Hfound.
  destruct (decorate_keeps_location X block w) as [Hh Hd].
  fold w' in Hh, Hd. rewrite <- Hh, <- Hd in Hfound. rewrite <- Hh in Hhash.
  clear Hh Hd. revert Hhash Hfound. unfold w'. clear w'.
  assert (steady (fun _ : world => True)) as HI by done.
  rewrite (decorate_run X block w Hslug). cbv zeta. fold slug.
  set (sc := scaffold_dom block (w_dom w)).
  set (ws := with_dom sc.2 w).
  (* the outcome of [render] *)
  assert (scrolls_if_found ws
            (render X slug sc.1.1.1 sc.1.1.2 sc.1.2 ws)) as Hrender.
  { unfold render.
    destruct (globals_only_fetch_and_load X slug ws w) as (Hf & _ & _);
      [done|].
    rewrite Hfetch in Hf.
    destruct (emits_fetch_and_load X slug ws I) as (_ & evs & Ht & _).
    destruct (fetch_and_load X slug ws) as [r2 w2] eqn:Hfl.
    cbn [fst snd] in Hf, Ht. subst r2.
    rewrite (run_bind _ _ _ _ _ Hfl).
    rewrite Hok. cbn [negb]. rewrite Hbody, run_ret, Hconv, run_ret.
    rewrite run_write.
    set (w3 := with_dom _ w2).
    assert (scrolls_if_found w3
              ((highlightCodeBlocks X sc.1.1.2 Prism;;
                addCopyButtons sc.1.1.2;;
                addHeadingAnchors sc.1.1.2;;
                toc ← buildTOC sc.1.1.2;
                match toc with
                | Some t => dom_write (DOM.appendChild sc.1.1.1 t)
                | None => mret tt
                end;;
                hash ← read w_hash;
                if Str.is_empty hash then mret tt
                else
                  target ← read (fun w =>
                                   DOM.getElementById (w_dom w) (w_document w)
                                     (Str.drop 1 hash));
                  match target with
                  | Some t => emit (ETimeout 100 t)
                  | None => mret tt
                  end) w3)) as [[evs2 H1] H2].
    { apply scrolls_if_found_bind; [by apply emits_highlightCodeBlocks|].
      intros _ w5.
      apply scrolls_if_found_bind; [by apply emits_addCopyButtons|].
      intros _ w6.
      apply scrolls_if_found_bind; [by apply emits_addHeadingAnchors|].
      intros _ w7.
      apply scrolls_if_found_bind; [by apply emits_buildTOC|].
      intros toc w8.
      apply scrolls_if_found_bind.
      { destruct toc; [by apply emits_dom_write | by apply emits_ret]. }
      intros _ w9. apply scrolls_if_found_scroll. }
    change (w_trace w3) with (w_trace w2) in H1, H2.
    split.
    - exists (evs ++ evs2)%list. by rewrite H1, Ht, <- app_assoc.
    - intros Hok' Hh t' Hg. destruct (H2 Hok' Hh t' Hg) as [evs3 H3].
      exists (evs ++ evs3)%list. by rewrite H3, Ht, <- !app_assoc. }
  change (w_trace ws) with (w_trace w) in Hrender.
  unfold try_catch.
  destruct (render X slug sc.1.1.1 sc.1.1.2 sc.1.2 ws) as [[[]|e] w1].
  - destruct Hrender as [_ H2]. cbn [fst snd] in *.
    intros Hhash Hfound. right. by apply H2.
  - destruct Hrender as [[evs H1] _]. cbn [snd] in H1.
    intros _ _. left. exists evs, e.
    change (report_failure sc.1.2 e w1)
      with (Ok tt, log (EConsoleError e)
                     (with_dom (set_textContent sc.1.2
                                  "Failed to load documentation" (w_dom w1))
                        w1)).
    cbn [snd]. rewrite w_trace_log.
    change (w_trace (with_dom _ w1)) with (w_trace w1).
    by rewrite H1, app_assoc.
Qed.

Lemma decorate_scrolls_to_fragment_witness :
  let w := World (Sample.page_dom "guide") None (Some "/app") "#install"
             0 [] in
  let w' := snd (decorate Sample.site Sample.block w) in
  (exists evs e, w_trace w' = (w_trace w ++ evs ++ [EConsoleError e])%list)
  \/ (exists evs, w_trace w' = (w_trace w ++ evs ++ [ETimeout 100 9])%list).
Proof.
  apply (decorate_scrolls_to_fragment Sample.site
           (World (Sample.page_dom "guide") None (Some "/app") "#install"
              0 [])
           Sample.block (Response true 200 (Some "guide"))
           (Some Sample.loaded_engine) "guide" "guide" 9); reflexivity.
Defined.

End ScrollDue.
